(** * PostgreSQL client of the Antares database tool: a shallow embedding

    The development follows the class [PostgreSQLClient]: the query
    renderer [getSQL], the column introspection [getTableColumns], the DDL
    synthesiser [alterTable] and the raw executor [raw] with the methods it
    calls back into ([use], [getTableByIDs], [getTableColumns],
    [getTableIndexes], [getKeyUsage]).

    JavaScript data is modelled as it is in the program: dynamically typed
    values, objects as finite maps from property names to values, arrays as
    lists, text as ASCII strings.  Numbers are restricted to integers.

    An asynchronous method is a state-passing computation over the client
    and the world outside it (the database server and the clock); it yields
    the outcome of the promise the method returns: fulfilled, rejected, or
    never settled.  A promise that is not awaited ([this.use(...)]) is run
    to its end where it is created, as a single connection serves its
    queries in the order they are submitted.  The development logger is
    left out.

    The base class [AntaresCore], the table [common/data-types/postgresql],
    the driver [pg] and the parser [pgsql-ast-parser] are not part of the
    sources: they are parameters, or small definitions marked as modelled
    from the specification. *)

From Stdlib Require Import ZArith String Ascii List Lia.
From stdpp Require Import base option list strings gmap pretty.

Set Warnings "-register-all".
Open Scope string_scope.
Open Scope list_scope.

#[local] Arguments String.append s1 s2 : simpl nomatch.

(** ** Strings *)

Module Str.

Definition dquote : string := String "034"%char EmptyString.
Definition nl : string := String "010"%char EmptyString.

Definition is_empty (s : string) : bool :=
  match s with EmptyString => true | String _ _ => false end.

Definition upper_char (c : ascii) : ascii :=
  let n := nat_of_ascii c in
  if (97 <=? n)%nat && (n <=? 122)%nat then ascii_of_nat (n - 32) else c.

Definition lower_char (c : ascii) : ascii :=
  let n := nat_of_ascii c in
  if (65 <=? n)%nat && (n <=? 90)%nat then ascii_of_nat (n + 32) else c.

(** [String.prototype.toUpperCase] / [toLowerCase] on ASCII text. *)
Fixpoint toUpperCase (s : string) : string :=
  match s with
  | EmptyString => EmptyString
  | String c s' => String (upper_char c) (toUpperCase s')
  end.

Fixpoint toLowerCase (s : string) : string :=
  match s with
  | EmptyString => EmptyString
  | String c s' => String (lower_char c) (toLowerCase s')
  end.

Fixpoint drop (n : nat) (s : string) : string :=
  match n, s with
  | O, _ => s
  | S n', String _ s' => drop n' s'
  | S _, EmptyString => EmptyString
  end.

(** [s.replace(pat, rep)] with a string pattern: only the first
    occurrence is replaced. *)
Fixpoint replace (pat rep s : string) : string :=
  if String.prefix pat s then rep +:+ drop (String.length pat) s
  else match s with
       | EmptyString => EmptyString
       | String c s' => String c (replace pat rep s')
       end.

(** [s.split(sep)] for a one-character separator. *)
Fixpoint split (sep : ascii) (s : string) : list string :=
  match s with
  | EmptyString => [EmptyString]
  | String c s' =>
      if Ascii.eqb c sep then EmptyString :: split sep s'
      else match split sep s' with
           | [] => [String c EmptyString]
           | p :: ps => String c p :: ps
           end
  end.

(** [s.includes(sub)] *)
Definition includes (sub s : string) : bool :=
  match String.index 0 sub s with Some _ => true | None => false end.

Definition join (sep : string) (l : list string) : string :=
  String.concat sep l.

Definition is_space (c : ascii) : bool :=
  let n := nat_of_ascii c in
  (n =? 32)%nat || ((9 <=? n)%nat && (n <=? 13)%nat).

(** Whitespace normalisation: every run of white space becomes one
    blank, and leading and trailing white space is dropped. *)
Fixpoint squeeze (pending : bool) (s : string) : string :=
  match s with
  | EmptyString => EmptyString
  | String c s' =>
      if is_space c then squeeze true s'
      else if pending then String " "%char (String c (squeeze false s'))
           else String c (squeeze false s')
  end.

Fixpoint ltrim (s : string) : string :=
  match s with
  | String c s' => if is_space c then ltrim s' else s
  | EmptyString => EmptyString
  end.

Definition normalize_ws (s : string) : string := squeeze false (ltrim s).

End Str.

(** ** JavaScript values

    The numbers of this model are the integers of magnitude up to 2^53,
    which the language holds exactly and prints digit by digit; fractions,
    NaN, the infinities and larger magnitudes are outside it. *)

Inductive value :=
| VUndef
| VNull
| VBool (b : bool)
| VNum (n : Z)
| VStr (s : string)
| VArr (l : list value)
| VObj (o : gmap string value).

Abbreviation obj := (gmap string value).

(** ToBoolean *)
Definition truthy (v : value) : bool :=
  match v with
  | VUndef | VNull => false
  | VBool b => b
  | VNum n => negb (n =? 0)%Z
  | VStr s => negb (Str.is_empty s)
  | VArr _ | VObj _ => true
  end.

(** ToString, as performed by a template literal [`${v}`]; a number
    of the model prints all its digits. *)
Fixpoint to_str (v : value) : string :=
  match v with
  | VUndef => "undefined"
  | VNull => "null"
  | VBool true => "true"
  | VBool false => "false"
  | VNum n => pretty n
  | VStr s => s
  | VArr l =>
      Str.join ","
        (map (fun x => match x with
                       | VUndef | VNull => EmptyString
                       | _ => to_str x
                       end) l)
  | VObj _ => "[object Object]"
  end.

(** [arr.join(sep)]: [null] and [undefined] elements give the empty text. *)
Definition join_values (sep : string) (l : list value) : string :=
  Str.join sep
    (map (fun x => match x with
                   | VUndef | VNull => EmptyString
                   | _ => to_str x
                   end) l).

(** [a || b] *)
Definition js_or (a b : value) : value := if truthy a then a else b.

(** [a === b].  Primitives are compared by value.  Arrays and objects are
    compared by identity in JavaScript; the operands this client compares
    are names, numbers, [null] or [undefined], and on an array or object
    operand the answer here is [false]. *)
Definition strict_eq (a b : value) : bool :=
  match a, b with
  | VUndef, VUndef => true
  | VNull, VNull => true
  | VBool x, VBool y => Bool.eqb x y
  | VNum x, VNum y => (x =? y)%Z
  | VStr x, VStr y => String.eqb x y
  | _, _ => false
  end.

(** Property read [o.k] on an object: [undefined] when the property is
    missing. *)
Definition prop (k : string) (o : obj) : value := default VUndef (o !! k).

Definition is_array (v : value) : bool :=
  match v with VArr _ => true | _ => false end.

(** ** Query builder *)

Module Builder.

(** An argument of an accumulator call: a literal fragment, or an object
    literal whose properties are kept in source order (the renderer
    enumerates them). *)
Inductive clause :=
| CLit (v : value)
| CObj (kv : list (string * value)).

(** [this._query] *)
Record query := {
  q_schema : value;
  q_select : list clause;
  q_from : value;
  q_where : list clause;
  q_groupBy : list clause;
  q_orderBy : list clause;
  q_limit : list value;
  q_update : list clause;
  q_insert : list (list (string * value));
  q_delete : bool
}.

(** Modelled from the spec: the empty descriptor the absent base class
    [AntaresCore] starts from and resets to (built incrementally,
    rendered once, then discarded). *)
Definition empty_query : query :=
  {| q_schema := VStr EmptyString; q_select := []; q_from := VStr EmptyString;
     q_where := []; q_groupBy := []; q_orderBy := []; q_limit := [];
     q_update := []; q_insert := []; q_delete := false |}.

(** Modelled from the spec: the fluent accumulators of the absent base
    class [AntaresCore] (each call mutates the QueryDescriptor and
    returns the same builder). *)
Definition select (args : list clause) (q : query) : query :=
  {| q_schema := q_schema q; q_select := q_select q ++ args; q_from := q_from q;
     q_where := q_where q; q_groupBy := q_groupBy q; q_orderBy := q_orderBy q;
     q_limit := q_limit q; q_update := q_update q; q_insert := q_insert q;
     q_delete := q_delete q |}.

Definition schema (s : value) (q : query) : query :=
  {| q_schema := s; q_select := q_select q; q_from := q_from q;
     q_where := q_where q; q_groupBy := q_groupBy q; q_orderBy := q_orderBy q;
     q_limit := q_limit q; q_update := q_update q; q_insert := q_insert q;
     q_delete := q_delete q |}.

Definition from (t : value) (q : query) : query :=
  {| q_schema := q_schema q; q_select := q_select q; q_from := t;
     q_where := q_where q; q_groupBy := q_groupBy q; q_orderBy := q_orderBy q;
     q_limit := q_limit q; q_update := q_update q; q_insert := q_insert q;
     q_delete := q_delete q |}.

Definition where_ (args : list clause) (q : query) : query :=
  {| q_schema := q_schema q; q_select := q_select q; q_from := q_from q;
     q_where := q_where q ++ args; q_groupBy := q_groupBy q;
     q_orderBy := q_orderBy q; q_limit := q_limit q; q_update := q_update q;
     q_insert := q_insert q; q_delete := q_delete q |}.

Definition orderBy (args : list clause) (q : query) : query :=
  {| q_schema := q_schema q; q_select := q_select q; q_from := q_from q;
     q_where := q_where q; q_groupBy := q_groupBy q;
     q_orderBy := q_orderBy q ++ args; q_limit := q_limit q;
     q_update := q_update q; q_insert := q_insert q; q_delete := q_delete q |}.

Definition limit (args : list value) (q : query) : query :=
  {| q_schema := q_schema q; q_select := q_select q; q_from := q_from q;
     q_where := q_where q; q_groupBy := q_groupBy q; q_orderBy := q_orderBy q;
     q_limit := args; q_update := q_update q; q_insert := q_insert q;
     q_delete := q_delete q |}.

(** Modelled from the spec: the clause flattening helper [_reducer] of
    the absent base class, for the two item shapes this client passes:
    literal fragments are appended, and an object contributes one
    [key value] fragment per property (as the call
    [where({ table_schema: ... })] of [getTableColumns] needs). *)
Definition literal_reducer (acc : list value) (curr : clause) : list value :=
  match curr with
  | CLit (VArr l) => acc ++ l
  | CLit v => acc ++ [v]
  | CObj kv =>
      acc ++ map (fun p => VStr (fst p +:+ " " +:+ to_str (snd p))) kv
  end.

Section Render.

(** [this._reducer], defined in the absent base class. *)
Variable _reducer : list value -> clause -> list value.

(** [arr.reduce(this._reducer, [])] *)
Definition reduce (l : list clause) : list value := fold_left _reducer l [].

Definition selectRaw (q : query) : string :=
  let selectArray := reduce (q_select q) in
  if negb (length selectArray =? 0)%nat then
    if negb (length selectArray =? 0)%nat
    then "SELECT " +:+ join_values ", " selectArray +:+ " "
    else "SELECT * "
  else EmptyString.

Definition fromRaw (q : query) : string :=
  let kw :=
    if (length (q_update q) =? 0)%nat && (length (q_insert q) =? 0)%nat
       && truthy (q_from q)
    then "FROM"
    else if negb (length (q_insert q) =? 0)%nat then "INTO"
    else EmptyString in
  kw +:+ (if truthy (q_from q)
          then " " +:+ (if truthy (q_schema q)
                        then to_str (q_schema q) +:+ "."
                        else EmptyString)
               +:+ to_str (q_from q) +:+ " "
          else EmptyString).

Definition whereRaw (q : query) : string :=
  let whereArray := reduce (q_where q) in
  if negb (length whereArray =? 0)%nat
  then "WHERE " +:+ join_values " AND " whereArray +:+ " "
  else EmptyString.

Definition updateRaw (q : query) : string :=
  let updateArray := reduce (q_update q) in
  if negb (length updateArray =? 0)%nat
  then "SET " +:+ join_values ", " updateArray +:+ " "
  else EmptyString.

Definition insertRaw (q : query) : string :=
  match q_insert q with
  | [] => EmptyString
  | first :: _ =>
      let fieldsList :=
        map (fun kv => Str.dquote +:+ fst kv +:+ Str.dquote) first in
      let rowsList :=
        map (fun el => "(" +:+ join_values ", " (map snd el) +:+ ")")
            (q_insert q) in
      "(" +:+ Str.join ", " fieldsList +:+ ") VALUES "
          +:+ Str.join ", " rowsList +:+ " "
  end.

Definition groupByRaw (q : query) : string :=
  let groupByArray := reduce (q_groupBy q) in
  if negb (length groupByArray =? 0)%nat
  then "GROUP BY " +:+ join_values ", " groupByArray +:+ " "
  else EmptyString.

Definition orderByRaw (q : query) : string :=
  let orderByArray := reduce (q_orderBy q) in
  if negb (length orderByArray =? 0)%nat
  then "ORDER BY " +:+ join_values ", " orderByArray +:+ " "
  else EmptyString.

Definition limitRaw (q : query) : string :=
  let selectArray := reduce (q_select q) in
  if negb (length selectArray =? 0)%nat && negb (length (q_limit q) =? 0)%nat
  then "LIMIT " +:+ join_values ", " (q_limit q) +:+ " "
  else EmptyString.

Definition getSQL (q : query) : string :=
  selectRaw q
  +:+ (if negb (Str.is_empty (updateRaw q)) then "UPDATE" else EmptyString)
  +:+ (if negb (Str.is_empty (insertRaw q)) then "INSERT " else EmptyString)
  +:+ (if q_delete q then "DELETE " else EmptyString)
  +:+ fromRaw q +:+ updateRaw q +:+ whereRaw q +:+ groupByRaw q
  +:+ orderByRaw q +:+ limitRaw q +:+ insertRaw q.

End Render.

End Builder.

(** ** Promises and client state *)

(** What a promise is rejected with: a [TypeError] the engine throws, or
    the error object the driver passes to the query callback. *)
Inductive error :=
| TypeError
| DriverError (e : value).

(** The state of the promise an asynchronous method returns, once the
    event loop has run dry: fulfilled, rejected, or never settled. *)
Inductive outcome (A : Type) :=
| Resolved (a : A)
| Rejected (e : error)
| Pending.

Arguments Resolved {A} a.
Arguments Rejected {A} e.
Arguments Pending {A}.

(** Synchronous code that may throw. *)
Definition throws (A : Type) := (error + A)%type.

(** [v.k]: reading a property of [null] or [undefined] throws; a primitive
    has none of the properties read in this client. *)
Definition member (k : string) (v : value) : throws value :=
  match v with
  | VUndef | VNull => inl TypeError
  | VObj o => inr (prop k o)
  | _ => inr VUndef
  end.

Fixpoint mapM {A B : Type} (f : A -> throws B) (l : list A) : throws (list B) :=
  match l with
  | [] => inr []
  | x :: xs =>
      match f x with
      | inl e => inl e
      | inr y => match mapM f xs with
                 | inl e => inl e
                 | inr ys => inr (y :: ys)
                 end
      end
  end.

(** [v.map(f)]: [v] has to be an array. *)
Definition array_map {B : Type} (f : value -> throws B) (v : value)
  : throws (list B) :=
  match v with
  | VArr l => mapM f l
  | _ => inl TypeError
  end.

(** [const { rows } = result] on what [raw] returned: a single result
    object has the property, a sequence of results has not. *)
Definition rows_of (result : value) : value :=
  match result with
  | VObj o => prop "rows" o
  | _ => VUndef
  end.

(** [[...new Set(l)]]: first occurrences, in order. *)
Fixpoint unique (l : list value) : list value :=
  match l with
  | [] => []
  | x :: xs => x :: filter (fun y => strict_eq x y = false) (unique xs)
  end.

(** The enumerable own properties a spread [{...v}] copies. *)
Definition own_props (v : value) : obj :=
  match v with
  | VObj o => o
  | VStr s =>
      list_to_map
        (imap (fun i c => (pretty i, VStr (String c EmptyString)))
              (list_ascii_of_string s))
  | _ => ∅
  end.

(** The static table [this._arrayTypes] of the constructor. *)
Definition _arrayTypes : list (string * string) :=
  [ ("_int2", "SMALLINT");
    ("_int4", "INTEGER");
    ("_int8", "BIGINT");
    ("_float4", "REAL");
    ("_float8", "DOUBLE PRECISION");
    ("_char", Str.dquote +:+ "CHAR" +:+ Str.dquote);
    ("_varchar", "CHARACTER VARYING") ].

Fixpoint assoc (k : string) (l : list (string * string)) : option string :=
  match l with
  | [] => None
  | (k', v) :: l' => if String.eqb k' k then Some v else assoc k l'
  end.

(** [_getArrayType(type)]; [type.replace] throws unless [type] is a
    string. *)
Definition _getArrayType (type : value) : throws string :=
  match type with
  | VStr t =>
      match assoc t _arrayTypes with
      | Some v => inr v
      | None => inr (Str.replace "_" EmptyString t)
      end
  | _ => inl TypeError
  end.

(** [x.includes('YES')] on a string or an array. *)
Definition includes_YES (v : value) : throws bool :=
  match v with
  | VStr s => inr (Str.includes "YES" s)
  | VArr l => inr (existsb (strict_eq (VStr "YES")) l)
  | _ => inl TypeError
  end.

(** The row mapper of [getTableColumns]: one [information_schema.columns]
    row to a column descriptor. *)
Definition remapColumn (arrayRemap : bool) (field : value) : throws value :=
  match member "data_type" field with
  | inl e => inl e
  | inr data_type =>
      let isArray := strict_eq data_type (VStr "ARRAY") in
      let get k := match member k field with inr v => v | inl _ => VUndef end in
      match (if isArray && arrayRemap
             then match _getArrayType (get "udt_name") with
                  | inl e => inl e
                  | inr t => inr (VStr t)
                  end
             else inr data_type) with
      | inl e => inl e
      | inr (VStr type) =>
          match includes_YES (get "is_nullable") with
          | inl e => inl e
          | inr nullable =>
              inr (VObj (list_to_map
                [ ("name", get "column_name");
                  ("key", VNull);
                  ("type", VStr (Str.toUpperCase type));
                  ("isArray", VBool isArray);
                  ("schema", get "table_schema");
                  ("table", get "table_name");
                  ("numPrecision", get "numeric_precision");
                  ("datePrecision", get "datetime_precision");
                  ("charLength", get "character_maximum_length");
                  ("nullable", VBool nullable);
                  ("unsigned", VNull);
                  ("zerofill", VNull);
                  ("order", get "ordinal_position");
                  ("default", get "column_default");
                  ("charset", get "character_set_name");
                  ("collation", get "collation_name");
                  ("autoIncrement", VBool false);
                  ("onUpdate", VNull);
                  ("comment", VStr EmptyString) ]))
          end
      | inr _ => inl TypeError
      end
  end.

(** ** DDL synthesis: [alterTable] *)

Module Alter.

(** An entry of [common/data-types/postgresql] (absent from the sources):
    groups of type descriptions. *)
Record type_info := { ti_name : string; ti_length : value }.
Record type_group := { tg_types : list type_info }.

(** A column of [additions] or [changes]. *)
Record column := {
  c_name : string;
  c_orgName : string;
  c_type : string;
  c_numLength : value;
  c_charLength : value;
  c_datePrecision : value;
  c_isArray : value;
  c_unsigned : value;
  c_zerofill : value;
  c_nullable : value;
  c_autoIncrement : value;
  c_default : value;
  c_comment : value;
  c_collation : value;
  c_onUpdate : value
}.

(** An entry of [indexChanges]. *)
Record index := {
  i_name : string;
  i_oldName : string;
  i_type : string;
  i_oldType : string;
  i_fields : list string
}.

(** An entry of [foreignChanges]. *)
Record foreign := {
  f_constraintName : string;
  f_oldName : string;
  f_field : string;
  f_refTable : string;
  f_refField : string;
  f_onUpdate : string;
  f_onDelete : string
}.

Record changeset (A : Type) := {
  additions : list A;
  changes : list A;
  deletions : list A
}.
Arguments additions {A} _.
Arguments changes {A} _.
Arguments deletions {A} _.

(** The [options] bag: [None] is a property that is not [in] it. *)
Record options := {
  o_comment : option value;
  o_engine : option value;
  o_autoIncrement : option value;
  o_collation : option value;
  o_name : value
}.

Record params := {
  table : string;
  columns : changeset column;
  indexChanges : changeset index;
  foreignChanges : changeset foreign;
  opts : options
}.

(** The four statement lists [alterTable] fills. *)
Record lists := {
  alterColumns : list string;
  renameColumns : list string;
  createSequences : list string;
  manageIndexes : list string
}.

Definition no_lists : lists :=
  {| alterColumns := []; renameColumns := []; createSequences := [];
     manageIndexes := [] |}.

Definition push_alter (s : string) (l : lists) : lists :=
  {| alterColumns := alterColumns l ++ [s]; renameColumns := renameColumns l;
     createSequences := createSequences l; manageIndexes := manageIndexes l |}.

Definition push_rename (s : string) (l : lists) : lists :=
  {| alterColumns := alterColumns l; renameColumns := renameColumns l ++ [s];
     createSequences := createSequences l; manageIndexes := manageIndexes l |}.

Definition push_sequence (s : string) (l : lists) : lists :=
  {| alterColumns := alterColumns l; renameColumns := renameColumns l;
     createSequences := createSequences l ++ [s];
     manageIndexes := manageIndexes l |}.

Definition push_index (s : string) (l : lists) : lists :=
  {| alterColumns := alterColumns l; renameColumns := renameColumns l;
     createSequences := createSequences l;
     manageIndexes := manageIndexes l ++ [s] |}.

(** [arr.forEach(f)] over an accumulator, where [f] may throw. *)
Fixpoint forEach {A : Type} (f : A -> lists -> throws lists) (l : list A)
         (acc : lists) : throws lists :=
  match l with
  | [] => inr acc
  | x :: xs => match f x acc with
               | inl e => inl e
               | inr acc' => forEach f xs acc'
               end
  end.

(** The value of a digit in a base up to sixteen. *)
Definition digit_in (base : Z) (c : ascii) : option Z :=
  let n := Z.of_nat (nat_of_ascii c) in
  let d := (if (48 <=? n) && (n <=? 57) then n - 48
            else if (97 <=? n) && (n <=? 102) then n - 87
            else if (65 <=? n) && (n <=? 70) then n - 55
            else 16)%Z in
  if (d <? base)%Z then Some d else None.

Fixpoint digits_in (base acc : Z) (s : string) : option Z :=
  match s with
  | EmptyString => Some acc
  | String c s' => match digit_in base c with
                   | Some d => digits_in base (base * acc + d)%Z s'
                   | None => None
                   end
  end.

(** A non-empty run of digits. *)
Definition numeral_in (base : Z) (s : string) : option Z :=
  match s with
  | EmptyString => None
  | _ => digits_in base 0%Z s
  end.

(** White space and line terminators, among ASCII characters. *)
Definition is_blank (c : ascii) : bool :=
  let n := nat_of_ascii c in
  (n =? 32)%nat || ((9 <=? n)%nat && (n <=? 13)%nat).

Fixpoint trim_start (s : string) : string :=
  match s with
  | String c s' => if is_blank c then trim_start s' else s
  | EmptyString => EmptyString
  end.

Fixpoint trim_end (s : string) : string :=
  match s with
  | String c s' =>
      match trim_end s' with
      | EmptyString => if is_blank c then EmptyString
                       else String c EmptyString
      | rest => String c rest
      end
  | EmptyString => EmptyString
  end.

(** The number a text denotes, printed: [`${+s}`].  Blank text is zero;
    a signed decimal integer, an unsigned hexadecimal, octal or binary
    integer and [Infinity] are read; any other text gives [NaN].  Numerals
    with a fraction or an exponent, and integers that a double does not
    hold exactly, denote numbers [VNum] does not carry and are outside
    this model. *)
Definition number_text (s : string) : string :=
  let print (n : option Z) : string :=
    match n with Some n => pretty n | None => "NaN" end in
  match trim_end (trim_start s) with
  | EmptyString => "0"
  | "Infinity" | "+Infinity" => "Infinity"
  | "-Infinity" => "-Infinity"
  | String "0" (String "x" t) | String "0" (String "X" t) =>
      print (numeral_in 16 t)
  | String "0" (String "o" t) | String "0" (String "O" t) =>
      print (numeral_in 8 t)
  | String "0" (String "b" t) | String "0" (String "B" t) =>
      print (numeral_in 2 t)
  | String "-" t => print (Z.opp <$> numeral_in 10 t)
  | String "+" t => print (numeral_in 10 t)
  | t => print (numeral_in 10 t)
  end.

(** Unary plus, rendered: [`${+v}`].  A sequence is read through its
    text. *)
Definition plus_str (v : value) : string :=
  match v with
  | VNum n => pretty n
  | VBool true => "1"
  | VBool false | VNull => "0"
  | VUndef | VObj _ => "NaN"
  | VStr s => number_text s
  | VArr l => number_text (to_str (VArr l))
  end.

Section Synthesis.

(** The imported table [dataTypes]. *)
Variable dataTypes : list type_group.

(** [_getTypeInfo(type)]: [None] is [undefined]. *)
Definition _getTypeInfo (type : string) : option type_info :=
  head (filter (fun t => String.eqb (ti_name t) (Str.toUpperCase type))
               (fold_left (fun acc group => (acc ++ tg_types group)%list)
                          dataTypes [])).

(** [typeInfo.length ? numLength || charLength || datePrecision : false];
    reading [length] of an unknown type throws. *)
Definition column_length (c : column) : throws value :=
  match _getTypeInfo (c_type c) with
  | None => inl TypeError
  | Some typeInfo =>
      inr (if truthy (ti_length typeInfo)
           then js_or (js_or (c_numLength c) (c_charLength c))
                      (c_datePrecision c)
           else VBool false)
  end.

Definition length_suffix (len : value) : string :=
  if truthy len then "(" +:+ to_str len +:+ ")" else EmptyString.

Definition indent : string := Str.nl +:+ "            ".

Definition add_options (o : options) (l : lists) : lists :=
  let l1 := match o_comment o with
            | Some v => push_alter ("COMMENT='" +:+ to_str v +:+ "'") l
            | None => l
            end in
  let l2 := match o_engine o with
            | Some v => push_alter ("ENGINE=" +:+ to_str v) l1
            | None => l1
            end in
  let l3 := match o_autoIncrement o with
            | Some v => push_alter ("AUTO_INCREMENT=" +:+ plus_str v) l2
            | None => l2
            end in
  match o_collation o with
  | Some v => push_alter ("COLLATE='" +:+ to_str v +:+ "'") l3
  | None => l3
  end.

Definition add_column_clause (addition : column) (len : value) : string :=
  "ADD COLUMN " +:+ c_name addition +:+ " "
  +:+ indent +:+ Str.toUpperCase (c_type addition) +:+ length_suffix len
      +:+ (if truthy (c_isArray addition) then "[]" else EmptyString)
  +:+ indent +:+ (if truthy (c_unsigned addition)
                  then "UNSIGNED" else EmptyString) +:+ " "
  +:+ indent +:+ (if truthy (c_zerofill addition)
                  then "ZEROFILL" else EmptyString)
  +:+ indent +:+ (if truthy (c_nullable addition)
                  then "NULL" else "NOT NULL")
  +:+ indent +:+ (if truthy (c_autoIncrement addition)
                  then "AUTO_INCREMENT" else EmptyString)
  +:+ indent +:+ (if truthy (c_default addition)
                  then "DEFAULT " +:+ to_str (c_default addition)
                  else EmptyString)
  +:+ indent +:+ (if truthy (c_comment addition)
                  then "COMMENT '" +:+ to_str (c_comment addition) +:+ "'"
                  else EmptyString)
  +:+ indent +:+ (if truthy (c_collation addition)
                  then "COLLATE " +:+ to_str (c_collation addition)
                  else EmptyString)
  +:+ indent +:+ (if truthy (c_onUpdate addition)
                  then "ON UPDATE " +:+ to_str (c_onUpdate addition)
                  else EmptyString).

Definition add_field (addition : column) (l : lists) : throws lists :=
  match column_length addition with
  | inl e => inl e
  | inr len => inr (push_alter (add_column_clause addition len) l)
  end.

Definition create_index (tbl : string) (name : string)
           (fields : list string) : string :=
  "CREATE INDEX " +:+ name +:+ " ON " +:+ tbl
  +:+ "(" +:+ Str.join "," fields +:+ ")".

(** The three-way branch shared by index additions and changes. *)
Definition define_index (tbl : string) (i : index) (l : lists) : lists :=
  let fields := Str.join "," (i_fields i) in
  if String.eqb (i_type i) "PRIMARY"
  then push_alter ("ADD PRIMARY KEY (" +:+ fields +:+ ")") l
  else if String.eqb (i_type i) "UNIQUE"
  then push_alter ("ADD CONSTRAINT " +:+ i_name i
                   +:+ " UNIQUE (" +:+ fields +:+ ")") l
  else push_index (create_index tbl (i_name i) (i_fields i)) l.

Definition add_index (tbl : string) (addition : index) (l : lists)
  : throws lists := inr (define_index tbl addition l).

Definition foreign_clause (f : foreign) : string :=
  "ADD CONSTRAINT " +:+ f_constraintName f
  +:+ " FOREIGN KEY (" +:+ f_field f +:+ ") REFERENCES "
  +:+ f_refTable f +:+ " (" +:+ f_refField f +:+ ") ON UPDATE "
  +:+ f_onUpdate f +:+ " ON DELETE " +:+ f_onDelete f.

Definition add_foreign (addition : foreign) (l : lists) : throws lists :=
  inr (push_alter (foreign_clause addition) l).

Definition is_serial (type : string) : bool :=
  existsb (String.eqb type) ["SERIAL"; "SMALLSERIAL"; "BIGSERIAL"].

Definition localType (type : string) : string :=
  if String.eqb type "SERIAL" then "integer"
  else if String.eqb type "SMALLSERIAL" then "smallint"
  else if String.eqb type "BIGSERIAL" then "bigint"
  else Str.toLowerCase type.

Definition quoted (s : string) : string := Str.dquote +:+ s +:+ Str.dquote.

Definition alter_type_clause (change : column) (len : value) : string :=
  "ALTER COLUMN " +:+ quoted (c_orgName change) +:+ " TYPE "
  +:+ localType (c_type change) +:+ length_suffix len
  +:+ (if truthy (c_isArray change) then "[]" else EmptyString)
  +:+ " USING " +:+ quoted (c_orgName change) +:+ "::"
  +:+ localType (c_type change).

Definition alter_null_clause (change : column) : string :=
  "ALTER COLUMN " +:+ quoted (c_orgName change) +:+ " "
  +:+ (if truthy (c_nullable change) then "DROP NOT NULL" else "SET NOT NULL").

Definition alter_default_clause (change : column) : string :=
  "ALTER COLUMN " +:+ quoted (c_orgName change) +:+ " "
  +:+ (if truthy (c_default change)
       then "SET DEFAULT " +:+ to_str (c_default change)
       else "DROP DEFAULT").

Definition sequenceName (tbl : string) (change : column) : string :=
  Str.replace " " "_" (tbl +:+ "_" +:+ c_name change +:+ "_seq").

Definition create_sequence (tbl : string) (change : column) : string :=
  "CREATE SEQUENCE IF NOT EXISTS " +:+ sequenceName tbl change
  +:+ " OWNED BY " +:+ quoted tbl +:+ "." +:+ quoted (c_orgName change).

Definition alter_nextval_clause (tbl : string) (change : column) : string :=
  "ALTER COLUMN " +:+ quoted (c_orgName change)
  +:+ " SET DEFAULT nextval('" +:+ sequenceName tbl change +:+ "')".

Definition rename_column (schema : value) (tbl : string) (change : column)
  : string :=
  "ALTER TABLE " +:+ quoted (to_str schema) +:+ "." +:+ quoted tbl
  +:+ " RENAME COLUMN " +:+ quoted (c_orgName change)
  +:+ " TO " +:+ quoted (c_name change).

Definition change_field (schema : value) (tbl : string) (change : column)
           (l : lists) : throws lists :=
  match column_length change with
  | inl e => inl e
  | inr len =>
      let l1 := push_alter (alter_type_clause change len) l in
      let l2 := push_alter (alter_null_clause change) l1 in
      let l3 := push_alter (alter_default_clause change) l2 in
      let l4 := if is_serial (c_type change)
                then push_alter (alter_nextval_clause tbl change)
                       (push_sequence (create_sequence tbl change) l3)
                else l3 in
      inr (if negb (String.eqb (c_orgName change) (c_name change))
           then push_rename (rename_column schema tbl change) l4
           else l4)
  end.

Definition change_index (tbl : string) (change : index) (l : lists)
  : throws lists :=
  let l1 := if String.eqb (i_oldType change) "PRIMARY"
            then push_alter "DROP PRIMARY KEY" l
            else if String.eqb (i_oldType change) "UNIQUE"
            then push_alter ("DROP CONSTRAINT " +:+ i_oldName change) l
            else push_index ("DROP INDEX " +:+ i_oldName change) l in
  inr (define_index tbl change l1).

Definition change_foreign (change : foreign) (l : lists) : throws lists :=
  inr (push_alter (foreign_clause change)
         (push_alter ("DROP CONSTRAINT " +:+ f_oldName change) l)).

Definition drop_field (deletion : column) (l : lists) : throws lists :=
  inr (push_alter ("DROP COLUMN " +:+ c_name deletion) l).

Definition drop_index (deletion : index) (l : lists) : throws lists :=
  inr (if existsb (String.eqb (i_type deletion)) ["PRIMARY"; "UNIQUE"]
       then push_alter ("DROP CONSTRAINT " +:+ i_name deletion) l
       else push_index ("DROP INDEX " +:+ i_name deletion) l).

Definition drop_foreign (deletion : foreign) (l : lists) : throws lists :=
  inr (push_alter ("DROP CONSTRAINT " +:+ f_constraintName deletion) l).

Definition bind {A B : Type} (x : throws A) (f : A -> throws B) : throws B :=
  match x with inl e => inl e | inr a => f a end.

(** The statement lists after all the [forEach] passes, in the order
    the passes run. *)
Definition collect (schema : value) (p : params) : throws lists :=
  let tbl := table p in
  bind (forEach add_field (additions (columns p)) (add_options (opts p) no_lists))
  (fun l => bind (forEach (add_index tbl) (additions (indexChanges p)) l)
  (fun l => bind (forEach add_foreign (additions (foreignChanges p)) l)
  (fun l => bind (forEach (change_field schema tbl) (changes (columns p)) l)
  (fun l => bind (forEach (change_index tbl) (changes (indexChanges p)) l)
  (fun l => bind (forEach change_foreign (changes (foreignChanges p)) l)
  (fun l => bind (forEach drop_field (deletions (columns p)) l)
  (fun l => bind (forEach drop_index (deletions (indexChanges p)) l)
  (fun l => forEach drop_foreign (deletions (foreignChanges p)) l)))))))).

Definition alter_head (schema : value) (tbl : string) : string :=
  "ALTER TABLE " +:+ quoted (to_str schema) +:+ "." +:+ quoted tbl +:+ " ".

(** The text assembled from the four lists. *)
Definition assemble (schema : value) (p : params) (l : lists) : string :=
  let sql0 := EmptyString in
  let sql1 := match alterColumns l with
              | [] => sql0
              | _ => sql0 +:+ alter_head schema (table p)
                     +:+ Str.join ", " (alterColumns l) +:+ "; "
              end in
  let sql2 := match renameColumns l with
              | [] => sql1
              | _ => sql1 +:+ Str.join ";" (renameColumns l) +:+ "; "
              end in
  let sql3 := match createSequences l with
              | [] => sql2
              | _ => Str.join ";" (createSequences l) +:+ "; " +:+ sql2
              end in
  let sql4 := match manageIndexes l with
              | [] => sql3
              | _ => Str.join ";" (manageIndexes l) +:+ "; " +:+ sql3
              end in
  if truthy (o_name (opts p))
  then sql4 +:+ "ALTER TABLE " +:+ quoted (to_str schema) +:+ "."
       +:+ quoted (table p) +:+ " RENAME TO "
       +:+ quoted (to_str (o_name (opts p))) +:+ "; "
  else sql4.

(** The SQL text [alterTable] hands to [raw]. *)
Definition alterTable_sql (schema : value) (p : params) : throws string :=
  bind (collect schema p) (fun l => inr (assemble schema p l)).

End Synthesis.

End Alter.

(** ** The client: state, driver and raw execution *)

Module Client.

Import Builder.

(** The live handle [this._connection]: a single [Client] or a [Pool],
    and whether [end()] was called on it. *)
Record handle := { pooled : bool; ended : bool }.

(** What the driver passes to the query callback as [res]. *)
Record pg_result := { res_rows : value; res_fields : list value }.

(** A statement of the syntax tree [pgsql-ast-parser] returns: only
    its [from] list is read. *)
Record ast := { ast_from : option (list obj) }.

(** The options of [raw], after the defaults are merged in. *)
Record args := { nest : bool; details : bool; split : bool }.

Definition default_args : args :=
  {| nest := false; details := false; split := true |}.

Section Backend.

(** [this._reducer] of the absent base class. *)
Variable _reducer : list value -> clause -> list value.

(** [this.types]: the driver's table of built-in type names, keyed by
    type identifier. *)
Variable types : obj.

(** The world outside the client: the database server and the clock
    [new Date()] reads. *)
Variable W : Type.
Variable now : W -> Z.

(** The driver: [client.connect()] (an error or success),
    [connection.end()] and [connection.query(..., callback)], whose
    callback receives an error or a result. *)
Variable drv_connect : W -> W * option value.
Variable drv_end : handle -> W -> W.
Variable drv_query : handle -> bool -> string -> W -> W * (value + pg_result).

(** [parse(query)] of [pgsql-ast-parser]: [None] when it throws. *)
Variable parse : string -> option (list ast).

Record client := {
  _schema : value;
  _connection : option handle;
  _poolSize : value;
  _query : query;
  world : W
}.

Definition set_schema (s : value) (c : client) : client :=
  {| _schema := s; _connection := _connection c; _poolSize := _poolSize c;
     _query := _query c; world := world c |}.

Definition set_connection (h : option handle) (c : client) : client :=
  {| _schema := _schema c; _connection := h; _poolSize := _poolSize c;
     _query := _query c; world := world c |}.

Definition set_query (q : query) (c : client) : client :=
  {| _schema := _schema c; _connection := _connection c;
     _poolSize := _poolSize c; _query := q; world := world c |}.

Definition set_world (w : W) (c : client) : client :=
  {| _schema := _schema c; _connection := _connection c;
     _poolSize := _poolSize c; _query := _query c; world := w |}.

(** An asynchronous method: a state transformer that yields the
    outcome of the returned promise. *)
Definition M (A : Type) : Type := client -> client * outcome A.

Definition ret {A : Type} (a : A) : M A := fun c => (c, Resolved a).

Definition bind {A B : Type} (m : M A) (k : A -> M B) : M B :=
  fun c => match m c with
           | (c', Resolved a) => k a c'
           | (c', Rejected e) => (c', Rejected e)
           | (c', Pending) => (c', Pending)
           end.

Notation "'let*' x ':=' m 'in' k" := (bind m (fun x => k))
  (at level 10, x name, m at level 100, k at level 200, only parsing).

Definition lift {A : Type} (x : throws A) : M A :=
  fun c => (c, match x with inl e => Rejected e | inr a => Resolved a end).

Definition this : M client := fun c => (c, Resolved c).

(** A call whose promise is not awaited: its effects happen, in the
    order a single connection serves its queue, and its settlement is
    dropped. *)
Definition detach {A : Type} (m : M A) : M unit :=
  fun c => (fst (m c), Resolved tt).

(** [try { await m } catch (err) { ... }] *)
Definition try_catch {A : Type} (m : M A) : M (throws A) :=
  fun c => match m c with
           | (c', Resolved a) => (c', Resolved (inr a))
           | (c', Rejected e) => (c', Resolved (inl e))
           | (c', Pending) => (c', Pending)
           end.

(** [await m] where the caller's own promise may be settled already:
    when [m] never settles the caller stays suspended there, and [stuck]
    gives what its promise then is. *)
Definition await_or {A B : Type} (m : M A) (stuck : M B) (k : A -> M B)
  : M B :=
  fun c => match m c with
           | (c', Resolved a) => k a c'
           | (c', Rejected e) => (c', Rejected e)
           | (c', Pending) => stuck c'
           end.

(** [connect()] *)
Definition connect : M unit :=
  fun c =>
    if negb (truthy (_poolSize c)) then
      match drv_connect (world c) with
      | (w, Some err) => (set_world w c, Rejected (DriverError err))
      | (w, None) =>
          (set_connection (Some {| pooled := false; ended := false |})
                          (set_world w c), Resolved tt)
      end
    else (set_connection (Some {| pooled := true; ended := false |}) c,
          Resolved tt).

(** [destroy()]: the handle is ended and stays in [_connection]. *)
Definition destroy : M unit :=
  fun c =>
    match _connection c with
    | None => (c, Rejected TypeError)
    | Some h =>
        (set_connection (Some {| pooled := pooled h; ended := true |})
                        (set_world (drv_end h (world c)) c), Resolved tt)
    end.

(** *** Helpers of the statement callback *)

(** [v.k] on a value known not to be [null] or [undefined]. *)
Definition get (k : string) (v : value) : value :=
  match v with VObj o => prop k o | _ => VUndef end.

(** [tablesInfo[id]] *)
Definition table_info (tablesInfo id : value) : throws value :=
  match tablesInfo with
  | VUndef | VNull => inl TypeError
  | VObj t => inr (prop (to_str id) t)
  | _ => inr VUndef
  end.

(** The reducer of [rows.map(row => row.reduce(...))] in nest mode,
    from cell [i] on. *)
Fixpoint nest_cells (tablesInfo : value) (fields : list value) (i : nat)
         (cells : list value) (acc : obj) : throws obj :=
  match cells with
  | [] => inr acc
  | curr :: rest =>
      let field := nth i fields VUndef in
      match member "tableID" field with
      | inl e => inl e
      | inr id =>
          match table_info tablesInfo id with
          | inl e => inl e
          | inr info =>
              let table := if truthy info then get "table" info
                           else VStr EmptyString in
              let key := (if truthy table then to_str table +:+ "."
                          else EmptyString) +:+ to_str (get "name" field) in
              nest_cells tablesInfo fields (S i) rest (<[key := curr]> acc)
          end
      end
  end.

Definition nest_row (tablesInfo : value) (fields : list value) (row : value)
  : throws value :=
  match row with
  | VArr cells =>
      match nest_cells tablesInfo fields 0 cells ∅ with
      | inl e => inl e
      | inr o => inr (VObj o)
      end
  | _ => inl TypeError
  end.

(** The origin the syntax tree gives a result column: schema, table,
    table alias and original table. *)
Definition origin (a : option ast) (this_schema : value)
  : throws (value * value * value * value) :=
  match a with
  | Some {| ast_from := Some (from0 :: _) |} =>
      inr (match from0 !! "schema" with
           | Some s => s
           | None => this_schema
           end, prop "name" from0, prop "as" from0, prop "name" from0)
  | Some {| ast_from := Some [] |} =>
      inl TypeError
  | _ => inr (this_schema, VNull, VNull, VNull)
  end.

(** The mapper of [fields.map(...)]: [None] is the [false] that
    [filter(Boolean)] drops. *)
Definition remap_field (nested : bool) (a : option ast) (tablesInfo : value)
           (this_schema : value) (field : value) : throws (option obj) :=
  if negb (truthy field) || is_array field then inr None
  else
    match origin a this_schema with
    | inl e => inl e
    | inr (schema0, table0, tableAlias, orgTable) =>
        match (if nested
               then match table_info tablesInfo (get "tableID" field) with
                    | inl e => inl e
                    | inr info =>
                        inr (if truthy info then get "schema" info
                             else this_schema,
                             if truthy info then get "table" info
                             else VNull)
                    end
               else inr (schema0, table0)) with
        | inl e => inl e
        | inr (schema, table) =>
            inr (Some
              (<["type" := js_or (prop (to_str (get "dataTypeID" field)) types)
                                 (get "format" field)]>
              (<["orgTable" := orgTable]>
              (<["tableAlias" := tableAlias]>
              (<["table" := table]>
              (<["schema" := schema]>
              (<["alias" := get "name" field]>
              (<["name" := get "name" field]> (own_props field)))))))))
        end
    end.

Fixpoint find_index {A : Type} (f : A -> bool) (l : list A) : option nat :=
  match l with
  | [] => None
  | x :: xs => if f x then Some 0%nat else S <$> find_index f xs
  end.

(** [paramsArr]: the (table, schema) pairs of the fields, each kept at
    its first occurrence. *)
Definition paramsArr (fields : list obj) : list (value * value) :=
  let arr := map (fun field => (prop "table" field, prop "schema" field))
                 fields in
  let same (val el : value * value) :=
    strict_eq (snd el) (snd val) && strict_eq (fst el) (fst val) in
  map snd
      (filter (fun iv => find_index (same (snd iv)) arr = Some (fst iv))
              (imap (fun i val => (i, val)) arr)).

(** The mapper of [remappedFields.map(...)] in the enrichment loop. *)
Definition merge_field (table schema : value) (columns indexes : list value)
           (field : obj) : obj :=
  let detailedField :=
    find (fun f => strict_eq (get "name" f) (prop "name" field)) columns in
  let fieldIndex :=
    find (fun i => strict_eq (get "column" i) (prop "name" field)) indexes in
  if strict_eq (prop "table" field) table
     && strict_eq (prop "schema" field) schema
  then
    let field1 :=
      match detailedField with
      | Some d =>
          if truthy d then
            let length :=
              js_or (js_or (js_or (get "numPrecision" d) (get "charLength" d))
                           (get "datePrecision" d)) VNull in
            <["length" := length]> (own_props d ∪ field)
          else field
      | None => field
      end in
    match fieldIndex with
    | Some i =>
        if truthy i then
          let key := if strict_eq (get "type" i) (VStr "PRIMARY") then "pri"
                     else if strict_eq (get "type" i) (VStr "UNIQUE") then "uni"
                     else "mul" in
          <["key" := VStr key]> field1
        else field1
    | None => field1
    end
  else field.

Definition table_by_id_row (acc : throws obj) (curr : value) : throws obj :=
  match acc with
  | inl e => inl e
  | inr o =>
      match member "tableid" curr with
      | inl e => inl e
      | inr id =>
          inr (<[to_str id :=
                 VObj (<["schema" := get "schemaname" curr]>
                      (<["table" := get "relname" curr]> ∅))]> o)
      end
  end.

Definition index_row (row : value) : throws value :=
  match member "constraint_name" row with
  | inl e => inl e
  | inr name =>
      inr (VObj (list_to_map
        [ ("name", name);
          ("column", get "column_name" row);
          ("indexType", VNull);
          ("type", get "constraint_type" row);
          ("cardinality", VNull);
          ("comment", VStr EmptyString);
          ("indexComment", VStr EmptyString) ]))
  end.

Definition key_usage_row (field : value) : throws value :=
  match member "table_schema" field with
  | inl e => inl e
  | inr schema =>
      inr (VObj (list_to_map
        [ ("schema", schema);
          ("table", get "table_name" field);
          ("field", get "column_name" field);
          ("position", get "ordinal_position" field);
          ("constraintPosition", get "position_in_unique_constraint" field);
          ("constraintName", get "constraint_name" field);
          ("refSchema", get "foreign_table_schema" field);
          ("refTable", get "foreign_table_name" field);
          ("refField", get "foreign_column_name" field);
          ("onUpdate", get "update_rule" field);
          ("onDelete", get "delete_rule" field) ]))
  end.

Definition table_indexes_sql (table : value) : string :=
  "WITH ndx_list AS (
         SELECT pg_index.indexrelid, pg_class.oid
         FROM pg_index, pg_class
         WHERE pg_class.relname = '"
  +:+ to_str table
  +:+ "' AND pg_class.oid = pg_index.indrelid), ndx_cols AS (
         SELECT pg_class.relname, UNNEST(i.indkey) AS col_ndx, CASE i.indisprimary WHEN TRUE THEN 'PRIMARY' ELSE CASE i.indisunique WHEN TRUE THEN 'UNIQUE' ELSE 'INDEX' END END AS CONSTRAINT_TYPE, pg_class.oid
         FROM pg_class
         JOIN pg_index i ON (pg_class.oid = i.indexrelid)
         JOIN ndx_list ON (pg_class.oid = ndx_list.indexrelid)
         WHERE pg_table_is_visible(pg_class.oid))
         SELECT ndx_cols.relname AS CONSTRAINT_NAME, ndx_cols.CONSTRAINT_TYPE, a.attname AS COLUMN_NAME
         FROM pg_attribute a
         JOIN ndx_cols ON (a.attnum = ndx_cols.col_ndx)
         JOIN ndx_list ON (ndx_list.oid = a.attrelid AND ndx_list.indexrelid = ndx_cols.oid)
      ".

Definition table_by_ids_sql (ids : value) : string :=
  "
         SELECT relid AS tableid, relname, schemaname FROM pg_statio_all_tables WHERE relid IN ("
  +:+ to_str ids
  +:+ ") 
         UNION
         SELECT pg_class.oid AS tableid,relname, nspname AS schemaname FROM pg_class JOIN pg_namespace ON pg_namespace.oid = pg_class.relnamespace WHERE pg_class.oid IN ("
  +:+ to_str ids
  +:+ ")
      ".

Definition key_usage_sql (schema table : value) : string :=
  "
         SELECT 
            tc.table_schema, 
            tc.constraint_name, 
            tc.table_name, 
            kcu.column_name, 
            kcu.position_in_unique_constraint, 
            kcu.ordinal_position, 
            ccu.table_schema AS foreign_table_schema,
            ccu.table_name AS foreign_table_name,
            ccu.column_name AS foreign_column_name,
            rc.update_rule,
            rc.delete_rule
         FROM information_schema.table_constraints AS tc 
         JOIN information_schema.key_column_usage AS kcu
            ON tc.constraint_name = kcu.constraint_name
            AND tc.table_schema = kcu.table_schema
         JOIN information_schema.constraint_column_usage AS ccu
            ON ccu.constraint_name = tc.constraint_name
            AND ccu.table_schema = tc.table_schema
         JOIN information_schema.referential_constraints AS rc 
            ON rc.constraint_name = kcu.constraint_name
         WHERE tc.constraint_type = 'FOREIGN KEY' AND tc.table_schema = '"
  +:+ to_str schema
  +:+ "'
         AND tc.table_name = '"
  +:+ to_str table
  +:+ "'
      ".

(** *** The methods [raw] calls back into

    They are stated over the function [inner] that stands for
    [this.raw] at their call sites, which all pass no options. *)

Section Methods.

Variable inner : string -> M value.

(** [use(schema)] *)
Definition use_with (schema : value) : M value :=
  fun c => inner ("SET search_path TO " +:+ to_str schema)
                 (set_schema schema c).

(** [getTableByIDs(ids)] *)
Definition getTableByIDs_with (ids : value) : M value :=
  if negb (truthy ids) then ret VUndef
  else
    let* result := inner (table_by_ids_sql ids) in
    match rows_of result with
    | VArr rows =>
        let* o := lift (fold_left table_by_id_row rows (inr ∅)) in
        ret (VObj o)
    | _ => lift (inl TypeError)
    end.

(** Modelled from the spec: [run()] of the absent base class renders
    the accumulated descriptor once, discards it and hands the text
    to the raw executor. *)
Definition run_with : M value :=
  fun c => inner (getSQL _reducer (_query c)) (set_query empty_query c).

(** The descriptor [getTableColumns] accumulates on [this._query]. *)
Definition columns_query (schema table : value) (q : query) : query :=
  orderBy [CObj [("ordinal_position", VStr "ASC")]]
    (where_ [CObj [("table_schema", VStr ("= '" +:+ to_str schema +:+ "'"));
                   ("table_name", VStr ("= '" +:+ to_str table +:+ "'"))]]
      (from (VStr "columns")
         (Builder.schema (VStr "information_schema")
            (select [CLit (VStr "*")] q)))).

(** [getTableColumns({ schema, table }, arrayRemap)] *)
Definition getTableColumns_with (schema table : value) (arrayRemap : bool)
  : M (list value) :=
  fun c =>
    (let* result := run_with in
     lift (array_map (remapColumn arrayRemap) (rows_of result)))
      (set_query (columns_query schema table (_query c)) c).

(** [getTableIndexes({ schema, table })] *)
Definition getTableIndexes_with (schema table : value) : M (list value) :=
  let* _ := (if negb (strict_eq schema (VStr "public"))
             then detach (use_with schema) else ret tt) in
  let* result := inner (table_indexes_sql table) in
  lift (array_map index_row (rows_of result)).

(** [getKeyUsage({ schema, table })] *)
Definition getKeyUsage_with (schema table : value) : M (list value) :=
  let* result := inner (key_usage_sql schema table) in
  lift (array_map key_usage_row (rows_of result)).

(** The callback suspended for good at an [await] of the loop below:
    its promise is as the first [reject(err)] left it, rejected with
    that error (the pair with [Some e], as for a loop that ran to its
    end), or it never settles. *)
Definition suspended (rej : option error) (fields : list obj)
           (keysArr : list value)
  : M (option error * list obj * list value) :=
  match rej with
  | Some e => ret (Some e, fields, keysArr)
  | None => fun c => (c, Pending)
  end.

(** The loop [for (const paramObj of paramsArr)] of the [details]
    branch.  [rej] is the error of the first [reject(err)], after
    which the loop goes on. *)
Fixpoint enrich (ps : list (value * value)) (fields : list obj)
         (keysArr : list value) (rej : option error)
  : M (option error * list obj * list value) :=
  match ps with
  | [] => ret (rej, fields, keysArr)
  | (table, schema) :: ps' =>
      if negb (truthy table) || negb (truthy schema)
      then enrich ps' fields keysArr rej
      else
        await_or
          (try_catch
             (let* columns := getTableColumns_with schema table false in
              let* indexes := getTableIndexes_with schema table in
              ret (map (merge_field table schema columns indexes) fields)))
          (suspended rej fields keysArr)
          (fun r1 =>
             let fields' := match r1 with inr fs => fs | inl _ => fields end in
             let rej1 := match rej, r1 with
                         | None, inl e => Some e
                         | _, _ => rej
                         end in
             await_or
               (try_catch (getKeyUsage_with schema table))
               (suspended rej1 fields' keysArr)
               (fun r2 =>
                  let keysArr' := match r2 with
                                  | inr response => (keysArr ++ response)%list
                                  | inl _ => keysArr
                                  end in
                  let rej2 := match rej1, r2 with
                              | None, inl e => Some e
                              | _, _ => rej1
                              end in
                  enrich ps' fields' keysArr' rej2))
  end.

(** The body of the callback given to [query], for a successful
    [res]: the error passed to [reject], if any, and the object
    passed to [resolve]. *)
Definition callback (a : args) (query : string) (duration : Z)
           (res : pg_result) : M (option error * obj) :=
  let tree := match parse query with
              | Some (x :: _) => Some x
              | _ => None
              end in
  let* shaped :=
    (if nest a then
       let* ids := lift (mapM (member "tableID") (res_fields res)) in
       let tablesID := VStr (to_str (VArr (unique ids))) in
       let* tablesInfo := getTableByIDs_with tablesID in
       let* rows := lift (array_map (nest_row tablesInfo (res_fields res))
                                    (res_rows res)) in
       ret (VArr rows, tablesInfo)
     else ret (res_rows res, VUndef)) in
  let* c := this in
  let* remapped :=
    lift (mapM (remap_field (nest a) tree (snd shaped) (_schema c))
               (res_fields res)) in
  let remappedFields := omap id remapped in
  let* enriched :=
    (if details a && negb (length remappedFields =? 0)%nat
     then enrich (paramsArr remappedFields) remappedFields [] None
     else ret (None, remappedFields, [])) in
  let queryResult := fst shaped in
  ret (fst (fst enriched),
       <["duration" := VNum duration]>
       (<["rows" := match queryResult with
                    | VArr l => if existsb is_array l then VArr []
                                else queryResult
                    | _ => VBool false
                    end]>
       (<["report" := if is_array queryResult then VBool false
                      else queryResult]>
       (<["fields" := VArr (VObj <$> snd (fst enriched))]>
       (<["keys" := VArr (snd enriched)]> ∅))))).

(** One turn of the loop over the statements: the promise built
    around [this._connection.query]. *)
Definition statement (a : args) (query : string) : M obj :=
  fun c =>
    let timeStart := now (world c) in
    match _connection c with
    | None =>
        (c, Rejected TypeError)
    | Some h =>
        match drv_query h (nest a) query (world c) with
        | (w, inl err) => (set_world w c, Rejected (DriverError err))
        | (w, inr res) =>
            let timeStop := now w in
            match callback a query (timeStop - timeStart) res
                           (set_world w c) with
            | (c', Resolved (None, result)) => (c', Resolved result)
            | (c', Resolved (Some e, _)) => (c', Rejected e)
            | (c', Rejected _) => (c', Pending)
            | (c', Pending) => (c', Pending)
            end
        end
    end.

(** [for (const query of queries)] *)
Fixpoint statements (a : args) (queries : list string)
         (resultsArr : list obj) : M (list obj) :=
  match queries with
  | [] => ret resultsArr
  | query :: rest =>
      if Str.is_empty query then statements a rest resultsArr
      else
        let* result := statement a query in
        statements a rest (resultsArr ++ [result])%list
  end.

(** [raw(sql, args)] *)
Definition raw_with (a : args) (sql : string) : M value :=
  let* c := this in
  let* _ := (if nest a && negb (strict_eq (_schema c) (VStr "public"))
             then detach (use_with (_schema c)) else ret tt) in
  let queries := if split a then Str.split ";" sql else [sql] in
  let* resultsArr := statements a queries [] in
  ret (match resultsArr with
       | [result] => VObj result
       | _ => VArr (VObj <$> resultsArr)
       end).

End Methods.

(** *** Tying the knot

    A call of [this.raw] from one of the methods above passes no
    options, so it never reaches the [nest] or [details] branch and
    calls [raw] no further. *)
Definition raw_plain : string -> M value :=
  raw_with (fun _ c => (c, Pending)) default_args.

Definition raw (a : args) (sql : string) : M value := raw_with raw_plain a sql.

Definition use : value -> M value := use_with (raw default_args).
Definition getTableByIDs : value -> M value :=
  getTableByIDs_with (raw default_args).
Definition getTableColumns : value -> value -> bool -> M (list value) :=
  getTableColumns_with (raw default_args).
Definition getTableIndexes : value -> value -> M (list value) :=
  getTableIndexes_with (raw default_args).
Definition getKeyUsage : value -> value -> M (list value) :=
  getKeyUsage_with (raw default_args).

(** [alterTable(params)] *)
Definition alterTable (dataTypes : list Alter.type_group) (p : Alter.params)
  : M value :=
  let* c := this in
  let* sql := lift (Alter.alterTable_sql dataTypes (_schema c) p) in
  raw default_args sql.

(** *** Statement builders and the methods around them *)

(** [raw(sql, { split: false })] *)
Definition unsplit_args : args :=
  {| nest := false; details := false; split := false |}.

(** [createSchema(params)], [alterSchema(params)], [dropSchema(params)] *)
Definition createSchema (name : value) : M value :=
  raw default_args ("CREATE SCHEMA " +:+ Str.dquote +:+ to_str name +:+ Str.dquote).

Definition alterSchema (name : value) : M value :=
  raw default_args ("ALTER SCHEMA " +:+ Str.dquote +:+ to_str name +:+ Str.dquote).

Definition dropSchema (database : value) : M value :=
  raw default_args ("DROP SCHEMA " +:+ Str.dquote +:+ to_str database +:+ Str.dquote).

(** [arr[0]] *)
Definition index0 (v : value) : throws value :=
  match v with
  | VUndef | VNull => inl TypeError
  | VArr l => inr (default VUndef (head l))
  | VObj o => inr (prop "0" o)
  | VStr (String c _) => inr (VStr (String c EmptyString))
  | _ => inr VUndef
  end.

Definition view_informations_sql (schema view : value) : string :=
  "SELECT " +:+ Str.dquote +:+ "definition" +:+ Str.dquote
  +:+ " FROM " +:+ Str.dquote +:+ "pg_views" +:+ Str.dquote
  +:+ " WHERE " +:+ Str.dquote +:+ "viewname" +:+ Str.dquote
  +:+ "='" +:+ to_str view +:+ "' AND "
  +:+ Str.dquote +:+ "schemaname" +:+ Str.dquote
  +:+ "='" +:+ to_str schema +:+ "'".

Definition view_row (view : value) (row : value) : throws value :=
  match member "definition" row with
  | inl e => inl e
  | inr definition =>
      inr (VObj (list_to_map
        [ ("algorithm", VStr EmptyString);
          ("definer", VStr EmptyString);
          ("security", VStr EmptyString);
          ("updateOption", VStr EmptyString);
          ("sql", definition);
          ("name", view) ]))
  end.

(** [getViewInformations({ schema, view })] *)
Definition getViewInformations (schema view : value) : M value :=
  let* results := raw default_args (view_informations_sql schema view) in
  let* views := lift (array_map (view_row view) (rows_of results)) in
  ret (default VUndef (head views)).

(** [dropView(params)] *)
Definition dropView (view : value) : M value :=
  let* c := this in
  raw default_args ("DROP VIEW " +:+ to_str (_schema c) +:+ "." +:+ to_str view).

(** The [view] object of [alterView] and [createView]. *)
Record view_params := { v_name : value; v_oldName : value; v_sql : value }.

Definition alterView_sql (schema : value) (view : view_params) : string :=
  let sql := "CREATE OR REPLACE VIEW " +:+ to_str schema +:+ "."
             +:+ to_str (v_oldName view) +:+ " AS " +:+ to_str (v_sql view) in
  if negb (strict_eq (v_name view) (v_oldName view))
  then sql +:+ "; ALTER VIEW " +:+ to_str schema +:+ "."
       +:+ to_str (v_oldName view) +:+ " RENAME TO " +:+ to_str (v_name view)
  else sql.

(** [alterView(params)] *)
Definition alterView (view : view_params) : M value :=
  let* c := this in
  raw default_args (alterView_sql (_schema c) view).

(** [createView(view)] *)
Definition createView (view : view_params) : M value :=
  let* c := this in
  raw default_args ("CREATE VIEW " +:+ to_str (_schema c) +:+ "."
                    +:+ to_str (v_name view) +:+ " AS " +:+ to_str (v_sql view)).

(** The [trigger] object of [createTrigger] and [alterTrigger]. *)
Record trigger_params := {
  t_definer : value;
  t_name : value;
  t_oldName : value;
  t_event1 : value;
  t_event2 : value;
  t_table : value;
  t_sql : value
}.

Definition createTrigger_sql (trigger : trigger_params) : string :=
  "CREATE "
  +:+ (if truthy (t_definer trigger)
       then "DEFINER=" +:+ to_str (t_definer trigger) +:+ " "
       else EmptyString)
  +:+ "TRIGGER `" +:+ to_str (t_name trigger) +:+ "` "
  +:+ to_str (t_event1 trigger) +:+ " " +:+ to_str (t_event2 trigger)
  +:+ " ON `" +:+ to_str (t_table trigger) +:+ "` FOR EACH ROW "
  +:+ to_str (t_sql trigger).

(** [createTrigger(trigger)] *)
Definition createTrigger (trigger : trigger_params) : M value :=
  raw unsplit_args (createTrigger_sql trigger).

Definition dropTrigger_sql (trigger : value) : string :=
  "DROP TRIGGER `" +:+ to_str trigger +:+ "`".

(** [dropTrigger(params)] *)
Definition dropTrigger (trigger : value) : M value :=
  raw default_args (dropTrigger_sql trigger).

(** [`Antares_${name}_tmp`] *)
Definition temp_name (name : value) : value :=
  VStr ("Antares_" +:+ to_str name +:+ "_tmp").

(** [Object.assign({}, trigger)] with the temporary name. *)
Definition tempTrigger (trigger : trigger_params) : trigger_params :=
  {| t_definer := t_definer trigger; t_name := temp_name (t_name trigger);
     t_oldName := t_oldName trigger; t_event1 := t_event1 trigger;
     t_event2 := t_event2 trigger; t_table := t_table trigger;
     t_sql := t_sql trigger |}.

(** [alterTrigger(params)]: an error caught is the rejection of the
    call; on success the call resolves to [undefined]. *)
Definition alterTrigger (trigger : trigger_params) : M value :=
  let* _ := createTrigger (tempTrigger trigger) in
  let* _ := dropTrigger (t_name (tempTrigger trigger)) in
  let* _ := dropTrigger (t_oldName trigger) in
  let* _ := createTrigger trigger in
  ret VUndef.

(** An entry of [routine.parameters] or [func.parameters]. *)
Record routine_param := {
  rp_context : value;
  rp_name : value;
  rp_type : value;
  rp_length : value
}.

(** The [routine] object of [createRoutine] and [alterRoutine];
    [r_parameters] is [None] when the property is not [in] it. *)
Record routine_params := {
  r_name : value;
  r_oldName : value;
  r_parameters : option (list routine_param);
  r_language : value;
  r_security : value;
  r_sql : value
}.

Definition routine_parameter (curr : routine_param) : string :=
  to_str (rp_context curr) +:+ " " +:+ to_str (rp_name curr) +:+ " "
  +:+ to_str (rp_type curr)
  +:+ (if truthy (rp_length curr)
       then "(" +:+ to_str (rp_length curr) +:+ ")" else EmptyString).

Definition indent9 : string := Str.nl +:+ "         ".

Definition createRoutine_sql (schema : value) (routine : routine_params)
  : string :=
  let parameters :=
    match r_parameters routine with
    | Some ps => Str.join "," (map routine_parameter ps)
    | None => EmptyString
    end in
  "CREATE PROCEDURE " +:+ to_str schema +:+ "." +:+ to_str (r_name routine)
  +:+ "(" +:+ parameters +:+ ")"
  +:+ indent9 +:+ "LANGUAGE " +:+ to_str (r_language routine)
  +:+ indent9 +:+ "SECURITY " +:+ to_str (r_security routine)
  +:+ indent9 +:+ "AS " +:+ to_str (r_sql routine).

(** [createRoutine(routine)] *)
Definition createRoutine (routine : routine_params) : M value :=
  let* c := this in
  let* _ := (if negb (strict_eq (_schema c) (VStr "public"))
             then detach (use (_schema c)) else ret tt) in
  let* c := this in
  raw unsplit_args (createRoutine_sql (_schema c) routine).

(** [dropRoutine(params)] *)
Definition dropRoutine (routine : value) : M value :=
  let* c := this in
  raw default_args ("DROP PROCEDURE " +:+ to_str (_schema c) +:+ "."
                    +:+ to_str routine).

Definition tempProcedure (routine : routine_params) : routine_params :=
  {| r_name := temp_name (r_name routine); r_oldName := r_oldName routine;
     r_parameters := r_parameters routine; r_language := r_language routine;
     r_security := r_security routine; r_sql := r_sql routine |}.

(** [alterRoutine(params)] *)
Definition alterRoutine (routine : routine_params) : M value :=
  let* _ := createRoutine (tempProcedure routine) in
  let* _ := dropRoutine (r_name (tempProcedure routine)) in
  let* _ := dropRoutine (r_oldName routine) in
  let* _ := createRoutine routine in
  ret VUndef.

(** The [func] object of [createFunction] and [alterFunction];
    [fn_parameters] is [None] when the property is missing. *)
Record function_params := {
  fn_definer : value;
  fn_name : value;
  fn_oldName : value;
  fn_parameters : option (list routine_param);
  fn_returns : value;
  fn_returnsLength : value;
  fn_language : value;
  fn_deterministic : value;
  fn_dataAccess : value;
  fn_security : value;
  fn_comment : value;
  fn_sql : value
}.

Definition function_parameter (curr : routine_param) : string :=
  "`" +:+ to_str (rp_name curr) +:+ "` " +:+ to_str (rp_type curr)
  +:+ (if truthy (rp_length curr)
       then "(" +:+ to_str (rp_length curr) +:+ ")" else EmptyString).

Definition createFunction_sql (func : function_params)
           (ps : list routine_param) : string :=
  "CREATE "
  +:+ (if truthy (fn_definer func)
       then "DEFINER=" +:+ to_str (fn_definer func) +:+ " "
       else EmptyString)
  +:+ "FUNCTION `" +:+ to_str (fn_name func) +:+ "`("
  +:+ Str.join "," (map function_parameter ps) +:+ ") RETURNS "
  +:+ to_str (fn_returns func)
  +:+ (if truthy (fn_returnsLength func)
       then "(" +:+ to_str (fn_returnsLength func) +:+ ")" else EmptyString)
  +:+ indent9 +:+ "LANGUAGE " +:+ to_str (fn_language func)
  +:+ indent9 +:+ (if truthy (fn_deterministic func)
                   then "DETERMINISTIC" else "NOT DETERMINISTIC")
  +:+ indent9 +:+ to_str (fn_dataAccess func)
  +:+ indent9 +:+ "SQL SECURITY " +:+ to_str (fn_security func)
  +:+ indent9 +:+ "COMMENT '" +:+ to_str (fn_comment func) +:+ "'"
  +:+ indent9 +:+ to_str (fn_sql func).

(** [createFunction(func)]: [func.parameters.reduce] throws when the
    property is missing. *)
Definition createFunction (func : function_params) : M value :=
  match fn_parameters func with
  | None => lift (inl TypeError)
  | Some ps => raw unsplit_args (createFunction_sql func ps)
  end.

(** [dropFunction(params)] *)
Definition dropFunction (func : value) : M value :=
  raw default_args ("DROP FUNCTION `" +:+ to_str func +:+ "`").

Definition tempFunction (func : function_params) : function_params :=
  {| fn_definer := fn_definer func; fn_name := temp_name (fn_name func);
     fn_oldName := fn_oldName func; fn_parameters := fn_parameters func;
     fn_returns := fn_returns func; fn_returnsLength := fn_returnsLength func;
     fn_language := fn_language func; fn_deterministic := fn_deterministic func;
     fn_dataAccess := fn_dataAccess func; fn_security := fn_security func;
     fn_comment := fn_comment func; fn_sql := fn_sql func |}.

(** [alterFunction(params)] *)
Definition alterFunction (func : function_params) : M value :=
  let* _ := createFunction (tempFunction func) in
  let* _ := dropFunction (fn_name (tempFunction func)) in
  let* _ := dropFunction (fn_oldName func) in
  let* _ := createFunction func in
  ret VUndef.

(** [getCollations()] *)
Definition getCollations : M value := ret (VArr []).

Definition variable_row (row : value) : throws value :=
  match member "name" row with
  | inl e => inl e
  | inr name =>
      inr (VObj (list_to_map [ ("name", name); ("value", get "setting" row) ]))
  end.

(** [getVariables()] *)
Definition getVariables : M (list value) :=
  let* results := raw default_args "SHOW ALL" in
  lift (array_map variable_row (rows_of results)).

Definition user_row (row : value) : throws value :=
  match member "username" row with
  | inl e => inl e
  | inr name =>
      inr (VObj (list_to_map
        [ ("name", name); ("host", get "host" row);
          ("password", get "passwd" row) ]))
  end.

(** [getUsers()] *)
Definition getUsers : M (list value) :=
  let* results := raw default_args "SELECT *  FROM pg_catalog.pg_user" in
  lift (array_map user_row (rows_of results)).

(** [s.split(sep)[i]] *)
Definition piece (sep : ascii) (i : nat) (s : string) : value :=
  match Str.split sep s !! i with
  | Some p => VStr p
  | None => VUndef
  end.

(** The object [getVersion] builds from the text of [version()]. *)
Definition version_infos (version : string) : value :=
  let infos0 := default EmptyString (head (Str.split "," version)) in
  VObj (list_to_map
    [ ("number", piece " " 1 infos0);
      ("name", piece " " 0 infos0);
      ("arch", piece "," 1 version);
      ("os", piece "," 2 version) ]).

(** [getVersion()] *)
Definition getVersion : M value :=
  let* results := raw default_args "SELECT version()" in
  let* row := lift (index0 (rows_of results)) in
  let* version := lift (member "version" row) in
  match version with
  | VStr v => ret (version_infos v)
  | _ => lift (inl TypeError)
  end.

Definition createTable_sql (schema name : value) : string :=
  "CREATE TABLE " +:+ to_str schema +:+ "." +:+ to_str name
  +:+ " (" +:+ to_str name +:+ "_id INTEGER NULL); ALTER TABLE "
  +:+ to_str schema +:+ "." +:+ to_str name
  +:+ " DROP COLUMN " +:+ to_str name +:+ "_id".

(** [createTable(params)] *)
Definition createTable (name : value) : M value :=
  let* c := this in
  raw default_args (createTable_sql (_schema c) name).

(** [truncateTable(params)] *)
Definition truncateTable (table : value) : M value :=
  let* c := this in
  raw default_args ("TRUNCATE TABLE " +:+ to_str (_schema c) +:+ "."
                    +:+ to_str table).

(** [dropTable(params)] *)
Definition dropTable (table : value) : M value :=
  let* c := this in
  raw default_args ("DROP TABLE " +:+ to_str (_schema c) +:+ "."
                    +:+ to_str table).

End Backend.

End Client.

(** ** A small concrete backend

    The world is the clock alone; every query takes five milliseconds and
    returns one row with one computed column, and the parser finds no
    [FROM] list. *)

Module Demo.

Import Client.

Definition W : Type := Z.
Definition now (w : W) : Z := w.
Definition drv_end (h : handle) (w : W) : W := w.

Definition computed_field : value :=
  VObj (list_to_map
    [ ("name", VStr "?column?"); ("tableID", VNum 0); ("columnID", VNum 0);
      ("dataTypeID", VNum 23); ("dataTypeSize", VNum 4);
      ("dataTypeModifier", VNum (-1)); ("format", VStr "text") ]).

Definition drv_query (h : handle) (arrayMode : bool) (text : string) (w : W)
  : W * (value + pg_result) :=
  ((w + 5)%Z,
   inr {| res_rows := VArr [VObj {[ "?column?" := VNum 1 ]}];
          res_fields := [computed_field] |}).

Definition parse (text : string) : option (list ast) :=
  Some [ {| ast_from := None |} ].

Definition types : obj := {[ "23" := VStr "INT4" ]}.

Definition connected : client W :=
  {| _schema := VStr "public";
     _connection := Some {| pooled := false; ended := false |};
     _poolSize := VNum 0;
     _query := Builder.empty_query;
     world := 0%Z |}.

(** A client on which [connect] was never called. *)
Definition unconnected : client W :=
  {| _schema := VNull;
     _connection := None;
     _poolSize := VNum 0;
     _query := Builder.empty_query;
     world := 0%Z |}.

Definition raw : args -> string -> M W value :=
  Client.raw Builder.literal_reducer types W now drv_query parse.

(** The data types table of the synthesiser, cut down to two entries. *)
Definition dataTypes : list Alter.type_group :=
  [ {| Alter.tg_types :=
         [ {| Alter.ti_name := "INTEGER"; Alter.ti_length := VBool false |};
           {| Alter.ti_name := "SERIAL"; Alter.ti_length := VBool false |} ] |} ].

Definition plain_column (name type : string) : Alter.column :=
  {| Alter.c_name := name; Alter.c_orgName := name; Alter.c_type := type;
     Alter.c_numLength := VNull; Alter.c_charLength := VNull;
     Alter.c_datePrecision := VNull; Alter.c_isArray := VBool false;
     Alter.c_unsigned := VBool false; Alter.c_zerofill := VBool false;
     Alter.c_nullable := VBool false; Alter.c_autoIncrement := VBool false;
     Alter.c_default := VNull; Alter.c_comment := VStr EmptyString;
     Alter.c_collation := VNull; Alter.c_onUpdate := VNull |}.

Definition nothing {A : Type} : Alter.changeset A :=
  {| Alter.additions := []; Alter.changes := []; Alter.deletions := [] |}.

Definition no_options : Alter.options :=
  {| Alter.o_comment := None; Alter.o_engine := None;
     Alter.o_autoIncrement := None; Alter.o_collation := None;
     Alter.o_name := VUndef |}.

(** One column and one plain index on it are added. *)
Definition add_column_and_index : Alter.params :=
  {| Alter.table := "t";
     Alter.columns :=
       {| Alter.additions := [plain_column "c" "integer"];
          Alter.changes := []; Alter.deletions := [] |};
     Alter.indexChanges :=
       {| Alter.additions :=
            [ {| Alter.i_name := "i"; Alter.i_oldName := EmptyString;
                 Alter.i_type := "INDEX"; Alter.i_oldType := EmptyString;
                 Alter.i_fields := ["c"] |} ];
          Alter.changes := []; Alter.deletions := [] |};
     Alter.foreignChanges := nothing;
     Alter.opts := no_options |}.

(** The column [id] is changed to [SERIAL]. *)
Definition change_to_serial : Alter.params :=
  {| Alter.table := "t";
     Alter.columns :=
       {| Alter.additions := [];
          Alter.changes := [plain_column "id" "SERIAL"];
          Alter.deletions := [] |};
     Alter.indexChanges := nothing;
     Alter.foreignChanges := nothing;
     Alter.opts := no_options |}.

(** The column [n] is changed to [INTEGER]. *)
Definition change_to_integer : Alter.params :=
  {| Alter.table := "t";
     Alter.columns :=
       {| Alter.additions := [];
          Alter.changes := [plain_column "n" "INTEGER"];
          Alter.deletions := [] |};
     Alter.indexChanges := nothing;
     Alter.foreignChanges := nothing;
     Alter.opts := no_options |}.

(** A backend that answers every query with two rows of
    [information_schema.columns], both array columns. *)
Definition column_rows : value :=
  VArr [ VObj (list_to_map [ ("column_name", VStr "tags");
                             ("data_type", VStr "ARRAY");
                             ("udt_name", VStr "_custom");
                             ("is_nullable", VStr "YES") ]);
         VObj (list_to_map [ ("column_name", VStr "ids");
                             ("data_type", VStr "ARRAY");
                             ("udt_name", VStr "_int4");
                             ("is_nullable", VStr "NO") ]) ].

Definition catalog_query (h : handle) (arrayMode : bool) (text : string) (w : W)
  : W * (value + pg_result) :=
  ((w + 5)%Z, inr {| res_rows := column_rows; res_fields := [] |}).

Definition getTableColumns : value -> value -> bool -> M W (list value) :=
  Client.getTableColumns Builder.literal_reducer types W now catalog_query parse.

(** A diff that asks for nothing. *)
Definition empty_diff : Alter.params :=
  {| Alter.table := "t"; Alter.columns := nothing;
     Alter.indexChanges := nothing; Alter.foreignChanges := nothing;
     Alter.opts := no_options |}.

Definition alterTable : Alter.params -> M W value :=
  Client.alterTable Builder.literal_reducer types W now drv_query parse
    dataTypes.

Definition with_details : args :=
  {| nest := false; details := true; split := true |}.

End Demo.

(** ** A recording backend

    A driver that accepts every statement and records its text: the
    world is the list of the texts it was sent, oldest first.  Every answer
    is an empty result. *)

Module Trace.

Import Client.

Definition W : Type := list string.
Definition now (w : W) : Z := Z.of_nat (length w).

Definition empty_result : pg_result :=
  {| res_rows := VArr []; res_fields := [] |}.

Definition drv_query (h : handle) (arrayMode : bool) (text : string) (w : W)
  : W * (value + pg_result) :=
  (w ++ [text], inr empty_result).

Definition parse (text : string) : option (list ast) := None.

Definition types : obj := ∅.

(** A client with a live handle and an empty record. *)
Definition connected (schema : string) : client W :=
  {| _schema := VStr schema;
     _connection := Some {| pooled := false; ended := false |};
     _poolSize := VNum 0;
     _query := Builder.empty_query;
     world := [] |}.

(** A driver that records the text and refuses it. *)
Definition refusing (h : handle) (arrayMode : bool) (text : string) (w : W)
  : W * (value + pg_result) :=
  (w ++ [text], inl (VStr "refused")).

(** A driver that refuses the texts that start with DROP. *)
Definition no_drop (h : handle) (arrayMode : bool) (text : string) (w : W)
  : W * (value + pg_result) :=
  (w ++ [text],
   if String.prefix "DROP" text then inl (VStr "refused")
   else inr empty_result).

(** A driver that answers every statement with one row of [version()]. *)
Definition version_answer (h : handle) (arrayMode : bool) (text : string)
           (w : W) : W * (value + pg_result) :=
  (w ++ [text],
   inr {| res_rows :=
            VArr [VObj {[ "version" :=
                            VStr "PostgreSQL 13.1 on x86_64, compiled by gcc, 64-bit" ]}];
          res_fields := [] |}).

(** A driver that answers every statement with one row of [pg_views]. *)
Definition view_answer (h : handle) (arrayMode : bool) (text : string)
           (w : W) : W * (value + pg_result) :=
  (w ++ [text],
   inr {| res_rows := VArr [VObj {[ "definition" := VStr "SELECT 1" ]}];
          res_fields := [] |}).

(** A driver that answers with one row of two columns, and a parser
    that finds the tables [a] (with the alias [x], kept under the key
    [alias]) and [b] in every statement. *)
Definition joined_answer (h : handle) (arrayMode : bool) (text : string)
           (w : W) : W * (value + pg_result) :=
  (w ++ [text],
   inr {| res_rows :=
            VArr [VObj (list_to_map [ ("id", VStr "1"); ("label", VStr "l") ])];
          res_fields :=
            [ VObj (list_to_map [ ("name", VStr "id"); ("format", VStr "text") ]);
              VObj (list_to_map [ ("name", VStr "label");
                                  ("format", VStr "text") ]) ] |}).

Definition first_table : obj :=
  list_to_map [ ("name", VStr "a"); ("alias", VStr "x") ].

(** A driver that answers with two catalogue rows for the same table
    identifier. *)
Definition table_rows : list value :=
  [ VObj (list_to_map [ ("tableid", VStr "7"); ("relname", VStr "t");
                        ("schemaname", VStr "first") ]);
    VObj (list_to_map [ ("tableid", VStr "7"); ("relname", VStr "t");
                        ("schemaname", VStr "second") ]) ].

Definition tables_answer (h : handle) (arrayMode : bool) (text : string)
           (w : W) : W * (value + pg_result) :=
  (w ++ [text], inr {| res_rows := VArr table_rows; res_fields := [] |}).

Definition joined_parse (text : string) : option (list ast) :=
  Some [ {| ast_from := Some [ first_table; {[ "name" := VStr "b" ]} ] |} ].

End Trace.

(** ** Further diffs and descriptors *)

Module Cases.

(** A column of a type the data types table does not list is added. *)
Definition add_unknown : Alter.params :=
  {| Alter.table := "t";
     Alter.columns :=
       {| Alter.additions := [Demo.plain_column "b" "BLOB"];
          Alter.changes := []; Alter.deletions := [] |};
     Alter.indexChanges := Demo.nothing;
     Alter.foreignChanges := Demo.nothing;
     Alter.opts := Demo.no_options |}.

Definition renamed_column (orgName name type : string) : Alter.column :=
  {| Alter.c_name := name; Alter.c_orgName := orgName; Alter.c_type := type;
     Alter.c_numLength := VNull; Alter.c_charLength := VNull;
     Alter.c_datePrecision := VNull; Alter.c_isArray := VBool false;
     Alter.c_unsigned := VBool false; Alter.c_zerofill := VBool false;
     Alter.c_nullable := VBool false; Alter.c_autoIncrement := VBool false;
     Alter.c_default := VNull; Alter.c_comment := VStr EmptyString;
     Alter.c_collation := VNull; Alter.c_onUpdate := VNull |}.

(** The column [id] becomes the SERIAL column [key], the column [n] is
    retyped, a unique index becomes a plain one, a plain index is added
    and another is dropped, and the table is renamed. *)
Definition rework : Alter.params :=
  {| Alter.table := "t";
     Alter.columns :=
       {| Alter.additions := [];
          Alter.changes := [ renamed_column "id" "key" "SERIAL";
                             Demo.plain_column "n" "INTEGER" ];
          Alter.deletions := [] |};
     Alter.indexChanges :=
       {| Alter.additions :=
            [ {| Alter.i_name := "by_n"; Alter.i_oldName := EmptyString;
                 Alter.i_type := "INDEX"; Alter.i_oldType := EmptyString;
                 Alter.i_fields := ["n"] |} ];
          Alter.changes :=
            [ {| Alter.i_name := "by_key"; Alter.i_oldName := "u_key";
                 Alter.i_type := "INDEX"; Alter.i_oldType := "UNIQUE";
                 Alter.i_fields := ["key"] |} ];
          Alter.deletions :=
            [ {| Alter.i_name := "old"; Alter.i_oldName := "old";
                 Alter.i_type := "INDEX"; Alter.i_oldType := "INDEX";
                 Alter.i_fields := ["n"] |} ] |};
     Alter.foreignChanges := Demo.nothing;
     Alter.opts :=
       {| Alter.o_comment := None; Alter.o_engine := None;
          Alter.o_autoIncrement := None; Alter.o_collation := None;
          Alter.o_name := VStr "t2" |} |}.

(** A descriptor that holds two rows to insert into [public.t]. *)
Definition insert_rows : Builder.query :=
  {| Builder.q_schema := VStr "public"; Builder.q_select := [];
     Builder.q_from := VStr "t"; Builder.q_where := [];
     Builder.q_groupBy := []; Builder.q_orderBy := []; Builder.q_limit := [];
     Builder.q_update := [];
     Builder.q_insert := [ [ ("a", VStr "1"); ("b", VStr "'x'") ];
                           [ ("a", VStr "2"); ("b", VStr "'y'") ] ];
     Builder.q_delete := false |}.

(** The small backend with a driver that refuses every statement on an
    ended handle. *)
Definition closing_query (h : Client.handle) (arrayMode : bool)
           (text : string) (w : Demo.W)
  : Demo.W * (value + Client.pg_result) :=
  if Client.ended h then (w, inl (VStr "closed"))
  else Demo.drv_query h arrayMode text w.

Definition a_trigger : Client.trigger_params :=
  {| Client.t_definer := VUndef; Client.t_name := VStr "audit";
     Client.t_oldName := VStr "log"; Client.t_event1 := VStr "AFTER";
     Client.t_event2 := VStr "INSERT"; Client.t_table := VStr "t";
     Client.t_sql := VStr "BEGIN a; b; END" |}.

Definition a_routine : Client.routine_params :=
  {| Client.r_name := VStr "tidy"; Client.r_oldName := VStr "clean";
     Client.r_parameters := None; Client.r_language := VStr "SQL";
     Client.r_security := VStr "DEFINER";
     Client.r_sql := VStr "$$ DELETE FROM t; $$" |}.

Definition a_function (parameters : option (list Client.routine_param))
  : Client.function_params :=
  {| Client.fn_definer := VUndef; Client.fn_name := VStr "twice";
     Client.fn_oldName := VStr "double"; Client.fn_parameters := parameters;
     Client.fn_returns := VStr "INT"; Client.fn_returnsLength := VUndef;
     Client.fn_language := VStr "SQL"; Client.fn_deterministic := VBool true;
     Client.fn_dataAccess := VStr "CONTAINS SQL";
     Client.fn_security := VStr "DEFINER"; Client.fn_comment := VStr EmptyString;
     Client.fn_sql := VStr "RETURN n * 2;" |}.

End Cases.

(** ** Vocabulary of the further statements *)

Module ExtraSpec.

Import Alter.

(** The character [c] occurs in [s]. *)
Fixpoint has_char (c : ascii) (s : string) : bool :=
  match s with
  | EmptyString => false
  | String x s' => Ascii.eqb x c || has_char c s'
  end.

(** A list of statements as [alterTable] splices it into the text:
    nothing for the empty list, else the statements joined by [;] and
    closed by [; ]. *)
Definition stmts (l : list string) : string :=
  match l with
  | [] => EmptyString
  | _ => Str.join ";" l +:+ "; "
  end.

(** The single [ALTER TABLE] statement for a clause list. *)
Definition alter_stmt (schema : value) (tbl : string) (clauses : list string)
  : string :=
  match clauses with
  | [] => EmptyString
  | _ => alter_head schema tbl +:+ Str.join ", " clauses +:+ "; "
  end.

(** The closing [RENAME TO] statement. *)
Definition rename_stmt (schema : value) (p : params) : string :=
  if truthy (o_name (opts p))
  then "ALTER TABLE " +:+ quoted (to_str schema) +:+ "."
       +:+ quoted (table p) +:+ " RENAME TO "
       +:+ quoted (to_str (o_name (opts p))) +:+ "; "
  else EmptyString.

(** An index type that is neither [PRIMARY] nor [UNIQUE]. *)
Definition plain (type : string) : bool :=
  negb (String.eqb type "PRIMARY") && negb (String.eqb type "UNIQUE").

(** The statements about plain indexes a diff asks for. *)
Definition index_statements (p : params) : list string :=
  map (fun i => create_index (table p) (i_name i) (i_fields i))
      (filter (fun i => plain (i_type i) = true) (additions (indexChanges p)))
  ++ flat_map (fun i =>
                 (if plain (i_oldType i)
                  then ["DROP INDEX " +:+ i_oldName i] else [])
                 ++ (if plain (i_type i)
                     then [create_index (table p) (i_name i) (i_fields i)]
                     else []))
              (changes (indexChanges p))
  ++ map (fun i => "DROP INDEX " +:+ i_name i)
         (filter (fun i => plain (i_type i) = true)
                 (deletions (indexChanges p))).

(** The lists a pass does not write to. *)
Definition same_sides (l l' : lists) : Prop :=
  createSequences l' = createSequences l /\ renameColumns l' = renameColumns l.

Definition same_indexes (l l' : lists) : Prop :=
  manageIndexes l' = manageIndexes l.

(** The type of a column is not in the data types table. *)
Definition unknown_type (dataTypes : list type_group) (c : column) : Prop :=
  _getTypeInfo dataTypes (c_type c) = None.

(** A diff that asks for nothing. *)
Definition empty_diff (p : params) : Prop :=
  columns p = {| additions := []; changes := []; deletions := [] |}
  /\ indexChanges p = {| additions := []; changes := []; deletions := [] |}
  /\ foreignChanges p = {| additions := []; changes := []; deletions := [] |}
  /\ opts p = {| o_comment := None; o_engine := None; o_autoIncrement := None;
                 o_collation := None; o_name := o_name (opts p) |}
  /\ truthy (o_name (opts p)) = false.

End ExtraSpec.

(** ** Vocabulary of the statements about [alterTable] *)

Module AlterSpec.

Import Alter.

(** A diff with additions only: columns (at least one), plain indexes
    and foreign keys are added; nothing is changed, dropped or renamed. *)
Definition additions_only (p : params) : Prop :=
  additions (columns p) <> []
  /\ changes (columns p) = [] /\ deletions (columns p) = []
  /\ Forall (fun i => i_type i <> "PRIMARY" /\ i_type i <> "UNIQUE")
            (additions (indexChanges p))
  /\ changes (indexChanges p) = [] /\ deletions (indexChanges p) = []
  /\ changes (foreignChanges p) = [] /\ deletions (foreignChanges p) = []
  /\ truthy (o_name (opts p)) = false.

(** The [ALTER TABLE] statement starts before the first [CREATE INDEX]
    statement of a text that has both. *)
Definition alter_before_index (sql : string) : bool :=
  match String.index 0 "ALTER TABLE" sql, String.index 0 "CREATE INDEX" sql with
  | Some i, Some j => (i <? j)%nat
  | _, _ => true
  end.

(** The sub-clauses [alterTable] emits for one changed column whose
    length was computed as [len]. *)
Definition change_clauses (tbl : string) (change : column) (len : value)
  : list string :=
  [ alter_type_clause change len;
    alter_null_clause change;
    alter_default_clause change ]
  ++ (if is_serial (c_type change)
      then [alter_nextval_clause tbl change] else []).

(** [clause] is no [ALTER COLUMN] sub-clause. *)
Definition not_alter_column (clause : string) : Prop :=
  String.prefix "ALTER COLUMN " clause = false.

(** [clause] is an [ALTER COLUMN] sub-clause for the column [name]. *)
Definition is_alter_column_of (name : string) (clause : string) : bool :=
  String.prefix ("ALTER COLUMN " +:+ quoted name +:+ " ") clause.

(** A pass that appends to [alterColumns] no [ALTER COLUMN] sub-clause. *)
Definition extends (l l' : lists) : Prop :=
  exists s, alterColumns l' = alterColumns l ++ s /\ Forall not_alter_column s.

Definition push_alters (ss : list string) (l : lists) : lists :=
  {| alterColumns := alterColumns l ++ ss; renameColumns := renameColumns l;
     createSequences := createSequences l; manageIndexes := manageIndexes l |}.

Definition push_indexes (ss : list string) (l : lists) : lists :=
  {| alterColumns := alterColumns l; renameColumns := renameColumns l;
     createSequences := createSequences l;
     manageIndexes := manageIndexes l ++ ss |}.

End AlterSpec.

(** ** Vocabulary of the statements about [raw] *)

Module RawSpec.

Import Client.

(** The statements [raw] runs: the non-empty pieces of the text. *)
Definition queries_of (a : args) (sql : string) : list string :=
  filter (fun query => negb (Str.is_empty query) = true)
         (if split a then Str.split ";" sql else [sql]).

(** The parser finds no [FROM] list in the statement (as for a computed
    expression), or fails on it. *)
Definition no_from (parse : string -> option (list ast)) (query : string)
  : Prop :=
  match parse query with
  | Some ({| ast_from := Some _ |} :: _) => False
  | _ => True
  end.

(** The schema or the table of a result field is not resolved. *)
Definition unresolved (field : obj) : Prop :=
  truthy (prop "table" field) = false \/ truthy (prop "schema" field) = false.

(** What [raw] returns for the list of statement results. *)
Definition returned (resultsArr : list obj) : value :=
  match resultsArr with
  | [result] => VObj result
  | _ => VArr (VObj <$> resultsArr)
  end.

(** The driver refuses every statement on a handle that was ended. *)
Definition refuses_ended {W : Type}
           (drv_query : handle -> bool -> string -> W -> W * (value + pg_result))
  : Prop :=
  forall h arrayMode text w,
    ended h = true -> exists err, snd (drv_query h arrayMode text w) = inl err.

(** The client has no handle, or one the driver refuses every statement
    on. *)
Definition unusable {W : Type}
           (drv_query : handle -> bool -> string -> W -> W * (value + pg_result))
           (c : client W) : Prop :=
  forall h, _connection W c = Some h ->
            forall arrayMode text w,
              exists err, snd (drv_query h arrayMode text w) = inl err.

(** The error a statement meets on such a client: the type error of the
    missing handle, or an error of the driver. *)
Definition failure {W : Type} (c : client W) (e : error) : Prop :=
  match _connection W c with
  | None => e = TypeError
  | Some _ => exists err, e = DriverError err
  end.

Definition fails {W A : Type} (c : client W) (o : outcome A) : Prop :=
  exists e, o = Rejected e /\ failure c e.

(** The promise is rejected with an error of the driver. *)
Definition driver_error {A : Type} (o : outcome A) : Prop :=
  exists err, o = Rejected (DriverError err).

(** An [M] computation leaves the component [f] of the client as it
    found it. *)
Definition keeps {W X A : Type} (f : client W -> X) (m : M W A) : Prop :=
  forall c, f (fst (m c)) = f c.

End RawSpec.

(** ** Vocabulary of the statements about what reaches the driver *)

Module SendSpec.

Import Client.

Section Sending.

Variable W : Type.
Variable drv_query : handle -> bool -> string -> W -> W * (value + pg_result).

(** The world after the driver was handed [text] on the handle [h],
    rows asked for as objects, whatever it answered. *)
Definition send (h : handle) (w : W) (text : string) : W :=
  fst (drv_query h false text w).

(** The world after the driver was handed the [texts], one after the
    other. *)
Definition sent (h : handle) (texts : list string) (w : W) : W :=
  fold_left (send h) texts w.

End Sending.

(** The parser finds in [query] a FROM list that starts with the
    item [from0]. *)
Definition from_first (parse : string -> option (list ast)) (query : string)
           (from0 : obj) : Prop :=
  exists more rest,
    parse query = Some ({| ast_from := Some (from0 :: more) |} :: rest).

(** The result field is attributed to the FROM item [from0]: its
    table is the item's [name], and its alias is what the item holds under
    the key [as], which is [undefined] for an item that keeps its alias
    under another key. *)
Definition attributed (from0 : obj) (field : obj) : Prop :=
  prop "table" field = prop "name" from0
  /\ prop "orgTable" field = prop "name" from0
  /\ prop "tableAlias" field = prop "as" from0
  /\ (from0 !! "as" = None -> prop "tableAlias" field = VUndef).

(** A statement result holds either rows or a report: [rows] is a
    sequence and [report] is [false], or [rows] is [false] and [report]
    is what the driver gave instead of rows. *)
Definition rows_or_report (result : obj) : Prop :=
  exists rows report,
    result !! "rows" = Some rows /\ result !! "report" = Some report
    /\ ((is_array rows = true /\ report = VBool false)
        \/ (rows = VBool false /\ is_array report = false)).

(** The entry [getTableByIDs] builds from a catalogue row, and the last
    row of the answer whose table identifier prints as [key]. *)
Definition table_entry (row : value) : value :=
  VObj (<["schema" := get "schemaname" row]>
       (<["table" := get "relname" row]> ∅)).

Definition last_row (key : string) (rows : list value) : option value :=
  last (filter (fun row => to_str (get "tableid" row) = key) rows).

(** The result of a statement shows what the driver gave as rows: a
    sequence is shown as [rows] (the empty sequence in its place when one of
    its elements is itself a sequence) beside the report [false]; anything
    else is shown as [report] beside the rows [false]. *)
Definition shaped (answer : value) (result : obj) : Prop :=
  match answer with
  | VArr l =>
      result !! "rows" = Some (if existsb is_array l then VArr [] else answer)
      /\ result !! "report" = Some (VBool false)
  | _ =>
      result !! "rows" = Some (VBool false)
      /\ result !! "report" = Some answer
  end.

(** A batch stops at a statement whose promise has the outcome [o]:
    the statement did not resolve, and the batch ends as it did. *)
Definition stopped {A B : Type} (o : outcome A) (o' : outcome B) : Prop :=
  match o with
  | Resolved _ => False
  | Rejected e => o' = Rejected e
  | Pending => o' = Pending
  end.

(** The statement [use] sends for a schema. *)
Definition search_path (schema : value) : string :=
  "SET search_path TO " +:+ to_str schema.

(** What [createRoutine] sends ahead of its statement. *)
Definition set_path (schema : value) : list string :=
  if strict_eq schema (VStr "public") then [] else [search_path schema].

(** The texts of [dropRoutine] and [dropFunction]. *)
Definition dropRoutine_sql (schema routine : value) : string :=
  "DROP PROCEDURE " +:+ to_str schema +:+ "." +:+ to_str routine.

Definition dropFunction_sql (func : value) : string :=
  "DROP FUNCTION `" +:+ to_str func +:+ "`".

End SendSpec.

(** ** Observing what the driver is handed *)

Module Recording.

Import Client.

Section Observed.

Variable W : Type.
Variable now : W -> Z.
Variable drv_query : handle -> bool -> string -> W -> W * (value + pg_result).

(** The world together with the record of the texts the driver was
    handed, oldest first. *)
Definition world_log : Type := (W * list string)%type.

Definition now_log (w : world_log) : Z := now (fst w).

(** The driver, observed: it acts and answers as before, and the text
    it was handed is put on record. *)
Definition recording (h : handle) (arrayMode : bool) (text : string)
           (w : world_log) : world_log * (value + pg_result) :=
  let '(w', answer) := drv_query h arrayMode text (fst w) in
  ((w', snd w ++ [text]), answer).

Definition record (c : client world_log) : list string :=
  snd (world world_log c).

(** Between the states [c] and [c'] the driver was handed texts that
    all satisfy [P], and the record before [c] is as it was. *)
Definition handed (P : string -> Prop) (c c' : client world_log) : Prop :=
  exists new, record c' = record c ++ new /\ Forall P new.

End Observed.

Section Relations.

Variable W : Type.
Variable drv_query : handle -> bool -> string -> W -> W * (value + pg_result).
Variable R : client W -> client W -> Prop.

(** Every run of [m] relates the state it starts in to the state it
    leaves. *)
Definition steps {A : Type} (m : M W A) : Prop :=
  forall c, R c (fst (m c)).

(** Handing [query] to the driver is a step of [R], on every handle and
    in both row modes. *)
Definition sendable (query : string) : Prop :=
  forall c h arrayMode,
    _connection W c = Some h ->
    R c (set_world W (fst (drv_query h arrayMode query (world W c))) c).

End Relations.

(** A text that is not empty and holds no semicolon. *)
Definition semicolon_free (query : string) : Prop :=
  query <> EmptyString /\ ExtraSpec.has_char ";" query = false.

(** A client on the small backend, observed, with nothing on record. *)
Definition observed : client (world_log Demo.W) :=
  {| _schema := VStr "public";
     _connection := Some {| pooled := false; ended := false |};
     _poolSize := VNum 0;
     _query := Builder.empty_query;
     world := (0%Z, []) |}.

End Recording.

(** * Properties *)

(** ** Strings *)

Lemma prefix_append (p s : string) : String.prefix p (p +:+ s) = true.
Proof.
  induction p as [|c p IH]; simpl.
  - by destruct s.
  - destruct (ascii_dec c c); [exact IH | congruence].
Qed.


(** ** The query renderer *)

Section BuilderFacts.

Import Builder.

Variable _reducer : list value -> clause -> list value.

Lemma limitRaw_no_select (q : query) :
  q_select q = [] -> limitRaw _reducer q = EmptyString.
Proof. intros H. unfold limitRaw. rewrite H. reflexivity. Qed.

Lemma limitRaw_no_limit (q : query) :
  q_limit q = [] -> limitRaw _reducer q = EmptyString.
Proof.
  intros H. unfold limitRaw. rewrite H. simpl.
  by rewrite andb_false_r.
Qed.

(** C5: a descriptor with an empty select list renders no LIMIT clause,
    whatever limit is configured: the text is the one rendered with the
    limit taken out.  Conversely a LIMIT clause is rendered only for a
    non-empty select list with a limit set. *)
Theorem getSQL_limit_needs_select (q : query) :
  (q_select q = [] ->
   limitRaw _reducer q = EmptyString
   /\ getSQL _reducer q = getSQL _reducer (limit [] q))
  /\ (limitRaw _reducer q <> EmptyString ->
      q_select q <> [] /\ q_limit q <> []).
Proof.
  split.
  - intros H. split; [by apply limitRaw_no_select|].
    unfold getSQL. rewrite (limitRaw_no_select q H).
    rewrite (limitRaw_no_limit (limit [] q) eq_refl).
    reflexivity.
  - intros H. split; intros E; apply H.
    + by apply limitRaw_no_select.
    + by apply limitRaw_no_limit.
Qed.

Hypothesis reducer_literal :
  forall (acc : list value) (s : string),
    _reducer acc (CLit (VStr s)) = (acc ++ [VStr s])%list.

(** C4: the descriptor with select list a, b; from target t; predicate
    id = 1; limit 10 renders to the expected statement, up to white space
    (the rendered text ends in one blank). *)
Theorem getSQL_select_from_where_limit :
  let q := {| q_schema := VStr EmptyString;
              q_select := [CLit (VStr "a"); CLit (VStr "b")];
              q_from := VStr "t";
              q_where := [CLit (VStr "id = 1")];
              q_groupBy := []; q_orderBy := [];
              q_limit := [VNum 10];
              q_update := []; q_insert := []; q_delete := false |} in
  getSQL _reducer q = "SELECT a, b FROM t WHERE id = 1 LIMIT 10 "
  /\ Str.normalize_ws (getSQL _reducer q)
     = "SELECT a, b FROM t WHERE id = 1 LIMIT 10".
Proof.
  intros q.
  assert (E : getSQL _reducer q = "SELECT a, b FROM t WHERE id = 1 LIMIT 10 ").
  { unfold getSQL, selectRaw, fromRaw, whereRaw, updateRaw, insertRaw,
      groupByRaw, orderByRaw, limitRaw, reduce. simpl.
    rewrite !reducer_literal. reflexivity. }
  rewrite E. split; reflexivity.
Qed.

End BuilderFacts.

Lemma getSQL_limit_needs_select_witness :
  let q := Builder.limit [VNum 10]
             {| Builder.q_schema := VStr EmptyString; Builder.q_select := [];
                Builder.q_from := VStr "t"; Builder.q_where := [];
                Builder.q_groupBy := []; Builder.q_orderBy := [];
                Builder.q_limit := [];
                Builder.q_update := [Builder.CLit (VStr "x = 1")];
                Builder.q_insert := []; Builder.q_delete := false |} in
  Builder.limitRaw Builder.literal_reducer q = EmptyString
  /\ Builder.getSQL Builder.literal_reducer q = "UPDATE t SET x = 1 ".
Proof.
  intros q.
  destruct (getSQL_limit_needs_select Builder.literal_reducer q) as [H _].
  destruct (H eq_refl) as [H1 H2].
  split; [exact H1|]. rewrite H2. reflexivity.
Defined.

(** The accumulators build that descriptor from the empty one. *)
Lemma builder_chain :
  Builder.limit [VNum 10]
    (Builder.where_ [Builder.CLit (VStr "id = 1")]
       (Builder.from (VStr "t")
          (Builder.select [Builder.CLit (VStr "a"); Builder.CLit (VStr "b")]
                          Builder.empty_query)))
  = {| Builder.q_schema := VStr EmptyString;
       Builder.q_select := [Builder.CLit (VStr "a"); Builder.CLit (VStr "b")];
       Builder.q_from := VStr "t";
       Builder.q_where := [Builder.CLit (VStr "id = 1")];
       Builder.q_groupBy := []; Builder.q_orderBy := [];
       Builder.q_limit := [VNum 10];
       Builder.q_update := []; Builder.q_insert := [];
       Builder.q_delete := false |}.
Proof. reflexivity. Qed.

Lemma getSQL_select_from_where_limit_witness :
  Str.normalize_ws
    (Builder.getSQL Builder.literal_reducer
       (Builder.limit [VNum 10]
          (Builder.where_ [Builder.CLit (VStr "id = 1")]
             (Builder.from (VStr "t")
                (Builder.select [Builder.CLit (VStr "a"); Builder.CLit (VStr "b")]
                                Builder.empty_query)))))
  = "SELECT a, b FROM t WHERE id = 1 LIMIT 10".
Proof.
  rewrite builder_chain.
  apply (getSQL_select_from_where_limit Builder.literal_reducer).
  intros acc s. reflexivity.
Defined.

(** ** Column introspection *)



(** ** DDL synthesis *)

Lemma append_assoc (a b c : string) : (a +:+ b) +:+ c = a +:+ b +:+ c.
Proof. induction a as [|x a IH]; simpl; [reflexivity | by rewrite IH]. Qed.

Section AlterFacts.

Import Alter AlterSpec.

Variable dataTypes : list type_group.

Lemma forEach_add_field (adds : list column) (lens : list value) (l : lists) :
  Forall2 (fun c len => column_length dataTypes c = inr len) adds lens ->
  forEach (add_field dataTypes) adds l
  = inr (push_alters (zip_with add_column_clause adds lens) l).
Proof.
  intros H. revert l.
  induction H as [|c len adds lens Hc _ IH]; intros l; simpl.
  - destruct l. unfold push_alters. simpl. by rewrite app_nil_r.
  - unfold add_field at 1. rewrite Hc. rewrite IH.
    unfold push_alters, push_alter. simpl. by rewrite <- app_assoc.
Qed.

Lemma define_plain_index (tbl : string) (i : index) (l : lists) :
  i_type i <> "PRIMARY" /\ i_type i <> "UNIQUE" ->
  define_index tbl i l = push_index (create_index tbl (i_name i) (i_fields i)) l.
Proof.
  intros [H1 H2]. unfold define_index.
  destruct (String.eqb_spec (i_type i) "PRIMARY"); [done|].
  by destruct (String.eqb_spec (i_type i) "UNIQUE").
Qed.

Lemma forEach_add_index (tbl : string) (idxs : list index) (l : lists) :
  Forall (fun i => i_type i <> "PRIMARY" /\ i_type i <> "UNIQUE") idxs ->
  forEach (add_index tbl) idxs l
  = inr (push_indexes
           (map (fun i => create_index tbl (i_name i) (i_fields i)) idxs) l).
Proof.
  intros H. revert l. induction H as [|i idxs Hi _ IH]; intros l; simpl.
  - destruct l. unfold push_indexes. simpl. by rewrite app_nil_r.
  - rewrite (define_plain_index _ _ _ Hi), IH.
    unfold push_indexes, push_index. simpl. by rewrite <- app_assoc.
Qed.

Lemma forEach_add_foreign (fks : list foreign) (l : lists) :
  forEach add_foreign fks l = inr (push_alters (map foreign_clause fks) l).
Proof.
  revert l. induction fks as [|f fks IH]; intros l; simpl.
  - destruct l. unfold push_alters. simpl. by rewrite app_nil_r.
  - rewrite IH. unfold push_alters, push_alter. simpl. by rewrite <- app_assoc.
Qed.

(** C1, as the code has it: for a diff with additions only (every added
    column of a known type), no CREATE SEQUENCE, RENAME or DROP statement
    is generated, and the text is the CREATE INDEX statements first,
    followed by the single ALTER TABLE clause list. *)
Theorem alterTable_additions_only (schema : value) (p : params)
  (lens : list value)
  (Hadd : additions_only p)
  (Hlen : Forall2 (fun c len => column_length dataTypes c = inr len)
                  (additions (columns p)) lens) :
  let indexes :=
    map (fun i => create_index (table p) (i_name i) (i_fields i))
        (additions (indexChanges p)) in
  let clauses :=
    alterColumns (add_options (opts p) no_lists)
    ++ zip_with add_column_clause (additions (columns p)) lens
    ++ map foreign_clause (additions (foreignChanges p)) in
  collect dataTypes schema p
  = inr {| alterColumns := clauses; renameColumns := [];
           createSequences := []; manageIndexes := indexes |}
  /\ alterTable_sql dataTypes schema p
     = inr ((match indexes with
             | [] => EmptyString
             | _ => Str.join ";" indexes +:+ "; "
             end)
            +:+ alter_head schema (table p)
            +:+ Str.join ", " clauses +:+ "; ")
  /\ Forall (fun s => String.prefix "CREATE INDEX " s = true) indexes
  /\ Forall (fun s => String.prefix "ADD " s = true)
            (zip_with add_column_clause (additions (columns p)) lens
             ++ map foreign_clause (additions (foreignChanges p))).
Proof.
  destruct Hadd as (Hne & Hc & Hd & Hidx & Hic & Hid & Hfc & Hfd & Hname).
  intros indexes clauses.
  assert (Hcollect :
            collect dataTypes schema p
            = inr {| alterColumns := clauses; renameColumns := [];
                     createSequences := []; manageIndexes := indexes |}).
  { unfold collect. rewrite Hc, Hd, Hic, Hid, Hfc, Hfd.
    rewrite (forEach_add_field _ _ _ Hlen). cbn [bind].
    rewrite (forEach_add_index _ _ _ Hidx). cbn [bind].
    rewrite forEach_add_foreign. cbn [bind forEach].
    unfold push_alters, push_indexes. cbn [alterColumns renameColumns
      createSequences manageIndexes].
    assert (Hopt : renameColumns (add_options (opts p) no_lists) = []
                   /\ createSequences (add_options (opts p) no_lists) = []
                   /\ manageIndexes (add_options (opts p) no_lists) = []).
    { unfold add_options.
      destruct (o_comment (opts p)), (o_engine (opts p)),
        (o_autoIncrement (opts p)), (o_collation (opts p)); by cbn. }
    destruct Hopt as (-> & -> & ->).
    subst clauses indexes. by rewrite <- app_assoc. }
  split; [exact Hcollect|]. split.
  - unfold alterTable_sql. rewrite Hcollect. cbn [bind]. f_equal.
    unfold assemble. cbn [alterColumns renameColumns createSequences
      manageIndexes]. rewrite Hname.
    assert (Hcl : clauses <> []).
    { subst clauses. destruct Hlen; [done|].
      intros E. apply app_eq_nil in E as [_ E]. by cbn in E. }
    destruct clauses as [|cl clauses']; [done|].
    destruct indexes; cbn [append]; [reflexivity|].
    by rewrite !append_assoc.
  - split.
    + subst indexes. apply Forall_map, Forall_forall. intros i _.
      unfold create_index. apply (prefix_append "CREATE INDEX ").
    + apply Forall_app. split.
      * clear. revert lens.
        induction (additions (columns p)) as [|c cs IH]; intros [|len lens];
          cbn; try constructor; [|apply IH].
        reflexivity.
      * apply Forall_map, Forall_forall. intros f _. reflexivity.
Qed.

Lemma extends_refl (l : lists) : extends l l.
Proof. exists []. split; [by rewrite app_nil_r|constructor]. Qed.

Lemma extends_trans (l1 l2 l3 : lists) :
  extends l1 l2 -> extends l2 l3 -> extends l1 l3.
Proof.
  intros (s1 & H1 & P1) (s2 & H2 & P2). exists (s1 ++ s2). split.
  - by rewrite H2, H1, app_assoc.
  - by apply Forall_app.
Qed.

Lemma extends_push_alter (s : string) (l : lists) :
  not_alter_column s -> extends l (push_alter s l).
Proof. intros H. exists [s]. split; [reflexivity|by constructor]. Qed.

Lemma extends_push_index (s : string) (l : lists) : extends l (push_index s l).
Proof. exists []. split; [cbn; by rewrite app_nil_r|constructor]. Qed.

Lemma extends_define_index (tbl : string) (i : index) (l : lists) :
  extends l (define_index tbl i l).
Proof.
  unfold define_index.
  repeat case (String.eqb _ _);
    auto using extends_push_index; by apply extends_push_alter.
Qed.

Lemma extends_add_options (o : options) : extends no_lists (add_options o no_lists).
Proof.
  unfold add_options.
  destruct (o_comment o), (o_engine o), (o_autoIncrement o), (o_collation o);
    repeat (eapply extends_trans; [|by apply extends_push_alter]);
    apply extends_refl.
Qed.

Lemma forEach_extends {A : Type} (f : A -> lists -> throws lists)
      (xs : list A) :
  (forall x l l', f x l = inr l' -> extends l l') ->
  forall l l', forEach f xs l = inr l' -> extends l l'.
Proof.
  intros Hf. induction xs as [|x xs IH]; intros l l'; simpl.
  - intros [= <-]. apply extends_refl.
  - destruct (f x l) as [e|l1] eqn:E; [discriminate|].
    intros H. eapply extends_trans; [by apply (Hf x)|by apply IH].
Qed.

Lemma add_field_extends (x : column) (l l' : lists) :
  add_field dataTypes x l = inr l' -> extends l l'.
Proof.
  unfold add_field. destruct (column_length dataTypes x); [discriminate|].
  intros [= <-]. by apply extends_push_alter.
Qed.

Lemma change_field_clauses (schema : value) (tbl : string) (change : column)
      (l l' : lists) :
  change_field dataTypes schema tbl change l = inr l' ->
  exists len,
    column_length dataTypes change = inr len
    /\ alterColumns l' = alterColumns l ++ change_clauses tbl change len.
Proof.
  unfold change_field, change_clauses.
  destruct (column_length dataTypes change) as [e|len]; [discriminate|].
  intros [= <-]. exists len. split; [reflexivity|].
  destruct (is_serial (c_type change)),
    (negb (String.eqb (c_orgName change) (c_name change)));
    cbn; by rewrite <- ?app_assoc.
Qed.

Lemma forEach_change_field (schema : value) (tbl : string)
      (chs : list column) (l l' : lists) :
  forEach (change_field dataTypes schema tbl) chs l = inr l' ->
  exists lens,
    Forall2 (fun c len => column_length dataTypes c = inr len) chs lens
    /\ alterColumns l'
       = alterColumns l ++ concat (zip_with (change_clauses tbl) chs lens).
Proof.
  revert l. induction chs as [|c chs IH]; intros l; simpl.
  - intros [= <-]. exists []. split; [constructor|]. by rewrite app_nil_r.
  - destruct (change_field dataTypes schema tbl c l) as [e|l1] eqn:E;
      [discriminate|].
    intros H. apply change_field_clauses in E as (len & Hlen & E).
    apply IH in H as (lens & Hlens & H).
    exists (len :: lens). split; [by constructor|].
    rewrite H, E. cbn [zip_with concat]. by rewrite <- !app_assoc.
Qed.

Lemma change_clauses_alter_column (tbl : string) (change : column)
      (len : value) :
  Forall (fun clause => is_alter_column_of (c_orgName change) clause = true)
         (change_clauses tbl change len).
Proof.
  unfold change_clauses, is_alter_column_of, alter_type_clause,
    alter_null_clause, alter_default_clause, alter_nextval_clause.
  set (head := "ALTER COLUMN " +:+ quoted (c_orgName change) +:+ " ").
  assert (H : forall rest,
             String.prefix head
               ("ALTER COLUMN " +:+ quoted (c_orgName change) +:+ " " +:+ rest)
             = true).
  { intros rest. subst head.
    rewrite <- (append_assoc (quoted _) " " rest).
    rewrite <- (append_assoc "ALTER COLUMN " _ rest).
    apply prefix_append. }
  destruct (is_serial (c_type change)); repeat constructor;
    first [ apply (H ("TYPE " +:+ _)) | apply H | apply (H ("SET DEFAULT nextval('" +:+ _)) ].
Qed.

(** C2, as the code has it: whenever [alterTable] renders a diff, each
    entry of [changes] contributes to the clause list, in the order of
    the entries, its type change (with a USING cast), its nullability and
    its default sub-clause, and, when its type is SERIAL, SMALLSERIAL or
    BIGSERIAL, a fourth sub-clause that sets the default to the
    sequence: three ALTER COLUMN sub-clauses for the column, or four.  The
    clause list has no other ALTER COLUMN sub-clause. *)
Theorem alterTable_change_clauses (schema : value) (p : params) (l : lists)
  (Hcollect : collect dataTypes schema p = inr l) :
  exists (pre post : list string) (lens : list value),
    Forall2 (fun c len => column_length dataTypes c = inr len)
            (changes (columns p)) lens
    /\ alterColumns l
       = pre ++ concat (zip_with (change_clauses (table p))
                                 (changes (columns p)) lens) ++ post
    /\ Forall not_alter_column pre
    /\ Forall not_alter_column post
    /\ forall change len,
         let clauses := change_clauses (table p) change len in
         Forall (fun clause =>
                   is_alter_column_of (c_orgName change) clause = true) clauses
         /\ firstn 3 clauses = [ alter_type_clause change len;
                                 alter_null_clause change;
                                 alter_default_clause change ]
         /\ length clauses = (if is_serial (c_type change) then 4 else 3)%nat.
Proof.
  unfold collect in Hcollect.
  repeat match type of Hcollect with
         | bind ?x _ = inr _ =>
             let E := fresh "E" in
             destruct x as [?|?l] eqn:E; [discriminate|]; cbn [bind] in Hcollect
         end.
  apply forEach_change_field in E2 as (lens & Hlens & E2).
  assert (Hpre : extends no_lists l2).
  { eapply extends_trans; [apply extends_add_options|].
    eapply extends_trans;
      [eapply forEach_extends; [apply add_field_extends|eassumption]|].
    eapply extends_trans; [eapply forEach_extends; [|eassumption]|];
      [intros x la lb [= <-]; apply extends_define_index|].
    eapply forEach_extends; [|eassumption].
    intros x la lb [= <-]. by apply extends_push_alter. }
  assert (Hpost : extends l3 l).
  { repeat (eapply extends_trans;
            [eapply forEach_extends; [|eassumption]|]);
      try apply extends_refl;
      unfold change_index, change_foreign, drop_field, drop_index,
        drop_foreign;
      intros x la lb;
      repeat case (existsb _ _); repeat case (String.eqb _ _);
      intros [= <-];
      repeat first
        [ apply extends_define_index
        | apply extends_push_index
        | by apply extends_push_alter
        | eapply extends_trans; [|apply extends_define_index]
        | eapply extends_trans; [|by apply extends_push_alter] ]. }
  destruct Hpre as (pre & Hpre & Ppre). destruct Hpost as (post & Hpost & Ppost).
  simpl in Hpre.
  exists pre, post, lens.
  split; [exact Hlens|]. split; [by rewrite Hpost, E2, Hpre, <- app_assoc|].
  split; [exact Ppre|]. split; [exact Ppost|].
  intros change len clauses. split; [apply change_clauses_alter_column|].
  subst clauses. unfold change_clauses.
  by destruct (is_serial (c_type change)).
Qed.

(** *** The whole statement batch *)

Import ExtraSpec.

Lemma append_nil_r (s : string) : s +:+ EmptyString = s.
Proof. induction s as [|c s IH]; simpl; [reflexivity|by rewrite IH]. Qed.

(** The text [alterTable] hands to [raw] is, in this order: the index
    statements (drops and creates alike), the CREATE SEQUENCE statements,
    the one ALTER TABLE statement, the column renames and the table
    rename. *)
Theorem alterTable_statement_order (schema : value) (p : params) (l : lists)
  (Hcollect : collect dataTypes schema p = inr l) :
  alterTable_sql dataTypes schema p
  = inr (stmts (manageIndexes l) +:+ stmts (createSequences l)
         +:+ alter_stmt schema (table p) (alterColumns l)
         +:+ stmts (renameColumns l) +:+ rename_stmt schema p).
Proof.
  unfold alterTable_sql. rewrite Hcollect. cbn [bind]. f_equal.
  unfold assemble, rename_stmt.
  set (alt := alter_stmt schema (table p) (alterColumns l)).
  assert (Halt : match alterColumns l with
                 | [] => EmptyString
                 | _ => EmptyString +:+ alter_head schema (table p)
                        +:+ Str.join ", " (alterColumns l) +:+ "; "
                 end = alt).
  { subst alt. unfold alter_stmt. by destruct (alterColumns l). }
  rewrite Halt. clearbody alt. clear Halt.
  set (ren := stmts (renameColumns l)).
  assert (Hren : match renameColumns l with
                 | [] => alt
                 | _ => alt +:+ Str.join ";" (renameColumns l) +:+ "; "
                 end = alt +:+ ren).
  { subst ren. unfold stmts.
    destruct (renameColumns l); [by rewrite append_nil_r|reflexivity]. }
  rewrite Hren. clearbody ren. clear Hren.
  set (body := alt +:+ ren).
  assert (Hassoc : alt +:+ ren +:+ (if truthy (o_name (opts p))
                                    then "ALTER TABLE " +:+ quoted (to_str schema)
                                         +:+ "." +:+ quoted (table p)
                                         +:+ " RENAME TO "
                                         +:+ quoted (to_str (o_name (opts p)))
                                         +:+ "; "
                                    else EmptyString)
                   = body +:+ (if truthy (o_name (opts p))
                               then "ALTER TABLE " +:+ quoted (to_str schema)
                                    +:+ "." +:+ quoted (table p)
                                    +:+ " RENAME TO "
                                    +:+ quoted (to_str (o_name (opts p)))
                                    +:+ "; "
                               else EmptyString)).
  { subst body. by rewrite append_assoc. }
  rewrite Hassoc. clearbody body. clear Hassoc.
  unfold stmts.
  destruct (createSequences l) as [|sq sqs], (manageIndexes l) as [|ix ixs],
    (truthy (o_name (opts p)));
    rewrite ?append_nil_r, ?append_assoc; reflexivity.
Qed.

(** *** What each pass leaves alone *)

Lemma forEach_rel {A : Type} (R : lists -> lists -> Prop)
      (f : A -> lists -> throws lists) (xs : list A) :
  (forall l, R l l) ->
  (forall l1 l2 l3, R l1 l2 -> R l2 l3 -> R l1 l3) ->
  (forall x l l', f x l = inr l' -> R l l') ->
  forall l l', forEach f xs l = inr l' -> R l l'.
Proof.
  intros Hrefl Htrans Hf. induction xs as [|x xs IH]; intros l l'; simpl.
  - intros [= <-]. apply Hrefl.
  - destruct (f x l) as [e|l1] eqn:E; [discriminate|].
    intros H. eapply Htrans; [by apply (Hf x)|by apply IH].
Qed.

Lemma same_sides_trans l1 l2 l3 :
  same_sides l1 l2 -> same_sides l2 l3 -> same_sides l1 l3.
Proof. intros [H1 H2] [H3 H4]. split; congruence. Qed.

Lemma define_index_sides tbl i l : same_sides l (define_index tbl i l).
Proof. unfold define_index. by repeat case (String.eqb _ _). Qed.

Lemma add_options_lists (o : options) :
  createSequences (add_options o no_lists) = []
  /\ renameColumns (add_options o no_lists) = []
  /\ manageIndexes (add_options o no_lists) = [].
Proof.
  unfold add_options.
  by destruct (o_comment o), (o_engine o), (o_autoIncrement o), (o_collation o).
Qed.

Lemma forEach_change_field_sides schema tbl chs :
  forall l l',
    forEach (change_field dataTypes schema tbl) chs l = inr l' ->
    createSequences l'
    = createSequences l
      ++ map (create_sequence tbl)
             (filter (fun c => is_serial (c_type c) = true) chs)
    /\ renameColumns l'
       = renameColumns l
         ++ map (rename_column schema tbl)
                (filter (fun c => String.eqb (c_orgName c) (c_name c) = false) chs)
    /\ manageIndexes l' = manageIndexes l.
Proof.
  induction chs as [|c chs IH]; intros l l'; simpl.
  - intros [= <-]. by rewrite !app_nil_r.
  - unfold change_field at 1.
    destruct (column_length dataTypes c) as [e|len]; [discriminate|].
    intros H. apply IH in H as (H1 & H2 & H3).
    rewrite H1, H2, H3, !filter_cons. clear.
    destruct (is_serial (c_type c)) eqn:Es,
      (String.eqb (c_orgName c) (c_name c)) eqn:En; simpl;
      repeat case_decide; try congruence; simpl;
      by rewrite <- ?app_assoc, ?app_nil_r.
Qed.

(** CREATE SEQUENCE statements are generated for the changes to a serial
    type and for nothing else, not even for an added serial column; a
    column rename is generated for each change that gives the column a
    new name. *)
Theorem alterTable_sequences_and_renames (schema : value) (p : params)
  (l : lists) (Hcollect : collect dataTypes schema p = inr l) :
  createSequences l
  = map (create_sequence (table p))
        (filter (fun c => is_serial (c_type c) = true) (changes (columns p)))
  /\ renameColumns l
     = map (rename_column schema (table p))
           (filter (fun c => String.eqb (c_orgName c) (c_name c) = false)
                   (changes (columns p))).
Proof.
  unfold collect in Hcollect.
  repeat match type of Hcollect with
         | bind ?x _ = inr _ =>
             let E := fresh "E" in
             destruct x as [?|?l] eqn:E; [discriminate|]; cbn [bind] in Hcollect
         end.
  destruct (add_options_lists (opts p)) as (Ho1 & Ho2 & _).
  assert (Hpre : same_sides (add_options (opts p) no_lists) l2).
  { eapply same_sides_trans;
      [eapply (forEach_rel same_sides); [done|apply same_sides_trans| |exact E]|].
    { intros x la lb. unfold add_field.
      destruct (column_length dataTypes x); [discriminate|]. by intros [= <-]. }
    eapply same_sides_trans;
      [eapply (forEach_rel same_sides); [done|apply same_sides_trans| |exact E0]|].
    { intros x la lb [= <-]. apply define_index_sides. }
    eapply (forEach_rel same_sides); [done|apply same_sides_trans| |exact E1].
    by intros x la lb [= <-]. }
  apply forEach_change_field_sides in E2 as (Hs & Hr & _).
  assert (Hpost : same_sides l3 l).
  { repeat (eapply same_sides_trans;
            [eapply (forEach_rel same_sides);
             [done|apply same_sides_trans| |eassumption]|]);
      try done;
      try (eapply (forEach_rel same_sides);
           [done|apply same_sides_trans| |eassumption]);
      unfold change_index, change_foreign, drop_field, drop_index,
        drop_foreign;
      intros x la lb;
      repeat case (existsb _ _); repeat case (String.eqb _ _);
      intros [= <-]; try done;
      (eapply same_sides_trans; [|apply define_index_sides]); done. }
  destruct Hpre as [Hp1 Hp2], Hpost as [Hq1 Hq2].
  rewrite Hq1, Hq2, Hs, Hr, Hp1, Hp2, Ho1, Ho2. by split.
Qed.

Lemma same_indexes_trans l1 l2 l3 :
  same_indexes l1 l2 -> same_indexes l2 l3 -> same_indexes l1 l3.
Proof. unfold same_indexes. congruence. Qed.

Lemma define_index_statements tbl i l :
  manageIndexes (define_index tbl i l)
  = manageIndexes l
    ++ (if plain (i_type i) then [create_index tbl (i_name i) (i_fields i)]
        else []).
Proof.
  unfold define_index, plain.
  destruct (String.eqb (i_type i) "PRIMARY"); simpl; [by rewrite app_nil_r|].
  destruct (String.eqb (i_type i) "UNIQUE"); simpl; [by rewrite app_nil_r|].
  reflexivity.
Qed.

Lemma forEach_add_index_statements tbl idxs :
  forall l l',
    forEach (add_index tbl) idxs l = inr l' ->
    manageIndexes l'
    = manageIndexes l
      ++ map (fun i => create_index tbl (i_name i) (i_fields i))
             (filter (fun i => plain (i_type i) = true) idxs).
Proof.
  induction idxs as [|i idxs IH]; intros l l'; simpl.
  - intros [= <-]. by rewrite app_nil_r.
  - intros H. apply IH in H. rewrite H, define_index_statements, filter_cons.
    destruct (plain (i_type i)); case_decide; try congruence; simpl;
      by rewrite <- ?app_assoc, ?app_nil_r.
Qed.

Lemma forEach_change_index_statements tbl idxs :
  forall l l',
    forEach (change_index tbl) idxs l = inr l' ->
    manageIndexes l'
    = manageIndexes l
      ++ flat_map (fun i =>
                     (if plain (i_oldType i)
                      then ["DROP INDEX " +:+ i_oldName i] else [])
                     ++ (if plain (i_type i)
                         then [create_index tbl (i_name i) (i_fields i)]
                         else []))
                  idxs.
Proof.
  induction idxs as [|i idxs IH]; intros l l'; cbn [forEach flat_map].
  - intros [= <-]. by rewrite app_nil_r.
  - unfold change_index at 1. intros H. apply IH in H.
    rewrite H, define_index_statements. clear H IH.
    match goal with
    | |- (manageIndexes ?l1 ++ _) ++ _ = _ =>
        assert (E : manageIndexes l1
                    = manageIndexes l
                      ++ (if plain (i_oldType i)
                          then ["DROP INDEX " +:+ i_oldName i] else []))
    end.
    { unfold plain.
      destruct (String.eqb (i_oldType i) "PRIMARY"); [by rewrite app_nil_r|].
      destruct (String.eqb (i_oldType i) "UNIQUE"); [by rewrite app_nil_r|].
      reflexivity. }
    rewrite E. by rewrite <- !app_assoc.
Qed.

Lemma forEach_drop_index_statements idxs :
  forall l l',
    forEach drop_index idxs l = inr l' ->
    manageIndexes l'
    = manageIndexes l
      ++ map (fun i => "DROP INDEX " +:+ i_name i)
             (filter (fun i => plain (i_type i) = true) idxs).
Proof.
  induction idxs as [|i idxs IH]; intros l l'; cbn [forEach].
  - intros [= <-]. by rewrite app_nil_r.
  - unfold drop_index at 1. intros H. apply IH in H.
    rewrite H, filter_cons. clear H IH.
    match goal with
    | |- manageIndexes ?l1 ++ _ = _ =>
        assert (E : manageIndexes l1
                    = manageIndexes l
                      ++ (if plain (i_type i)
                          then ["DROP INDEX " +:+ i_name i] else []))
    end.
    { unfold plain. cbn [existsb].
      destruct (String.eqb (i_type i) "PRIMARY"); [by rewrite app_nil_r|].
      destruct (String.eqb (i_type i) "UNIQUE"); [by rewrite app_nil_r|].
      reflexivity. }
    rewrite E.
    destruct (plain (i_type i)); case_decide; try congruence;
      cbn [map]; by rewrite <- ?app_assoc, ?app_nil_r.
Qed.

(** CREATE INDEX and DROP INDEX statements are generated for plain
    indexes only: an added, redefined or dropped PRIMARY or UNIQUE index
    gives none (it becomes a clause of the ALTER TABLE statement). *)
Theorem alterTable_index_statements (schema : value) (p : params) (l : lists)
  (Hcollect : collect dataTypes schema p = inr l) :
  manageIndexes l = index_statements p.
Proof.
  unfold collect in Hcollect.
  repeat match type of Hcollect with
         | bind ?x _ = inr _ =>
             let E := fresh "E" in
             destruct x as [?|?l] eqn:E; [discriminate|]; cbn [bind] in Hcollect
         end.
  destruct (add_options_lists (opts p)) as (_ & _ & Ho).
  assert (H0 : same_indexes (add_options (opts p) no_lists) l0).
  { eapply (forEach_rel same_indexes); [done|apply same_indexes_trans| |exact E].
    intros x la lb. unfold add_field.
    destruct (column_length dataTypes x); [discriminate|]. by intros [= <-]. }
  apply forEach_add_index_statements in E0.
  assert (H2 : same_indexes l1 l2).
  { eapply (forEach_rel same_indexes); [done|apply same_indexes_trans| |exact E1].
    by intros x la lb [= <-]. }
  apply forEach_change_field_sides in E2 as (_ & _ & H3).
  apply forEach_change_index_statements in E3.
  assert (H5 : same_indexes l4 l5).
  { eapply (forEach_rel same_indexes); [done|apply same_indexes_trans| |exact E4].
    by intros x la lb [= <-]. }
  assert (H6 : same_indexes l5 l6).
  { eapply (forEach_rel same_indexes); [done|apply same_indexes_trans| |exact E5].
    by intros x la lb [= <-]. }
  apply forEach_drop_index_statements in E6.
  assert (H8 : same_indexes l7 l).
  { eapply (forEach_rel same_indexes);
      [done|apply same_indexes_trans| |exact Hcollect].
    by intros x la lb [= <-]. }
  unfold same_indexes in *. unfold index_statements.
  rewrite H8, E6, H6, H5, E3, H3, H2, E0, H0, Ho. simpl.
  by rewrite <- !app_assoc.
Qed.

(** *** Unknown column types *)

Lemma column_length_error c e :
  column_length dataTypes c = inl e -> e = TypeError.
Proof.
  unfold column_length. destruct (_getTypeInfo dataTypes (c_type c));
    [discriminate|]. by intros [= <-].
Qed.

Lemma forEach_error {A : Type} (f : A -> lists -> throws lists) (xs : list A) :
  (forall x l e, f x l = inl e -> e = TypeError) ->
  forall l e, forEach f xs l = inl e -> e = TypeError.
Proof.
  intros Hf. induction xs as [|x xs IH]; intros l e; simpl; [discriminate|].
  destruct (f x l) as [e'|l1] eqn:E; [intros [= <-]; by eapply Hf|apply IH].
Qed.

Lemma forEach_unknown (f : column -> lists -> throws lists) (cs : list column) :
  (forall c l, f c l = match column_length dataTypes c with
                       | inl e => inl e
                       | inr len => f c l
                       end) ->
  Exists (unknown_type dataTypes) cs ->
  forall l l', forEach f cs l <> inr l'.
Proof.
  intros Hf Hex. induction Hex as [c cs Hc|c cs _ IH]; intros l l'; simpl.
  - rewrite Hf. unfold column_length. unfold unknown_type in Hc. by rewrite Hc.
  - destruct (f c l); [discriminate|apply IH].
Qed.

(** When the type of an added or changed column is not in the data types
    table, [alterTable] builds no text at all: it throws a [TypeError]. *)
Lemma collect_error (schema : value) (p : params) (e : error) :
  collect dataTypes schema p = inl e -> e = TypeError.
Proof.
  assert (Hadd : forall x l e', add_field dataTypes x l = inl e' -> e' = TypeError).
  { intros x l e'. unfold add_field.
    destruct (column_length dataTypes x) eqn:Hl; [|discriminate].
    intros [= <-]. by eapply column_length_error. }
  assert (Hch : forall x l e',
             change_field dataTypes schema (table p) x l = inl e' ->
             e' = TypeError).
  { intros x l e'. unfold change_field.
    destruct (column_length dataTypes x) eqn:Hl; [|discriminate].
    intros [= <-]. by eapply column_length_error. }
  unfold collect.
  destruct (forEach (add_field dataTypes) _ _) as [e0|l0] eqn:E0; cbn [bind];
    [intros [= <-]; eapply forEach_error; [exact Hadd|exact E0]|].
  destruct (forEach (add_index _) _ _) as [e1|l1] eqn:E1; cbn [bind];
    [intros [= <-]; eapply forEach_error; [|exact E1]; discriminate|].
  destruct (forEach add_foreign _ _) as [e2|l2] eqn:E2; cbn [bind];
    [intros [= <-]; eapply forEach_error; [|exact E2]; discriminate|].
  destruct (forEach (change_field _ _ _) _ _) as [e3|l3] eqn:E3; cbn [bind];
    [intros [= <-]; eapply forEach_error; [exact Hch|exact E3]|].
  destruct (forEach (change_index _) _ _) as [e4|l4] eqn:E4; cbn [bind];
    [intros [= <-]; eapply forEach_error; [|exact E4]; discriminate|].
  destruct (forEach change_foreign _ _) as [e5|l5] eqn:E5; cbn [bind];
    [intros [= <-]; eapply forEach_error; [|exact E5]; discriminate|].
  destruct (forEach drop_field _ _) as [e6|l6] eqn:E6; cbn [bind];
    [intros [= <-]; eapply forEach_error; [|exact E6]; discriminate|].
  destruct (forEach drop_index _ _) as [e7|l7] eqn:E7; cbn [bind];
    [intros [= <-]; eapply forEach_error; [|exact E7]; discriminate|].
  intros E8. eapply forEach_error; [|exact E8]. discriminate.
Qed.

(** When the type of an added or changed column is not in the data types
    table, [alterTable] builds no text at all: it throws a [TypeError]. *)
Theorem alterTable_unknown_type (schema : value) (p : params)
  (Hunknown : Exists (unknown_type dataTypes)
                     (additions (columns p) ++ changes (columns p))) :
  alterTable_sql dataTypes schema p = inl TypeError.
Proof.
  unfold alterTable_sql.
  destruct (collect dataTypes schema p) as [e|l] eqn:Hcollect; cbn [bind].
  - f_equal. by eapply collect_error.
  - exfalso. revert Hcollect. unfold collect.
    apply Exists_app in Hunknown as [Hu|Hu].
    + destruct (forEach (add_field dataTypes) _ _) as [e|l0] eqn:E;
        [discriminate|].
      exfalso. revert E. apply forEach_unknown; [|exact Hu].
      intros c la. unfold add_field. by destruct (column_length dataTypes c).
    + repeat match goal with
             | |- bind ?x _ = inr _ -> _ =>
                 let E := fresh "E" in
                 destruct x as [?e|?l] eqn:E; cbn [bind]; [discriminate|]
             end.
      exfalso. revert E2. apply forEach_unknown; [|exact Hu].
      intros c la. unfold change_field. by destruct (column_length dataTypes c).
Qed.

End AlterFacts.

(** ** The query renderer, continued *)

Section RenderFacts.

Import Builder.

Variable _reducer : list value -> clause -> list value.

(** A descriptor that holds insert rows and a target, and nothing to
    select, update, filter, group or order, renders to an INSERT INTO
    statement.  The column list is taken from the first row alone, the
    values of every row are spliced in as they are, and a configured limit
    is ignored. *)
Theorem getSQL_insert (q : query) (first : list (string * value))
  (more : list (list (string * value)))
  (Hselect : q_select q = []) (Hupdate : q_update q = [])
  (Hwhere : q_where q = []) (Hgroup : q_groupBy q = [])
  (Horder : q_orderBy q = []) (Hdelete : q_delete q = false)
  (Hinsert : q_insert q = first :: more)
  (Hfrom : truthy (q_from q) = true) :
  getSQL _reducer q
  = "INSERT INTO "
    +:+ (if truthy (q_schema q) then to_str (q_schema q) +:+ "." else EmptyString)
    +:+ to_str (q_from q)
    +:+ " (" +:+ Str.join ", " (map (fun kv => Str.dquote +:+ fst kv +:+ Str.dquote)
                                    first)
    +:+ ") VALUES "
    +:+ Str.join ", " (map (fun el => "(" +:+ join_values ", " (map snd el) +:+ ")")
                           (first :: more))
    +:+ " ".
Proof.
  unfold getSQL, selectRaw, fromRaw, whereRaw, updateRaw, insertRaw,
    groupByRaw, orderByRaw, limitRaw, reduce.
  rewrite Hselect, Hupdate, Hwhere, Hgroup, Horder, Hdelete, Hinsert, Hfrom.
  cbn -[Str.join join_values append].
  rewrite !append_assoc.
  change (EmptyString +:+ ?s) with s.
  rewrite ?append_nil_r.
  change ("INSERT " +:+ "INTO" +:+ ?s) with ("INSERT INTO" +:+ s).
  change ("INSERT INTO" +:+ " " +:+ ?s) with ("INSERT INTO " +:+ s).
  rewrite <- !append_assoc. rewrite !append_assoc.
  reflexivity.
Qed.

End RenderFacts.

Lemma alterTable_additions_only_witness :
  Alter.alterTable_sql Demo.dataTypes (VStr "public") Demo.add_column_and_index
  = inr ("CREATE INDEX i ON t(c); "
         +:+ Alter.alter_head (VStr "public") "t"
         +:+ Alter.add_column_clause (Demo.plain_column "c" "integer") (VBool false)
         +:+ "; ").
Proof.
  assert (Hadd : AlterSpec.additions_only Demo.add_column_and_index).
  { unfold AlterSpec.additions_only. simpl.
    repeat split; try done.
    repeat constructor; discriminate. }
  assert (Hlen : Forall2 (fun c len => Alter.column_length Demo.dataTypes c = inr len)
                         (Alter.additions (Alter.columns Demo.add_column_and_index))
                         [VBool false]).
  { repeat constructor. }
  destruct (alterTable_additions_only Demo.dataTypes (VStr "public")
              Demo.add_column_and_index [VBool false] Hadd Hlen)
    as (_ & H & _).
  rewrite H. reflexivity.
Defined.

(** C1 as stated fails: with one column and one plain index added, the
    CREATE INDEX statement comes first and the ALTER TABLE statement
    second. *)
Lemma alterTable_additions_order_counterexample :
  AlterSpec.additions_only Demo.add_column_and_index
  /\ exists sql,
      Alter.alterTable_sql Demo.dataTypes (VStr "public")
                           Demo.add_column_and_index = inr sql
      /\ String.index 0 "CREATE INDEX" sql = Some 0%nat
      /\ String.index 0 "ALTER TABLE" sql = Some 24%nat
      /\ AlterSpec.alter_before_index sql = false.
Proof.
  split.
  - unfold AlterSpec.additions_only. simpl.
    repeat split; try done.
    repeat constructor; discriminate.
  - eexists. split; [vm_compute; reflexivity|].
    repeat split; vm_compute; reflexivity.
Qed.

Lemma alterTable_change_clauses_witness :
  exists l pre post,
    Alter.collect Demo.dataTypes (VStr "public") Demo.change_to_integer = inr l
    /\ Alter.alterColumns l
       = pre ++ AlterSpec.change_clauses "t" (Demo.plain_column "n" "INTEGER")
                                         (VBool false) ++ post.
Proof.
  assert (H : exists l, Alter.collect Demo.dataTypes (VStr "public")
                                      Demo.change_to_integer = inr l).
  { eexists. vm_compute. reflexivity. }
  destruct H as [l H]. exists l.
  destruct (alterTable_change_clauses Demo.dataTypes (VStr "public")
              Demo.change_to_integer l H)
    as (pre & post & lens & Hl & E & _).
  exists pre, post. split; [exact H|].
  rewrite E. cbn in Hl. inversion Hl as [|? len ? lens' Hlen Hnil]; subst.
  inversion Hnil; subst. cbn in Hlen. injection Hlen as <-.
  cbn [zip_with concat Demo.change_to_integer Alter.changes Alter.columns
       Alter.table]. by rewrite app_nil_r.
Defined.

(** C2 as stated fails: a change to SERIAL yields four ALTER COLUMN
    sub-clauses for the column. *)
Lemma alterTable_serial_change_counterexample :
  exists l,
    Alter.collect Demo.dataTypes (VStr "public") Demo.change_to_serial = inr l
    /\ length (filter (fun clause =>
                         AlterSpec.is_alter_column_of "id" clause = true)
                      (Alter.alterColumns l)) = 4%nat.
Proof. eexists. split; vm_compute; reflexivity. Qed.

(** ** The raw executor *)

Section ClientFacts.

Import Client RawSpec.

Variable _reducer : list value -> Builder.clause -> list value.
Variable types : obj.
Variable W : Type.
Variable now : W -> Z.
Variable drv_end : handle -> W -> W.
Variable drv_query : handle -> bool -> string -> W -> W * (value + pg_result).
Variable parse : string -> option (list ast).

Local Abbreviation M := (Client.M W).
Local Abbreviation client := (Client.client W).
Local Abbreviation callback := (Client.callback _reducer types W parse).
Local Abbreviation statement := (Client.statement _reducer types W now drv_query parse).
Local Abbreviation statements := (Client.statements _reducer types W now drv_query parse).
Local Abbreviation raw_with := (Client.raw_with _reducer types W now drv_query parse).
Local Abbreviation raw_plain := (Client.raw_plain _reducer types W now drv_query parse).
Local Abbreviation raw := (Client.raw _reducer types W now drv_query parse).
Local Abbreviation enrich := (Client.enrich _reducer W).
Local Abbreviation getTableIndexes :=
  (Client.getTableIndexes _reducer types W now drv_query parse).

(** *** The monad *)

Lemma bind_resolved {A B : Type} (m : M A) (k : A -> M B) c c' b :
  bind W m k c = (c', Resolved b) ->
  exists c1 a, m c = (c1, Resolved a) /\ k a c1 = (c', Resolved b).
Proof.
  unfold bind. destruct (m c) as [c1 [a|e|]]; try discriminate.
  intros H. by exists c1, a.
Qed.

Lemma keeps_ret {X A : Type} (f : client -> X) (a : A) : keeps f (ret W a).
Proof. by intros c. Qed.

Lemma keeps_lift {X A : Type} (f : client -> X) (x : throws A) :
  keeps f (lift W x).
Proof. by intros c. Qed.

Lemma keeps_this {X : Type} (f : client -> X) : keeps f (this W).
Proof. by intros c. Qed.

Lemma keeps_bind {X A B : Type} (f : client -> X) (m : M A) (k : A -> M B) :
  keeps f m -> (forall a, keeps f (k a)) -> keeps f (bind W m k).
Proof.
  intros Hm Hk c. unfold bind. specialize (Hm c).
  destruct (m c) as [c1 [a|e|]]; simpl in *; try done.
  by rewrite Hk.
Qed.

Lemma keeps_try_catch {X A : Type} (f : client -> X) (m : M A) :
  keeps f m -> keeps f (try_catch W m).
Proof.
  intros Hm c. unfold try_catch. specialize (Hm c).
  by destruct (m c) as [c1 [a|e|]].
Qed.

Lemma keeps_await_or {X A B : Type} (f : client -> X) (m : M A)
      (stuck : M B) (k : A -> M B) :
  keeps f m -> keeps f stuck -> (forall a, keeps f (k a)) ->
  keeps f (await_or W m stuck k).
Proof.
  intros Hm Hs Hk c. unfold await_or. specialize (Hm c).
  destruct (m c) as [c1 [a|e|]]; simpl in *; [|done|].
  - by rewrite Hk.
  - by rewrite Hs.
Qed.

Lemma keeps_suspended {X : Type} (f : client -> X) rej fields keysArr :
  keeps f (suspended W rej fields keysArr).
Proof. by destruct rej. Qed.

Lemma keeps_detach {X A : Type} (f : client -> X) (m : M A) :
  keeps f m -> keeps f (detach W m).
Proof. intros Hm c. apply Hm. Qed.

Lemma keeps_if {X A : Type} (f : client -> X) (b : bool) (m1 m2 : M A) :
  keeps f m1 -> keeps f m2 -> keeps f (if b then m1 else m2).
Proof. by destruct b. Qed.

(** *** What the helper methods leave alone *)

Section Keeps.

Context {X : Type} (f : client -> X).
Hypothesis f_query : forall q c, f (set_query W q c) = f c.
Hypothesis f_world : forall w c, f (set_world W w c) = f c.

Variable inner : string -> M value.
Hypothesis inner_keeps : forall text, keeps f (inner text).

Lemma keeps_getTableByIDs ids :
  keeps f (getTableByIDs_with W inner ids).
Proof.
  unfold getTableByIDs_with. apply keeps_if; [apply keeps_ret|].
  apply keeps_bind; [apply inner_keeps|]. intros result.
  destruct (rows_of result); try apply keeps_lift.
  apply keeps_bind; [apply keeps_lift|]. intros o. apply keeps_ret.
Qed.

Lemma keeps_getTableColumns schema table arrayRemap :
  keeps f (getTableColumns_with _reducer W inner schema table arrayRemap).
Proof.
  intros c. unfold getTableColumns_with.
  match goal with
  | |- f (fst (?m (set_query W ?q c))) = _ =>
      assert (Hm : keeps f m); [|rewrite (Hm (set_query W q c)); apply f_query]
  end.
  apply keeps_bind; [|intros; apply keeps_lift].
  intros c1. unfold run_with. rewrite inner_keeps. apply f_query.
Qed.

Lemma keeps_getKeyUsage schema table :
  keeps f (getKeyUsage_with W inner schema table).
Proof.
  unfold getKeyUsage_with.
  apply keeps_bind; [apply inner_keeps|intros; apply keeps_lift].
Qed.

Lemma keeps_statement_with a query :
  (forall d res, keeps f (callback inner a query d res)) ->
  keeps f (statement inner a query).
Proof.
  intros Hcb c. unfold Client.statement.
  destruct (_connection W c) as [h|]; [|reflexivity].
  destruct (drv_query h (nest a) query (world W c)) as [w [err|res]];
    [apply f_world|].
  specialize (Hcb (now w - now (world W c))%Z res (set_world W w c)).
  destruct (callback inner a query _ res _) as [c' [[[e|] r]|e|]];
    simpl in *; by rewrite Hcb, f_world.
Qed.

Lemma keeps_statements_with a queries resultsArr :
  (forall query d res, keeps f (callback inner a query d res)) ->
  keeps f (statements inner a queries resultsArr).
Proof.
  intros Hcb. revert resultsArr.
  induction queries as [|query rest IH]; intros resultsArr; simpl.
  - apply keeps_ret.
  - destruct (Str.is_empty query); [apply IH|].
    apply keeps_bind; [by apply keeps_statement_with|].
    intros result. apply IH.
Qed.

End Keeps.

Section KeepsThroughUse.

Context {X : Type} (f : client -> X).
Hypothesis f_query : forall q c, f (set_query W q c) = f c.
Hypothesis f_world : forall w c, f (set_world W w c) = f c.
Hypothesis f_schema : forall s c, f (set_schema W s c) = f c.

Variable inner : string -> M value.
Hypothesis inner_keeps : forall text, keeps f (inner text).

Lemma keeps_use schema : keeps f (use_with W inner schema).
Proof. intros c. unfold use_with. rewrite inner_keeps. apply f_schema. Qed.

Lemma keeps_getTableIndexes schema table :
  keeps f (getTableIndexes_with W inner schema table).
Proof.
  unfold getTableIndexes_with. apply keeps_bind.
  - apply keeps_if; [apply keeps_detach, keeps_use|apply keeps_ret].
  - intros _. apply keeps_bind; [apply inner_keeps|].
    intros; apply keeps_lift.
Qed.

Lemma keeps_enrich ps fields keysArr rej :
  keeps f (enrich inner ps fields keysArr rej).
Proof.
  revert fields keysArr rej.
  induction ps as [|[table schema] ps IH]; intros fields keysArr rej; simpl.
  - apply keeps_ret.
  - destruct (negb (truthy table) || negb (truthy schema)); [apply IH|].
    apply keeps_await_or; [|apply keeps_suspended|].
    { apply keeps_try_catch, keeps_bind; [by apply keeps_getTableColumns|].
      intros columns. apply keeps_bind; [apply keeps_getTableIndexes|].
      intros indexes. apply keeps_ret. }
    intros r1. apply keeps_await_or;
      [by apply keeps_try_catch, keeps_getKeyUsage|apply keeps_suspended|].
    intros r2. apply IH.
Qed.

Lemma keeps_callback a query d res :
  keeps f (callback inner a query d res).
Proof.
  unfold Client.callback. apply keeps_bind.
  { apply keeps_if; [|apply keeps_ret].
    apply keeps_bind; [apply keeps_lift|]. intros ids.
    apply keeps_bind; [by apply keeps_getTableByIDs|]. intros tablesInfo.
    apply keeps_bind; [apply keeps_lift|]. intros rows. apply keeps_ret. }
  intros shaped. apply keeps_bind; [apply keeps_this|]. intros c.
  apply keeps_bind; [apply keeps_lift|]. intros remapped.
  apply keeps_bind; [|intros; apply keeps_ret].
  apply keeps_if; [apply keeps_enrich|apply keeps_ret].
Qed.

Lemma keeps_raw_with a sql : keeps f (raw_with inner a sql).
Proof.
  unfold Client.raw_with. apply keeps_bind; [apply keeps_this|]. intros c.
  apply keeps_bind.
  { apply keeps_if; [apply keeps_detach, keeps_use|apply keeps_ret]. }
  intros _. apply keeps_bind; [|intros; apply keeps_ret].
  apply keeps_statements_with; auto using keeps_callback.
Qed.

End KeepsThroughUse.

(** [raw] never touches the connection handle. *)
Lemma raw_keeps_connection a sql : keeps (_connection W) (raw a sql).
Proof.
  apply keeps_raw_with; try done.
  intros text. apply keeps_raw_with; try done.
Qed.

(** *** Calls without options *)

(** Without [nest] and [details] the callback calls no helper method. *)
Lemma callback_default inner query d res :
  callback inner default_args query d res
  = callback (fun _ c => (c, Pending)) default_args query d res.
Proof. reflexivity. Qed.

Lemma statement_default inner query :
  statement inner default_args query
  = statement (fun _ c => (c, Pending)) default_args query.
Proof. reflexivity. Qed.

Lemma statements_default inner queries resultsArr c :
  statements inner default_args queries resultsArr c
  = statements (fun _ c => (c, Pending)) default_args queries resultsArr c.
Proof.
  revert resultsArr c.
  induction queries as [|query rest IH]; intros; simpl.
  - reflexivity.
  - destruct (Str.is_empty query); [apply IH|].
    unfold bind. rewrite statement_default.
    destruct (statement _ default_args query c) as [c1 [r|e|]];
      [apply IH|reflexivity..].
Qed.

(** A call of [raw] without options is the inner call the helper methods
    are stated over. *)
Lemma raw_default sql c : raw default_args sql c = raw_plain sql c.
Proof.
  unfold Client.raw, Client.raw_plain, Client.raw_with, bind. simpl.
  by rewrite statements_default.
Qed.

(** A call without options leaves the default schema alone. *)
Lemma raw_default_keeps_schema sql : keeps (_schema W) (raw default_args sql).
Proof.
  intros c0. rewrite raw_default. revert c0.
  unfold Client.raw_plain, Client.raw_with.
  apply keeps_bind; [apply keeps_this|]. intros c. simpl.
  apply keeps_bind; [apply keeps_ret|]. intros _.
  apply keeps_bind; [|intros; apply keeps_ret].
  apply keeps_statements_with; try done.
  intros query d res. unfold Client.callback. simpl.
  apply keeps_bind; [apply keeps_ret|]. intros shaped.
  apply keeps_bind; [apply keeps_this|]. intros c1.
  apply keeps_bind; [apply keeps_lift|]. intros remapped.
  apply keeps_bind; [apply keeps_ret|]. intros; apply keeps_ret.
Qed.

(** C10: [getTableIndexes] leaves the default schema of the client set
    to the schema it was called for whenever that is not ['public'],
    whatever the outcome of the call, and leaves it as it was for
    ['public']. *)
Theorem getTableIndexes_sets_schema (schema table : value) (c : client) :
  _schema W (fst (getTableIndexes schema table c))
  = if strict_eq schema (VStr "public") then _schema W c else schema.
Proof.
  unfold Client.getTableIndexes, getTableIndexes_with.
  set (rest := fun _ : unit => bind W _ _).
  assert (Hrest : keeps (_schema W) (rest tt)).
  { subst rest. apply keeps_bind; [apply raw_default_keeps_schema|].
    intros; apply keeps_lift. }
  unfold bind at 1.
  destruct (strict_eq schema (VStr "public")); simpl.
  - apply Hrest.
  - unfold detach. simpl. rewrite Hrest. unfold use_with.
    by rewrite raw_default_keeps_schema.
Qed.

(** *** Statements and their results *)

Lemma statements_queries inner a queries resultsArr c :
  statements inner a queries resultsArr c
  = statements inner a
      (filter (fun query => negb (Str.is_empty query) = true) queries)
      resultsArr c.
Proof.
  revert resultsArr c. induction queries as [|query rest IH]; intros; simpl.
  - reflexivity.
  - rewrite filter_cons. case_decide as Hd.
    + apply negb_true_iff in Hd. simpl. rewrite Hd. unfold bind.
      destruct (statement inner a query c) as [c1 [r|e|]]; [apply IH|done..].
    + apply not_true_is_false, negb_false_iff in Hd. rewrite Hd. apply IH.
Qed.

Lemma raw_unfold a sql c :
  raw a sql c
  = let c0 := if nest a && negb (strict_eq (_schema W c) (VStr "public"))
              then fst (use_with W raw_plain (_schema W c) c) else c in
    match statements raw_plain a (queries_of a sql) [] c0 with
    | (c', Resolved resultsArr) => (c', Resolved (returned resultsArr))
    | (c', Rejected e) => (c', Rejected e)
    | (c', Pending) => (c', Pending)
    end.
Proof.
  unfold Client.raw, Client.raw_with, queries_of, bind, this, detach, ret.
  simpl. rewrite <- statements_queries.
  by destruct (nest a && negb (strict_eq (_schema W c) (VStr "public"))).
Qed.

Lemma callback_result inner a query d res c c' rej result :
  callback inner a query d res c = (c', Resolved (rej, result)) ->
  result !! "duration" = Some (VNum d)
  /\ exists keys, result !! "keys" = Some (VArr keys)
                  /\ (details a = false -> keys = []).
Proof.
  unfold Client.callback. intros H.
  apply bind_resolved in H as (c1 & shaped & _ & H).
  apply bind_resolved in H as (c2 & c3 & _ & H).
  apply bind_resolved in H as (c4 & remapped & _ & H).
  apply bind_resolved in H as (c5 & enriched & He & H).
  injection H as _ _ <-. split; [by rewrite lookup_insert_eq|].
  exists (snd enriched). split.
  - do 4 (rewrite lookup_insert_ne by done). by rewrite lookup_insert_eq.
  - intros Hd. rewrite Hd in He. simpl in He. by injection He as _ <-.
Qed.

Lemma statement_result inner a query c c' result :
  statement inner a query c = (c', Resolved result) ->
  (exists d, result !! "duration" = Some (VNum d))
  /\ exists keys, result !! "keys" = Some (VArr keys)
                  /\ (details a = false -> keys = []).
Proof.
  unfold Client.statement.
  destruct (_connection W c) as [h|]; [|discriminate].
  destruct (drv_query h (nest a) query (world W c)) as [w [err|res]];
    [discriminate|].
  destruct (callback inner a query _ res _) as [c1 [[[e|] r]|e|]] eqn:E;
    try discriminate.
  intros [= <- <-]. apply callback_result in E as [Hd Hk].
  split; [by eexists|exact Hk].
Qed.

(** Without options the callback leaves the client as it is, so the
    duration is read off the clock of the states around the statement. *)
Lemma statement_default_duration inner query c c' result :
  statement inner default_args query c = (c', Resolved result) ->
  result !! "duration"
  = Some (VNum (now (world W c') - now (world W c))).
Proof.
  unfold Client.statement.
  destruct (_connection W c) as [h|]; [|discriminate].
  destruct (drv_query h (nest default_args) query (world W c))
    as [w [err|res]]; [discriminate|].
  destruct (callback inner default_args query _ res _)
    as [c1 [[[e|] r]|e|]] eqn:E; try discriminate.
  intros [= <- <-].
  assert (Hc : c1 = set_world W w c).
  { revert E. unfold Client.callback, bind, ret, this, lift. simpl.
    destruct (mapM _ _); [discriminate|]. by intros [= <- _]. }
  apply callback_result in E as [Hd _]. by rewrite Hd, Hc.
Qed.

Lemma statements_results (P : obj -> Prop) inner a :
  (forall query c c' result,
      statement inner a query c = (c', Resolved result) -> P result) ->
  forall queries resultsArr c c' results,
    statements inner a queries resultsArr c = (c', Resolved results) ->
    Forall P resultsArr -> Forall P results.
Proof.
  intros HP queries.
  induction queries as [|query rest IH]; intros resultsArr c c' results; simpl.
  - by intros [= _ <-].
  - destruct (Str.is_empty query); [apply IH|].
    intros H Hacc. apply bind_resolved in H as (c1 & r & Hr & H).
    apply (IH _ _ _ _ H). apply Forall_app. split; [done|].
    constructor; [by eapply HP|constructor].
Qed.

(** C7, as the code has it: every statement result [raw] produces
    carries a [keys] field; it is the empty sequence unless [details]
    was requested. *)
Theorem raw_results_carry_keys a sql c c' v
  (Hraw : raw a sql c = (c', Resolved v)) :
  exists resultsArr,
    v = returned resultsArr
    /\ Forall (fun result =>
                 exists keys, result !! "keys" = Some (VArr keys)
                              /\ (details a = false -> keys = []))
              resultsArr.
Proof.
  rewrite raw_unfold in Hraw. simpl in Hraw.
  destruct (statements raw_plain a (queries_of a sql) [] _)
    as [c1 [rs|e|]] eqn:E; try discriminate.
  injection Hraw as _ <-. exists rs. split; [reflexivity|].
  eapply statements_results; [|exact E|constructor].
  intros query c0 c0' result H. by apply statement_result in H as [_ H].
Qed.

(** C3: with [split] on, a text of exactly two non-empty statements whose
    executions succeed yields the sequence of their two results, each
    with the duration of its own statement; a text of exactly one yields
    its result object itself. *)
Theorem raw_split_results sql c :
  (forall q1 q2 c1 c2 r1 r2,
      queries_of default_args sql = [q1; q2] ->
      statement raw_plain default_args q1 c = (c1, Resolved r1) ->
      statement raw_plain default_args q2 c1 = (c2, Resolved r2) ->
      raw default_args sql c = (c2, Resolved (VArr [VObj r1; VObj r2]))
      /\ r1 !! "duration" = Some (VNum (now (world W c1) - now (world W c)))
      /\ r2 !! "duration" = Some (VNum (now (world W c2) - now (world W c1))))
  /\ (forall q c1 r,
         queries_of default_args sql = [q] ->
         statement raw_plain default_args q c = (c1, Resolved r) ->
         raw default_args sql c = (c1, Resolved (VObj r))
         /\ r !! "duration" = Some (VNum (now (world W c1) - now (world W c)))).
Proof.
  split.
  - intros q1 q2 c1 c2 r1 r2 Hq H1 H2. split.
    + rewrite raw_unfold, Hq. simpl.
      assert (E1 : Str.is_empty q1 = false /\ Str.is_empty q2 = false).
      { assert (Hin : Forall (fun q => negb (Str.is_empty q) = true) [q1; q2]).
        { rewrite <- Hq. unfold queries_of. apply Forall_forall.
          intros q Hin. by apply list_elem_of_filter in Hin as [? _]. }
        inversion Hin as [|? ? Ha Hb]; subst.
        inversion Hb as [|? ? Hc _]; subst.
        split; by apply negb_true_iff. }
      destruct E1 as [-> ->]. unfold bind. rewrite H1. simpl. by rewrite H2.
    + split; by eapply statement_default_duration.
  - intros q c1 r Hq H1. split.
    + rewrite raw_unfold, Hq. simpl.
      assert (E1 : Str.is_empty q = false).
      { assert (Hin : Forall (fun q => negb (Str.is_empty q) = true) [q]).
        { rewrite <- Hq. unfold queries_of. apply Forall_forall.
          intros q' Hin. by apply list_elem_of_filter in Hin as [? _]. }
        inversion Hin as [|? ? Ha _]; subst. by apply negb_true_iff. }
      rewrite E1. unfold bind. by rewrite H1.
    + by eapply statement_default_duration.
Qed.

(** *** Clients without a connection *)

Lemma statement_unconnected inner a query c :
  _connection W c = None ->
  statement inner a query c
  = (c, Rejected TypeError).
Proof. intros H. unfold Client.statement. by rewrite H. Qed.

(** *** Enrichment of unresolved fields *)

Lemma strict_eq_truthy (a b : value) :
  strict_eq a b = true -> truthy a = truthy b.
Proof.
  destruct a, b; simpl; try discriminate; try reflexivity.
  - by intros ->%Bool.eqb_prop.
  - by intros ->%Z.eqb_eq.
  - by intros ->%String.eqb_eq.
Qed.

Lemma merge_field_unresolved table schema columns indexes field :
  truthy table = true -> truthy schema = true -> unresolved field ->
  merge_field table schema columns indexes field = field.
Proof.
  intros Ht Hs Hu. unfold merge_field.
  destruct (strict_eq (prop "table" field) table) eqn:E1; [|reflexivity].
  destruct (strict_eq (prop "schema" field) schema) eqn:E2; [|reflexivity].
  apply strict_eq_truthy in E1, E2. destruct Hu; congruence.
Qed.

Lemma try_catch_resolved {A : Type} (m : M A) c c' (r : throws A) :
  try_catch W m c = (c', Resolved r) ->
  match r with
  | inr a => m c = (c', Resolved a)
  | inl e => m c = (c', Rejected e)
  end.
Proof.
  unfold try_catch. destruct (m c) as [c1 [a|e|]]; try discriminate;
    by intros [= <- <-].
Qed.

Lemma await_or_resolved {A B : Type} (m : M A) (stuck : M B) (k : A -> M B)
      c c' b :
  await_or W m stuck k c = (c', Resolved b) ->
  (exists c1 a, m c = (c1, Resolved a) /\ k a c1 = (c', Resolved b))
  \/ (exists c1, m c = (c1, Pending) /\ stuck c1 = (c', Resolved b)).
Proof.
  unfold await_or. destruct (m c) as [c1 [a|e|]]; try discriminate.
  - intros H. left. by exists c1, a.
  - intros H. right. by exists c1.
Qed.

Lemma suspended_resolved rej fields keysArr (c c' : client) rej' fields'
      keysArr' :
  suspended W rej fields keysArr c = (c', Resolved (rej', fields', keysArr')) ->
  fields' = fields.
Proof. destruct rej; [by intros [= _ _ <- _]|discriminate]. Qed.

Lemma enrich_preserves inner ps :
  forall fields keysArr rej c c' rej' fields' keysArr',
    enrich inner ps fields keysArr rej c
    = (c', Resolved (rej', fields', keysArr')) ->
    Forall2 (fun field field' => unresolved field -> field' = field)
            fields fields'.
Proof.
  induction ps as [|[table schema] ps IH];
    intros fields keysArr rej c c' rej' fields' keysArr'; simpl.
  - intros [= _ _ <- _]. apply Forall_Forall2_diag, Forall_forall. auto.
  - destruct (negb (truthy table) || negb (truthy schema)) eqn:Eskip;
      [apply IH|].
    apply orb_false_elim in Eskip as [Ht%negb_false_iff Hs%negb_false_iff].
    intros H.
    apply await_or_resolved in H as [(c1 & r1 & H1 & H)|(c1 & _ & H)];
      [|apply suspended_resolved in H as ->;
        apply Forall_Forall2_diag, Forall_forall; auto].
    assert (Hthen : Forall2 (fun field field' => unresolved field ->
                                                 field' = field)
                            (match r1 with inr fs => fs | inl _ => fields end)
                            fields').
    { apply await_or_resolved in H as [(c2 & r2 & _ & H)|(c2 & _ & H)];
        [by apply IH in H|].
      apply suspended_resolved in H as ->.
      apply Forall_Forall2_diag, Forall_forall. auto. }
    clear H. rename Hthen into H.
    destruct r1 as [e|fs]; [exact H|].
    apply try_catch_resolved in H1.
    apply bind_resolved in H1 as (c3 & columns & _ & H1).
    apply bind_resolved in H1 as (c4 & indexes & _ & H1).
    injection H1 as _ <-.
    apply Forall2_fmap_l in H. eapply Forall2_impl; [exact H|].
    intros field field' Hf Hu. simpl in Hf.
    rewrite (merge_field_unresolved _ _ _ _ _ Ht Hs Hu) in Hf. by apply Hf.
Qed.

Lemma enrich_unresolved inner ps fields keysArr rej c :
  Forall (fun p => truthy (fst p) = false \/ truthy (snd p) = false) ps ->
  enrich inner ps fields keysArr rej c = (c, Resolved (rej, fields, keysArr)).
Proof.
  induction 1 as [|[table schema] ps Hp _ IH]; simpl; [reflexivity|].
  simpl in Hp. destruct Hp as [-> | ->]; simpl; [exact IH|].
  rewrite orb_true_r. exact IH.
Qed.

Lemma paramsArr_fields fields p :
  p ∈ paramsArr fields ->
  exists field, field ∈ fields
                /\ p = (prop "table" field, prop "schema" field).
Proof.
  unfold paramsArr. intros H.
  apply list_elem_of_fmap in H as ([i val] & -> & H).
  apply list_elem_of_filter in H as [_ H].
  apply list_elem_of_lookup in H as [j H].
  rewrite list_lookup_imap in H.
  destruct (_ !! j) as [val'|] eqn:E; [|discriminate].
  injection H as _ ->. rewrite list_lookup_fmap in E.
  destruct (fields !! j) as [field|] eqn:Ef; [|discriminate].
  injection E as <-. exists field. split; [|reflexivity].
  by eapply list_elem_of_lookup_2.
Qed.

Lemma mapM_inr {A B : Type} (g : A -> throws B) (l : list A) (l' : list B) :
  mapM g l = inr l' -> Forall2 (fun x y => g x = inr y) l l'.
Proof.
  revert l'. induction l as [|x xs IH]; intros l'; simpl.
  - intros [= <-]. constructor.
  - destruct (g x) as [e|y] eqn:E; [discriminate|].
    destruct (mapM g xs) as [e|ys]; [discriminate|].
    intros [= <-]. constructor; [exact E|by apply IH].
Qed.

Lemma remap_field_no_from query tablesInfo this_schema field field' :
  no_from parse query ->
  remap_field types false
    (match parse query with Some (x :: _) => Some x | _ => None end)
    tablesInfo this_schema field = inr (Some field') ->
  prop "table" field' = VNull.
Proof.
  unfold no_from, remap_field. intros Hno.
  destruct (negb (truthy field) || is_array field); [discriminate|].
  assert (Ho : origin (match parse query with
                       | Some (x :: _) => Some x
                       | _ => None
                       end) this_schema
               = inr (this_schema, VNull, VNull, VNull)).
  { destruct (parse query) as [[|[[from|]] tree]|]; done. }
  rewrite Ho. intros [= <-]. unfold prop.
  do 3 (rewrite lookup_insert_ne by done). by rewrite lookup_insert_eq.
Qed.

Lemma callback_details_no_from inner query d res s c :
  no_from parse query ->
  callback inner {| nest := false; details := true; split := s |} query d res c
  = callback inner {| nest := false; details := false; split := s |}
             query d res c.
Proof.
  intros Hno. unfold Client.callback, bind, ret, this, lift. simpl.
  destruct (mapM _ (res_fields res)) as [e|remapped] eqn:E; [reflexivity|].
  destruct (negb (length (omap id remapped) =? 0)%nat); [|reflexivity].
  rewrite enrich_unresolved; [reflexivity|].
  apply Forall_forall. intros p Hp.
  apply paramsArr_fields in Hp as (field & Hin & ->). left. simpl.
  apply list_elem_of_omap in Hin as (o & Hin & Ho). simpl in Ho. subst o.
  apply mapM_inr in E.
  apply list_elem_of_lookup in Hin as [i Hi].
  destruct (Forall2_lookup_r _ _ _ _ _ E Hi) as (x & _ & Hx).
  by rewrite (remap_field_no_from _ _ _ _ _ Hno Hx).
Qed.

Lemma statements_details_no_from inner s queries :
  Forall (no_from parse) queries ->
  forall resultsArr c,
    statements inner {| nest := false; details := true; split := s |}
               queries resultsArr c
    = statements inner {| nest := false; details := false; split := s |}
                 queries resultsArr c.
Proof.
  induction 1 as [|query rest Hno _ IH]; intros resultsArr c; simpl;
    [reflexivity|].
  destruct (Str.is_empty query); [apply IH|].
  unfold bind, Client.statement. simpl.
  destruct (_connection W c) as [h|]; [|reflexivity].
  destruct (drv_query h false query (world W c)) as [w [err|res]];
    [reflexivity|].
  rewrite (callback_details_no_from _ _ _ _ _ _ Hno).
  destruct (callback inner _ query _ res _) as [c1 [[[e|] r]|e|]];
    try reflexivity.
  apply IH.
Qed.

(** C8: in the [details] branch a (table, schema) pair with an
    unresolved table or schema is passed over without any lookup; the
    fields of such a pair come out of the enrichment exactly as they
    went in, so no length or key attribute is added to them; and when
    the parser resolves no table for any statement of the text, a call
    with [details] behaves as the same call without it: it raises
    nothing of its own. *)
Theorem raw_details_unresolved inner :
  (forall table schema ps fields keysArr rej,
      truthy table = false \/ truthy schema = false ->
      enrich inner ((table, schema) :: ps) fields keysArr rej
      = enrich inner ps fields keysArr rej)
  /\ (forall ps fields keysArr rej c c' rej' fields' keysArr',
         enrich inner ps fields keysArr rej c
         = (c', Resolved (rej', fields', keysArr')) ->
         Forall2 (fun field field' => unresolved field -> field' = field)
                 fields fields')
  /\ (forall s sql c,
         Forall (no_from parse)
                (queries_of {| nest := false; details := true; split := s |} sql) ->
         raw {| nest := false; details := true; split := s |} sql c
         = raw {| nest := false; details := false; split := s |} sql c).
Proof.
  split; [|split].
  - intros table schema ps fields keysArr rej [H | H]; simpl; rewrite H;
      [reflexivity|]. by rewrite orb_true_r.
  - apply enrich_preserves.
  - intros s sql c Hno. rewrite !raw_unfold. simpl.
    change (queries_of {| nest := false; details := false; split := s |} sql)
      with (queries_of {| nest := false; details := true; split := s |} sql).
    by rewrite (statements_details_no_from _ _ _ Hno).
Qed.

(** *** Column introspection *)


(** *** Splitting the text *)

Import ExtraSpec.

Lemma split_nonempty (sep : ascii) (s : string) : Str.split sep s <> [].
Proof.
  destruct s as [|c s]; simpl; [done|].
  destruct (Ascii.eqb c sep); [done|]. by destruct (Str.split sep s).
Qed.

Lemma split_no_sep (sep : ascii) (s : string) :
  has_char sep s = false -> Str.split sep s = [s].
Proof.
  induction s as [|c s IH]; simpl; [reflexivity|].
  intros [Hc Hs]%orb_false_elim. rewrite Hc, (IH Hs). reflexivity.
Qed.

Lemma split_app (sep : ascii) (a b : string) :
  Str.split sep (a +:+ String sep b) = Str.split sep a ++ Str.split sep b.
Proof.
  induction a as [|c a IH]; simpl.
  - by rewrite Ascii.eqb_refl.
  - destruct (Ascii.eqb c sep); [by rewrite IH|].
    rewrite IH. pose proof (split_nonempty sep a) as Hne.
    by destruct (Str.split sep a).
Qed.

Lemma split_pieces (sep : ascii) (s : string) :
  Forall (fun p => has_char sep p = false) (Str.split sep s).
Proof.
  induction s as [|c s IH]; simpl; [by repeat constructor|].
  destruct (Ascii.eqb c sep) eqn:E; [by constructor|].
  destruct (Str.split sep s) as [|p ps]; [by repeat constructor; simpl; rewrite E|].
  inversion IH as [|? ? Hp Hps]; subst.
  constructor; [simpl; by rewrite E, Hp|exact Hps].
Qed.

Lemma has_char_app (c : ascii) (a b : string) :
  has_char c (a +:+ b) = has_char c a || has_char c b.
Proof.
  induction a as [|x a IH]; simpl; [reflexivity|]. by rewrite IH, orb_assoc.
Qed.

(** *** The batch of statements *)

Lemma statements_app inner a qs1 qs2 resultsArr c :
  statements inner a (qs1 ++ qs2) resultsArr c
  = match statements inner a qs1 resultsArr c with
    | (c1, Resolved results) => statements inner a qs2 results c1
    | (c1, Rejected e) => (c1, Rejected e)
    | (c1, Pending) => (c1, Pending)
    end.
Proof.
  revert resultsArr c. induction qs1 as [|q qs1 IH]; intros; simpl.
  - reflexivity.
  - destruct (Str.is_empty q); [apply IH|]. unfold bind.
    destruct (statement inner a q c) as [c1 [r|e|]]; [apply IH|done..].
Qed.

Lemma statements_length inner a :
  forall queries resultsArr c c' results,
    Forall (fun q => Str.is_empty q = false) queries ->
    statements inner a queries resultsArr c = (c', Resolved results) ->
    length results = (length resultsArr + length queries)%nat.
Proof.
  induction queries as [|q qs IH]; intros resultsArr c c' results Hq; simpl.
  - intros [= _ <-]. lia.
  - inversion Hq as [|? ? Hne Hqs]; subst. rewrite Hne.
    intros H. apply bind_resolved in H as (c1 & r & _ & H).
    apply IH in H; [|exact Hqs]. rewrite H, length_app. simpl. lia.
Qed.

Lemma queries_of_nonempty a sql :
  Forall (fun q => Str.is_empty q = false) (queries_of a sql).
Proof.
  apply Forall_forall. intros q Hq. unfold queries_of in Hq.
  apply list_elem_of_filter in Hq as [Hq _]. by apply negb_true_iff.
Qed.

(** A call of [raw] that resolves gives one result per non-empty
    statement of the text: the result object itself for exactly one
    statement, and otherwise the sequence of the results, which is empty
    for a text without statements. *)
Theorem raw_one_result_per_statement a sql c c' v
  (Hraw : raw a sql c = (c', Resolved v)) :
  exists resultsArr,
    v = returned resultsArr
    /\ length resultsArr = length (queries_of a sql).
Proof.
  rewrite raw_unfold in Hraw. cbv zeta in Hraw.
  destruct (statements raw_plain a (queries_of a sql) [] _)
    as [c1 [rs|e|]] eqn:E; try discriminate.
  injection Hraw as _ <-. exists rs. split; [reflexivity|].
  by apply statements_length in E; [|apply queries_of_nonempty].
Qed.

(** When a statement of the batch is rejected, the call is rejected
    with its error in the state that statement left: the statements after
    it are not run, nothing is undone, and the results of the statements
    before it are lost. *)
Theorem raw_aborts_at_first_failure a sql c pre query rest c1 results c2 e
  (Hnest : nest a = false)
  (Hqueries : queries_of a sql = pre ++ query :: rest)
  (Hpre : statements raw_plain a pre [] c = (c1, Resolved results))
  (Hfail : statement raw_plain a query c1 = (c2, Rejected e)) :
  raw a sql c = (c2, Rejected e).
Proof.
  rewrite raw_unfold, Hnest, Hqueries. cbn [andb].
  rewrite statements_app, Hpre.
  assert (Hne : Str.is_empty query = false).
  { pose proof (queries_of_nonempty a sql) as H. rewrite Hqueries in H.
    apply Forall_app in H as [_ H]. by inversion H. }
  simpl. rewrite Hne. unfold bind. by rewrite Hfail.
Qed.

(** *** The default schema *)

Lemma raw_plain_keeps_schema text : keeps (_schema W) (raw_plain text).
Proof.
  intros c. rewrite <- raw_default. apply raw_default_keeps_schema.
Qed.

Lemma callback_keeps_schema a query d res :
  details a = false ->
  keeps (_schema W) (callback raw_plain a query d res).
Proof.
  intros Hd. unfold Client.callback. rewrite Hd. apply keeps_bind.
  { apply keeps_if; [|apply keeps_ret].
    apply keeps_bind; [apply keeps_lift|]. intros ids.
    apply keeps_bind;
      [apply keeps_getTableByIDs; auto using raw_plain_keeps_schema|].
    intros tablesInfo.
    apply keeps_bind; [apply keeps_lift|]. intros rows. apply keeps_ret. }
  intros shaped. apply keeps_bind; [apply keeps_this|]. intros c.
  apply keeps_bind; [apply keeps_lift|]. intros remapped.
  apply keeps_bind; [apply keeps_ret|]. intros; apply keeps_ret.
Qed.

(** Without [details], [raw] leaves the default schema of the client as
    it is, whatever the options and the outcome. *)
Theorem raw_keeps_schema a sql (Hdetails : details a = false) :
  keeps (_schema W) (raw a sql).
Proof.
  intros c. rewrite raw_unfold. cbv zeta.
  set (c0 := if nest a && negb (strict_eq (_schema W c) (VStr "public"))
             then fst (use_with W raw_plain (_schema W c) c) else c).
  assert (Hc0 : _schema W c0 = _schema W c).
  { subst c0. destruct (_ && _); [|reflexivity].
    unfold use_with. by rewrite raw_plain_keeps_schema. }
  rewrite <- Hc0.
  assert (Hk : keeps (_schema W)
                 (statements raw_plain a (queries_of a sql) [])).
  { apply keeps_statements_with; try done.
    intros query d res. by apply callback_keeps_schema. }
  specialize (Hk c0).
  by destruct (statements raw_plain a (queries_of a sql) [] c0) as [c1 [rs|e|]].
Qed.

(** [use] changes the default schema of the client before it sends
    anything: the schema stays changed when the SET statement fails, and
    on a client without a connection [use] is rejected with the type error
    of the missing handle and still leaves the schema changed. *)
Theorem use_sets_schema (schema : value) (c : client) :
  _schema W (fst (Client.use _reducer types W now drv_query parse schema c))
  = schema
  /\ (_connection W c = None ->
      snd (Client.use _reducer types W now drv_query parse schema c)
      = Rejected TypeError).
Proof.
  unfold Client.use, use_with. split.
  - by rewrite raw_default_keeps_schema.
  - intros Hc. rewrite raw_unfold. cbn [nest default_args andb].
    set (text := "SET search_path TO " +:+ to_str schema).
    destruct (queries_of default_args text) as [|q qs] eqn:Hq.
    + exfalso. unfold queries_of, text in Hq. cbn [split default_args] in Hq.
      change ("SET search_path TO " +:+ to_str schema)
        with (String "S" ("ET search_path TO " +:+ to_str schema)) in Hq.
      cbn [Str.split] in Hq. change (Ascii.eqb "S" ";") with false in Hq.
      destruct (Str.split ";" _) as [|p ps]; rewrite filter_cons in Hq;
        simpl in Hq; discriminate.
    + assert (Hne : Str.is_empty q = false).
      { pose proof (queries_of_nonempty default_args text) as H.
        rewrite Hq in H. by inversion H. }
      simpl. rewrite Hne. unfold bind.
      by rewrite statement_unconnected.
Qed.

(** *** What reaches the driver *)

Import SendSpec.

Local Abbreviation send := (SendSpec.send W drv_query).
Local Abbreviation sent := (SendSpec.sent W drv_query).

Lemma set_world_same (c : client) : set_world W (world W c) c = c.
Proof. by destruct c. Qed.

Lemma set_world_twice w1 w2 (c : client) :
  set_world W w2 (set_world W w1 c) = set_world W w2 c.
Proof. by destruct c. Qed.

(** Without [nest] and [details] a statement on a live handle hands
    its text to the driver once and changes nothing else. *)
Lemma statement_plain_state inner a query c h :
  nest a = false -> details a = false -> _connection W c = Some h ->
  fst (statement inner a query c) = set_world W (send h (world W c) query) c.
Proof.
  intros Hn Hd Hc. unfold Client.statement, SendSpec.send.
  rewrite Hc, Hn.
  destruct (drv_query h false query (world W c)) as [w [err|res]];
    [reflexivity|].
  unfold Client.callback, bind, ret, this, lift. rewrite Hn, Hd. simpl.
  by destruct (mapM _ _).
Qed.

Lemma statement_plain_error inner a query c h err :
  nest a = false -> _connection W c = Some h ->
  snd (drv_query h false query (world W c)) = inl err ->
  statement inner a query c
  = (set_world W (send h (world W c) query) c, Rejected (DriverError err)).
Proof.
  intros Hn Hc. unfold Client.statement, SendSpec.send.
  rewrite Hc, Hn.
  destruct (drv_query h false query (world W c)) as [w [e|res]];
    simpl; [by intros [= ->]|discriminate].
Qed.

Lemma sent_app h l1 l2 w : sent h (l1 ++ l2) w = sent h l2 (sent h l1 w).
Proof. apply fold_left_app. Qed.

(** The statements of a batch reach the driver in order, up to the one
    that does not resolve. *)
Lemma statements_plain_state inner a h :
  nest a = false -> details a = false ->
  forall queries resultsArr c,
    _connection W c = Some h ->
    Forall (fun q => Str.is_empty q = false) queries ->
    exists n,
      fst (statements inner a queries resultsArr c)
      = set_world W (sent h (take n queries) (world W c)) c
      /\ (queries <> [] -> (0 < n)%nat)
      /\ (forall results,
            snd (statements inner a queries resultsArr c) = Resolved results ->
            take n queries = queries).
Proof.
  intros Hn Hd. induction queries as [|q qs IH]; intros rs c Hc Hq.
  - exists 0%nat. simpl. by rewrite set_world_same.
  - inversion Hq as [|? ? Hne Hqs]; subst. simpl. rewrite Hne. unfold bind.
    pose proof (statement_plain_state inner a q c h Hn Hd Hc) as Hs.
    destruct (statement inner a q c) as [c1 [r|e|]] eqn:E; simpl in Hs.
    + subst c1.
      destruct (IH (rs ++ [r]) (set_world W (send h (world W c) q) c))
        as (n & Hst & _ & Hres); [exact Hc|exact Hqs|].
      exists (S n). rewrite Hst. simpl.
      split; [by rewrite set_world_twice|]. split; [lia|].
      intros results Hr. by rewrite (Hres results Hr).
    + exists 1%nat. simpl. rewrite take_0. simpl.
      split; [exact Hs|]. split; [lia|discriminate].
    + exists 1%nat. simpl. rewrite take_0. simpl.
      split; [exact Hs|]. split; [lia|discriminate].
Qed.

Lemma raw_plain_state a sql c h :
  nest a = false -> details a = false -> _connection W c = Some h ->
  exists n,
    fst (raw a sql c)
    = set_world W (sent h (take n (queries_of a sql)) (world W c)) c
    /\ (queries_of a sql <> [] -> (0 < n)%nat)
    /\ (forall v, snd (raw a sql c) = Resolved v ->
                  take n (queries_of a sql) = queries_of a sql).
Proof.
  intros Hn Hd Hc. rewrite raw_unfold, Hn. cbn [andb].
  destruct (statements_plain_state raw_plain a h Hn Hd (queries_of a sql) []
              c Hc (queries_of_nonempty a sql)) as (n & Hst & Hpos & Hres).
  exists n.
  destruct (statements raw_plain a (queries_of a sql) [] c)
    as [c1 [rs|e|]]; simpl in *; (split; [exact Hst|]); (split; [exact Hpos|]);
    try discriminate.
  intros v _. by apply (Hres rs).
Qed.

Lemma raw_plain_resolved a sql c c' v h :
  nest a = false -> details a = false -> _connection W c = Some h ->
  raw a sql c = (c', Resolved v) ->
  c' = set_world W (sent h (queries_of a sql) (world W c)) c.
Proof.
  intros Hn Hd Hc Hr.
  destruct (raw_plain_state a sql c h Hn Hd Hc) as (n & Hst & _ & Hres).
  rewrite Hr in Hst, Hres. simpl in *. by rewrite <- (Hres v eq_refl).
Qed.

Lemma statements_plain_trace inner a h :
  nest a = false -> details a = false ->
  forall queries resultsArr c,
    _connection W c = Some h ->
    Forall (fun q => Str.is_empty q = false) queries ->
    (exists results,
        statements inner a queries resultsArr c
        = (set_world W (sent h queries (world W c)) c, Resolved results))
    \/ (exists pre query rest results,
           queries = pre ++ query :: rest
           /\ statements inner a pre resultsArr c
              = (set_world W (sent h pre (world W c)) c, Resolved results)
           /\ fst (statements inner a queries resultsArr c)
              = set_world W (sent h (pre ++ [query]) (world W c)) c
           /\ stopped
                (snd (statement inner a query
                        (set_world W (sent h pre (world W c)) c)))
                (snd (statements inner a queries resultsArr c))).
Proof.
  intros Hn Hd. induction queries as [|q qs IH]; intros rs c Hc Hq.
  - left. exists rs. simpl. by rewrite set_world_same.
  - inversion Hq as [|? ? Hne Hqs]; subst.
    pose proof (statement_plain_state inner a q c h Hn Hd Hc) as Hs.
    destruct (statement inner a q c) as [c1 o] eqn:E. simpl in Hs. subst c1.
    destruct o as [r|e|].
    + destruct (IH (rs ++ [r]) (set_world W (send h (world W c) q) c) Hc Hqs)
        as [(results & Hall)|(pre & query & rest & results & -> & Hpre & Hst
                              & Hstop)].
      * left. exists results. simpl. rewrite Hne. unfold bind.
        rewrite E, Hall. cbn [world set_world]. by rewrite set_world_twice.
      * right. exists (q :: pre), query, rest, results.
        cbn [world set_world] in Hpre, Hst, Hstop.
        rewrite set_world_twice in Hpre, Hst, Hstop.
        split; [reflexivity|]. simpl. rewrite Hne. unfold bind. rewrite E.
        split; [exact Hpre|]. split; [exact Hst|exact Hstop].
    + right. exists [], q, qs, rs. split; [reflexivity|]. simpl.
      rewrite set_world_same, Hne. unfold bind. by rewrite E.
    + right. exists [], q, qs, rs. split; [reflexivity|]. simpl.
      rewrite set_world_same, Hne. unfold bind. by rewrite E.
Qed.

(** Without [nest] and [details], [raw] on a live handle hands the
    non-empty statements of the text to the driver in their order, each
    once, and changes nothing of the client but the world the driver acts
    on.  Either every statement resolves, all of them were handed over
    and the call resolves; or there is a first statement that does not
    resolve: the statements before it resolved, it is the last one handed
    to the driver, and the call ends as its promise did. *)
Theorem raw_sends_statements_in_order a sql c h
  (Hnest : nest a = false) (Hdetails : details a = false)
  (Hconn : _connection W c = Some h) :
  (exists resultsArr,
      raw a sql c
      = (set_world W (sent h (queries_of a sql) (world W c)) c,
         Resolved (returned resultsArr)))
  \/ (exists pre query rest results,
         queries_of a sql = pre ++ query :: rest
         /\ statements raw_plain a pre [] c
            = (set_world W (sent h pre (world W c)) c, Resolved results)
         /\ fst (raw a sql c)
            = set_world W (sent h (pre ++ [query]) (world W c)) c
         /\ stopped
              (snd (statement raw_plain a query
                      (set_world W (sent h pre (world W c)) c)))
              (snd (raw a sql c))).
Proof.
  rewrite raw_unfold, Hnest. cbn [andb]. cbv zeta.
  destruct (statements_plain_trace raw_plain a h Hnest Hdetails
              (queries_of a sql) [] c Hconn (queries_of_nonempty a sql))
    as [(results & Hall)|(pre & query & rest & results & Hq & Hpre & Hst
                          & Hstop)].
  - left. exists results. by rewrite Hall.
  - right. exists pre, query, rest, results.
    split; [exact Hq|]. split; [exact Hpre|].
    destruct (statements raw_plain a (queries_of a sql) [] c)
      as [c1 [rs|e|]]; simpl in *; (split; [exact Hst|]).
    + by destruct (snd (statement raw_plain a query _)).
    + destruct (snd (statement raw_plain a query _)); [done| |done].
      by injection Hstop as ->.
    + by destruct (snd (statement raw_plain a query _)).
Qed.

(** *** Replacing a trigger, a routine or a function *)

Local Abbreviation createTrigger :=
  (Client.createTrigger _reducer types W now drv_query parse).
Local Abbreviation dropTrigger :=
  (Client.dropTrigger _reducer types W now drv_query parse).
Local Abbreviation alterTrigger :=
  (Client.alterTrigger _reducer types W now drv_query parse).
Local Abbreviation createRoutine :=
  (Client.createRoutine _reducer types W now drv_query parse).
Local Abbreviation dropRoutine :=
  (Client.dropRoutine _reducer types W now drv_query parse).
Local Abbreviation alterRoutine :=
  (Client.alterRoutine _reducer types W now drv_query parse).
Local Abbreviation createFunction :=
  (Client.createFunction _reducer types W now drv_query parse).
Local Abbreviation dropFunction :=
  (Client.dropFunction _reducer types W now drv_query parse).
Local Abbreviation alterFunction :=
  (Client.alterFunction _reducer types W now drv_query parse).

Lemma queries_of_unsplit sql :
  Str.is_empty sql = false -> queries_of unsplit_args sql = [sql].
Proof.
  intros H. unfold queries_of. cbn [split unsplit_args].
  rewrite filter_cons. case_decide as Hd; [reflexivity|].
  by rewrite H in Hd.
Qed.

Lemma raw_first_error a sql query rest c h err :
  nest a = false -> queries_of a sql = query :: rest ->
  _connection W c = Some h ->
  snd (drv_query h false query (world W c)) = inl err ->
  raw a sql c
  = (set_world W (send h (world W c) query) c, Rejected (DriverError err)).
Proof.
  intros Hn Hq Hc He. rewrite raw_unfold, Hn, Hq. cbn [andb].
  assert (Hne : Str.is_empty query = false).
  { pose proof (queries_of_nonempty a sql) as H. rewrite Hq in H.
    by inversion H. }
  simpl. rewrite Hne. unfold bind.
  by rewrite (statement_plain_error _ _ _ _ h err Hn Hc He).
Qed.

Lemma raw_unsplit_resolved sql c c' v h :
  Str.is_empty sql = false -> _connection W c = Some h ->
  raw unsplit_args sql c = (c', Resolved v) ->
  c' = set_world W (sent h [sql] (world W c)) c.
Proof.
  intros Hne Hc Hr.
  apply (raw_plain_resolved unsplit_args _ _ _ _ h eq_refl eq_refl Hc) in Hr.
  by rewrite queries_of_unsplit in Hr.
Qed.

Lemma raw_default_resolved sql c c' v h :
  _connection W c = Some h ->
  raw default_args sql c = (c', Resolved v) ->
  c' = set_world W (sent h (queries_of default_args sql) (world W c)) c.
Proof. intros Hc. by apply (raw_plain_resolved default_args). Qed.

Lemma createTrigger_sql_nonempty trigger :
  Str.is_empty (createTrigger_sql trigger) = false.
Proof. reflexivity. Qed.

(** When [alterTrigger] resolves, it resolves to [undefined] and the
    driver was handed, in this order: the CREATE statement of the trigger
    under its temporary name, the statements of the DROP of that name,
    those of the DROP of the old name, and the CREATE statement of the
    trigger.  The two CREATE texts go out whole; nothing else of the client
    changes. *)
Theorem alterTrigger_sends trigger c c' v h
  (Hconn : _connection W c = Some h)
  (Hdone : alterTrigger trigger c = (c', Resolved v)) :
  v = VUndef
  /\ c' = set_world W
            (sent h ([createTrigger_sql (tempTrigger trigger)]
                     ++ queries_of default_args
                          (dropTrigger_sql (t_name (tempTrigger trigger)))
                     ++ queries_of default_args
                          (dropTrigger_sql (t_oldName trigger))
                     ++ [createTrigger_sql trigger])
                  (world W c)) c.
Proof.
  unfold Client.alterTrigger in Hdone.
  apply bind_resolved in Hdone as (c1 & v1 & H1 & Hdone).
  apply bind_resolved in Hdone as (c2 & v2 & H2 & Hdone).
  apply bind_resolved in Hdone as (c3 & v3 & H3 & Hdone).
  apply bind_resolved in Hdone as (c4 & v4 & H4 & Hdone).
  injection Hdone as <- <-. split; [reflexivity|].
  apply raw_unsplit_resolved with (h := h) in H1;
    [subst c1|reflexivity|exact Hconn].
  apply raw_default_resolved with (h := h) in H2; [subst c2|exact Hconn].
  apply raw_default_resolved with (h := h) in H3; [subst c3|exact Hconn].
  apply raw_unsplit_resolved with (h := h) in H4;
    [subst c4|reflexivity|exact Hconn].
  cbn [world set_world].
  rewrite !set_world_twice, !sent_app. reflexivity.
Qed.

(** When the driver refuses the CREATE statement of the temporary
    trigger, [alterTrigger] is rejected with the driver's error and
    nothing more is handed to the driver: the old trigger is not
    dropped. *)
Theorem alterTrigger_first_failure trigger c h err
  (Hconn : _connection W c = Some h)
  (Hrefused : snd (drv_query h false (createTrigger_sql (tempTrigger trigger))
                             (world W c)) = inl err) :
  alterTrigger trigger c
  = (set_world W (send h (world W c) (createTrigger_sql (tempTrigger trigger)))
               c,
     Rejected (DriverError err)).
Proof.
  unfold Client.alterTrigger, Client.createTrigger, bind.
  rewrite (raw_first_error unsplit_args _ _ [] c h err eq_refl
             (queries_of_unsplit _ (createTrigger_sql_nonempty _)) Hconn
             Hrefused).
  reflexivity.
Qed.

(** [createFunction] reads [func.parameters] before anything else:
    for a function object without the property both [createFunction] and
    [alterFunction] are rejected with a type error, and the client is left
    as it was, with nothing handed to the driver. *)
Theorem alterFunction_missing_parameters func c
  (Hmissing : fn_parameters func = None) :
  createFunction func c = (c, Rejected TypeError)
  /\ alterFunction func c = (c, Rejected TypeError).
Proof.
  split.
  - unfold Client.createFunction. by rewrite Hmissing.
  - unfold Client.alterFunction, Client.createFunction, bind.
    cbn [fn_parameters tempFunction]. by rewrite Hmissing.
Qed.

(** When [alterFunction] resolves, the driver was handed the CREATE
    statement of the function under its temporary name, the statements of
    the DROP of that name, those of the DROP of the old name and the
    CREATE statement of the function, in this order, and the call
    resolves to [undefined]. *)
Theorem alterFunction_sends func ps c c' v h
  (Hparams : fn_parameters func = Some ps)
  (Hconn : _connection W c = Some h)
  (Hdone : alterFunction func c = (c', Resolved v)) :
  v = VUndef
  /\ c' = set_world W
            (sent h ([createFunction_sql (tempFunction func) ps]
                     ++ queries_of default_args
                          (dropFunction_sql (fn_name (tempFunction func)))
                     ++ queries_of default_args
                          (dropFunction_sql (fn_oldName func))
                     ++ [createFunction_sql func ps])
                  (world W c)) c.
Proof.
  unfold Client.alterFunction, Client.createFunction in Hdone.
  cbn [fn_parameters tempFunction] in Hdone. rewrite Hparams in Hdone.
  apply bind_resolved in Hdone as (c1 & v1 & H1 & Hdone).
  apply bind_resolved in Hdone as (c2 & v2 & H2 & Hdone).
  apply bind_resolved in Hdone as (c3 & v3 & H3 & Hdone).
  apply bind_resolved in Hdone as (c4 & v4 & H4 & Hdone).
  injection Hdone as <- <-. split; [reflexivity|].
  apply raw_unsplit_resolved with (h := h) in H1;
    [subst c1|reflexivity|exact Hconn].
  apply raw_default_resolved with (h := h) in H2; [subst c2|exact Hconn].
  apply raw_default_resolved with (h := h) in H3; [subst c3|exact Hconn].
  apply raw_unsplit_resolved with (h := h) in H4;
    [subst c4|reflexivity|exact Hconn].
  cbn [world set_world].
  rewrite !set_world_twice, !sent_app. reflexivity.
Qed.

Lemma set_schema_same (c : client) : set_schema W (_schema W c) c = c.
Proof. by destruct c. Qed.

Lemma queries_of_search_path schema :
  has_char ";" (to_str schema) = false ->
  queries_of default_args (search_path schema) = [search_path schema].
Proof.
  intros H. unfold queries_of. cbn [split default_args].
  rewrite split_no_sep.
  - rewrite filter_cons. case_decide as Hd; [reflexivity|]. by destruct Hd.
  - unfold search_path. by rewrite has_char_app, H.
Qed.

Lemma createRoutine_resolved routine c c' v h :
  _connection W c = Some h ->
  has_char ";" (to_str (_schema W c)) = false ->
  createRoutine routine c = (c', Resolved v) ->
  c' = set_world W
         (sent h (set_path (_schema W c)
                  ++ [createRoutine_sql (_schema W c) routine])
               (world W c)) c.
Proof.
  intros Hc Hs. unfold Client.createRoutine, bind, this, detach, ret, set_path.
  destruct (strict_eq (_schema W c) (VStr "public")); cbn [negb].
  - intros H. by apply raw_unsplit_resolved with (h := h) in H.
  - unfold Client.use, use_with. rewrite set_schema_same.
    destruct (raw_plain_state default_args (search_path (_schema W c)) c h
                eq_refl eq_refl Hc) as (n & Hst & Hpos & _).
    rewrite queries_of_search_path in Hst, Hpos by exact Hs.
    specialize (Hpos ltac:(done)).
    destruct n as [|n]; [lia|]. cbn [take] in Hst. rewrite take_nil in Hst.
    unfold search_path in Hst. rewrite Hst. cbn [_schema set_world].
    intros H. apply raw_unsplit_resolved with (h := h) in H;
      [|reflexivity|exact Hc].
    rewrite H. cbn [world set_world]. by rewrite set_world_twice, sent_app.
Qed.

Lemma dropRoutine_resolved routine c c' v h :
  _connection W c = Some h ->
  dropRoutine routine c = (c', Resolved v) ->
  c' = set_world W
         (sent h (queries_of default_args
                    (dropRoutine_sql (_schema W c) routine))
               (world W c)) c.
Proof.
  intros Hc. unfold Client.dropRoutine, bind, this. intros H.
  by apply raw_default_resolved with (h := h) in H.
Qed.

(** When [alterRoutine] resolves on a client whose schema name holds
    no semicolon, the driver was handed, in this order: the CREATE
    statement of the routine under its temporary name, the statements of
    the DROP of that name, those of the DROP of the old name and the CREATE
    statement of the routine, each CREATE preceded by a SET of the search
    path when the schema is not [public].  The call resolves to
    [undefined] and the schema of the client is as before. *)
Theorem alterRoutine_sends routine c c' v h
  (Hconn : _connection W c = Some h)
  (Hschema : has_char ";" (to_str (_schema W c)) = false)
  (Hdone : alterRoutine routine c = (c', Resolved v)) :
  v = VUndef
  /\ c' = set_world W
            (sent h (set_path (_schema W c)
                     ++ [createRoutine_sql (_schema W c) (tempProcedure routine)]
                     ++ queries_of default_args
                          (dropRoutine_sql (_schema W c)
                             (r_name (tempProcedure routine)))
                     ++ queries_of default_args
                          (dropRoutine_sql (_schema W c) (r_oldName routine))
                     ++ set_path (_schema W c)
                     ++ [createRoutine_sql (_schema W c) routine])
                  (world W c)) c.
Proof.
  unfold Client.alterRoutine in Hdone.
  apply bind_resolved in Hdone as (c1 & v1 & H1 & Hdone).
  apply bind_resolved in Hdone as (c2 & v2 & H2 & Hdone).
  apply bind_resolved in Hdone as (c3 & v3 & H3 & Hdone).
  apply bind_resolved in Hdone as (c4 & v4 & H4 & Hdone).
  injection Hdone as <- <-. split; [reflexivity|].
  apply createRoutine_resolved with (h := h) in H1;
    [subst c1|exact Hconn|exact Hschema].
  apply dropRoutine_resolved with (h := h) in H2; [subst c2|exact Hconn].
  apply dropRoutine_resolved with (h := h) in H3; [subst c3|exact Hconn].
  apply createRoutine_resolved with (h := h) in H4;
    [subst c4|exact Hconn|exact Hschema].
  cbn [world set_world _schema].
  rewrite !set_world_twice, !sent_app. reflexivity.
Qed.

(** *** Reading the answers *)

Local Abbreviation getVersion :=
  (Client.getVersion _reducer types W now drv_query parse).
Local Abbreviation getViewInformations :=
  (Client.getViewInformations _reducer types W now drv_query parse).
Local Abbreviation createTable :=
  (Client.createTable _reducer types W now drv_query parse).

Lemma version_infos_parse (name number more arch os : string) :
  has_char " " name = false -> has_char "," name = false ->
  has_char " " number = false -> has_char "," number = false ->
  has_char "," more = false ->
  has_char "," arch = false -> has_char "," os = false ->
  version_infos (name +:+ " " +:+ number +:+ " " +:+ more
                 +:+ "," +:+ arch +:+ "," +:+ os)
  = VObj (list_to_map [ ("number", VStr number); ("name", VStr name);
                        ("arch", VStr arch); ("os", VStr os) ]).
Proof.
  intros Hn1 Hn2 Hv1 Hv2 Hm Ha Ho. unfold version_infos, piece.
  set (first := name +:+ " " +:+ number +:+ " " +:+ more).
  assert (Hfirst : has_char "," first = false).
  { subst first. rewrite !has_char_app, Hn2, Hv2, Hm. reflexivity. }
  assert (Hsplit : Str.split ","
                     (name +:+ " " +:+ number +:+ " " +:+ more
                      +:+ "," +:+ arch +:+ "," +:+ os)
                   = [first; arch; os]).
  { replace (name +:+ " " +:+ number +:+ " " +:+ more
             +:+ "," +:+ arch +:+ "," +:+ os)
      with (first +:+ String "," (arch +:+ String "," os))
      by (subst first; by rewrite !append_assoc).
    rewrite !split_app, !split_no_sep by assumption. reflexivity. }
  rewrite Hsplit. cbn [head default lookup list_lookup].
  change (id first) with first.
  assert (Hwords : Str.split " " first
                   = name :: number :: Str.split " " more).
  { subst first.
    change (name +:+ " " +:+ number +:+ " " +:+ more)
      with (name +:+ String " " (number +:+ String " " more)).
    rewrite !split_app, !split_no_sep by assumption. reflexivity. }
  rewrite Hwords. reflexivity.
Qed.

(** [getVersion] cuts the text of [version()] at its commas and the
    first piece at its spaces: for a text [name number more,arch,os] whose
    parts hold no further separator it resolves to the four parts, [arch]
    and [os] taken as they stand between the commas. *)
Theorem getVersion_parses c c' v row rest (name number more arch os : string)
  (Hraw : raw default_args "SELECT version()" c = (c', Resolved v))
  (Hrows : rows_of v = VArr (row :: rest))
  (Hversion : member "version" row
              = inr (VStr (name +:+ " " +:+ number +:+ " " +:+ more
                           +:+ "," +:+ arch +:+ "," +:+ os)))
  (Hname : has_char " " name = false /\ has_char "," name = false)
  (Hnumber : has_char " " number = false /\ has_char "," number = false)
  (Hmore : has_char "," more = false)
  (Harch : has_char "," arch = false)
  (Hos : has_char "," os = false) :
  getVersion c
  = (c', Resolved (VObj (list_to_map
                           [ ("number", VStr number); ("name", VStr name);
                             ("arch", VStr arch); ("os", VStr os) ]))).
Proof.
  destruct Hname as [Hn1 Hn2], Hnumber as [Hv1 Hv2].
  unfold Client.getVersion, bind, lift, ret. rewrite Hraw, Hrows.
  cbn -[version_infos append member]. rewrite Hversion.
  by rewrite version_infos_parse.
Qed.

(** When the answer to [SELECT version()] has no row, [getVersion] is
    rejected with a type error. *)
Theorem getVersion_no_rows c c' v
  (Hraw : raw default_args "SELECT version()" c = (c', Resolved v))
  (Hrows : rows_of v = VArr []) :
  getVersion c = (c', Rejected TypeError).
Proof.
  unfold Client.getVersion, bind, lift. by rewrite Hraw, Hrows.
Qed.

(** For a view the catalogue does not list, [getViewInformations]
    resolves to [undefined]; for one it lists, to the record built from the
    first row, whose [sql] is the definition and whose [name] is the name
    asked for. *)
Theorem getViewInformations_first_row schema view c c' v
  (Hraw : raw default_args (view_informations_sql schema view) c
          = (c', Resolved v)) :
  (rows_of v = VArr [] ->
   getViewInformations schema view c = (c', Resolved VUndef))
  /\ (forall row, rows_of v = VArr [VObj row] ->
        getViewInformations schema view c
        = (c', Resolved (VObj (list_to_map
                                 [ ("algorithm", VStr EmptyString);
                                   ("definer", VStr EmptyString);
                                   ("security", VStr EmptyString);
                                   ("updateOption", VStr EmptyString);
                                   ("sql", prop "definition" row);
                                   ("name", view) ])))).
Proof.
  split.
  - intros Hrows. unfold Client.getViewInformations, bind, lift, ret.
    by rewrite Hraw, Hrows.
  - intros row Hrows. unfold Client.getViewInformations, bind, lift, ret.
    by rewrite Hraw, Hrows.
Qed.

Lemma raw_results_length a sql c c' v :
  raw a sql c = (c', Resolved v) ->
  exists resultsArr,
    v = returned resultsArr /\ length resultsArr = length (queries_of a sql).
Proof.
  intros Hraw. rewrite raw_unfold in Hraw. cbv zeta in Hraw.
  destruct (statements raw_plain a (queries_of a sql) [] _)
    as [c1 [rs|e|]] eqn:E; try discriminate.
  injection Hraw as _ <-. exists rs. split; [reflexivity|].
  by apply statements_length in E; [|apply queries_of_nonempty].
Qed.

Lemma createTable_queries schema name :
  has_char ";" (to_str schema) = false ->
  has_char ";" (to_str name) = false ->
  queries_of default_args (createTable_sql schema name)
  = [ "CREATE TABLE " +:+ to_str schema +:+ "." +:+ to_str name
      +:+ " (" +:+ to_str name +:+ "_id INTEGER NULL)";
      " ALTER TABLE " +:+ to_str schema +:+ "." +:+ to_str name
      +:+ " DROP COLUMN " +:+ to_str name +:+ "_id" ].
Proof.
  intros Hs Hn. unfold queries_of, createTable_sql. cbn [split default_args].
  set (s1 := "CREATE TABLE " +:+ to_str schema +:+ "." +:+ to_str name
             +:+ " (" +:+ to_str name +:+ "_id INTEGER NULL)").
  set (s2 := " ALTER TABLE " +:+ to_str schema +:+ "." +:+ to_str name
             +:+ " DROP COLUMN " +:+ to_str name +:+ "_id").
  replace ("CREATE TABLE " +:+ to_str schema +:+ "." +:+ to_str name
           +:+ " (" +:+ to_str name +:+ "_id INTEGER NULL); ALTER TABLE "
           +:+ to_str schema +:+ "." +:+ to_str name
           +:+ " DROP COLUMN " +:+ to_str name +:+ "_id")
    with (s1 +:+ String ";" s2).
  2:{ subst s1 s2. rewrite !append_assoc. reflexivity. }
  rewrite split_app, !split_no_sep.
  - reflexivity.
  - subst s2. by rewrite !has_char_app, Hs, Hn.
  - subst s1. by rewrite !has_char_app, Hs, Hn.
Qed.

(** [createTable] sends two statements, the CREATE TABLE with a
    placeholder column and the ALTER TABLE that drops it: when the schema
    and the name hold no semicolon and the call resolves, it resolves to
    the sequence of their two results. *)
Theorem createTable_two_results name c c' v
  (Hschema : has_char ";" (to_str (_schema W c)) = false)
  (Hname : has_char ";" (to_str name) = false)
  (Hdone : createTable name c = (c', Resolved v)) :
  exists create drop, v = VArr [VObj create; VObj drop].
Proof.
  unfold Client.createTable, bind, this in Hdone.
  apply raw_results_length in Hdone as (rs & -> & Hlen).
  rewrite createTable_queries in Hlen by assumption.
  destruct rs as [|r1 [|r2 [|r3 rs]]]; try discriminate.
  by exists r1, r2.
Qed.

(** *** A diff that asks for nothing *)

Lemma alterTable_sql_empty dataTypes schema p :
  empty_diff p -> Alter.alterTable_sql dataTypes schema p = inr EmptyString.
Proof.
  destruct p as [tbl cols idx fk o]. unfold empty_diff. cbn.
  intros (-> & -> & -> & Ho & Hname).
  destruct o as [oc oe oa ol on]. cbn in Ho, Hname.
  injection Ho as -> -> -> ->.
  unfold Alter.alterTable_sql, Alter.collect, Alter.assemble. cbn.
  by rewrite Hname.
Qed.

(** For a diff that asks for nothing (no column, index or foreign key
    added, changed or dropped, no option, no new name), [alterTable] hands
    nothing to the driver: it resolves to the empty sequence and leaves the
    client as it was, with or without a connection. *)
Theorem alterTable_empty_diff dataTypes p c (Hempty : empty_diff p) :
  Client.alterTable _reducer types W now drv_query parse dataTypes p c
  = (c, Resolved (VArr [])).
Proof.
  unfold Client.alterTable, bind, this, lift.
  rewrite (alterTable_sql_empty dataTypes (_schema W c) p Hempty).
  by rewrite raw_unfold.
Qed.

(** *** The table of a result field *)

Lemma statements_pairs (P : string -> obj -> Prop) inner a :
  (forall query c c' result,
      statement inner a query c = (c', Resolved result) -> P query result) ->
  forall queries resultsArr c c' results,
    Forall (fun q => Str.is_empty q = false) queries ->
    statements inner a queries resultsArr c = (c', Resolved results) ->
    exists new, results = resultsArr ++ new /\ Forall2 P queries new.
Proof.
  intros HP queries.
  induction queries as [|query rest IH]; intros resultsArr c c' results Hq;
    simpl.
  - intros [= _ <-]. exists []. by rewrite app_nil_r.
  - inversion Hq as [|? ? Hne Hrest]; subst. rewrite Hne.
    intros H. apply bind_resolved in H as (c1 & r & Hr & H).
    apply IH in H as (new & -> & Hnew); [|exact Hrest].
    exists (r :: new). split; [by rewrite <- app_assoc|].
    constructor; [by eapply HP|exact Hnew].
Qed.

Lemma remap_field_first_from query from0 tablesInfo this_schema field field' :
  from_first parse query from0 ->
  remap_field types false
    (match parse query with Some (x :: _) => Some x | _ => None end)
    tablesInfo this_schema field = inr (Some field') ->
  attributed from0 field'.
Proof.
  intros (more & rest & Hp). rewrite Hp. unfold remap_field.
  destruct (negb (truthy field) || is_array field); [discriminate|].
  cbn [origin]. intros [= <-]. unfold attributed, prop.
  split; [|split; [|split]].
  - do 3 (rewrite lookup_insert_ne by done). by rewrite lookup_insert_eq.
  - do 1 (rewrite lookup_insert_ne by done). by rewrite lookup_insert_eq.
  - do 2 (rewrite lookup_insert_ne by done). by rewrite lookup_insert_eq.
  - intros Has. do 2 (rewrite lookup_insert_ne by done).
    by rewrite lookup_insert_eq, Has.
Qed.

Lemma statement_first_from inner a query c c' result :
  nest a = false -> details a = false ->
  statement inner a query c = (c', Resolved result) ->
  forall from0, from_first parse query from0 ->
    exists fields, result !! "fields" = Some (VArr (VObj <$> fields))
                   /\ Forall (attributed from0) fields.
Proof.
  intros Hn Hd. unfold Client.statement.
  destruct (_connection W c) as [h|]; [|discriminate].
  rewrite Hn.
  destruct (drv_query h false query (world W c)) as [w [err|res]];
    [discriminate|].
  unfold Client.callback, bind, ret, this, lift. rewrite Hn, Hd. simpl.
  destruct (mapM _ (res_fields res)) as [e|remapped] eqn:E; [discriminate|].
  intros [= _ <-] from0 Hfrom. exists (omap id remapped). split.
  - do 3 (rewrite lookup_insert_ne by done). by rewrite lookup_insert_eq.
  - apply Forall_forall. intros f Hin.
    apply list_elem_of_omap in Hin as (o & Hin & Ho). simpl in Ho. subst o.
    apply mapM_inr in E.
    apply list_elem_of_lookup in Hin as [i Hi].
    destruct (Forall2_lookup_r _ _ _ _ _ E Hi) as (x & _ & Hx).
    by apply (remap_field_first_from _ _ _ _ _ _ Hfrom Hx).
Qed.

(** Without [nest] and [details], every field of a statement result is
    attributed to the first item of the statement's FROM list, also a
    column that comes from another table of the list: its [table] and
    [orgTable] are that item's [name], and its [tableAlias] is what that
    item holds under the key [as], so it is [undefined] whenever the parser
    keeps the alias of the item under another key. *)
Theorem raw_fields_first_from a sql c c' v
  (Hnest : nest a = false) (Hdetails : details a = false)
  (Hraw : raw a sql c = (c', Resolved v)) :
  exists resultsArr,
    v = returned resultsArr
    /\ Forall2 (fun query result =>
                  forall from0, from_first parse query from0 ->
                    exists fields,
                      result !! "fields" = Some (VArr (VObj <$> fields))
                      /\ Forall (attributed from0) fields)
               (queries_of a sql) resultsArr.
Proof.
  rewrite raw_unfold in Hraw. cbv zeta in Hraw.
  destruct (statements raw_plain a (queries_of a sql) [] _)
    as [c1 [rs|e|]] eqn:E; try discriminate.
  injection Hraw as _ <-. exists rs. split; [reflexivity|].
  apply (statements_pairs
           (fun query result =>
              forall from0, from_first parse query from0 ->
                exists fields,
                  result !! "fields" = Some (VArr (VObj <$> fields))
                  /\ Forall (attributed from0) fields)) in E
    as (new & Hnew & HP).
  - simpl in Hnew. by subst rs.
  - intros query c2 c3 result Hs. by eapply statement_first_from.
  - apply queries_of_nonempty.
Qed.

(** *** Rows or report *)

Lemma callback_rows_or_report inner a query d res c c' rej result :
  callback inner a query d res c = (c', Resolved (rej, result)) ->
  rows_or_report result.
Proof.
  unfold Client.callback. intros H.
  apply bind_resolved in H as (c1 & shaped & _ & H).
  apply bind_resolved in H as (c2 & c3 & _ & H).
  apply bind_resolved in H as (c4 & remapped & _ & H).
  apply bind_resolved in H as (c5 & enriched & _ & H).
  injection H as _ _ <-. unfold rows_or_report.
  eexists _, _. split; [|split].
  - rewrite lookup_insert_ne by done. by rewrite lookup_insert_eq.
  - do 2 (rewrite lookup_insert_ne by done). by rewrite lookup_insert_eq.
  - destruct (fst shaped) as [| |b|n|s|l|o]; cbn [is_array];
      try (right; by split).
    left. split; [|reflexivity]. by destruct (existsb is_array l).
Qed.

Lemma statement_rows_or_report inner a query c c' result :
  statement inner a query c = (c', Resolved result) -> rows_or_report result.
Proof.
  unfold Client.statement.
  destruct (_connection W c) as [h|]; [|discriminate].
  destruct (drv_query h (nest a) query (world W c)) as [w [err|res]];
    [discriminate|].
  destruct (callback inner a query _ res _) as [c1 [[[e|] r]|e|]] eqn:E;
    try discriminate.
  intros [= <- <-]. by apply callback_rows_or_report in E.
Qed.

Lemma callback_shaped inner a query d res c c' rej result :
  nest a = false ->
  callback inner a query d res c = (c', Resolved (rej, result)) ->
  shaped (res_rows res) result.
Proof.
  intros Hn. unfold Client.callback. rewrite Hn. intros H.
  apply bind_resolved in H as (c1 & sh & Hsh & H).
  injection Hsh as _ <-.
  apply bind_resolved in H as (c2 & c3 & _ & H).
  apply bind_resolved in H as (c4 & remapped & _ & H).
  apply bind_resolved in H as (c5 & enriched & _ & H).
  injection H as _ _ <-. cbn [fst]. unfold shaped.
  destruct (res_rows res) as [| |b|n|s|l|o]; cbn [is_array]; split;
    first [ rewrite lookup_insert_ne by done; by rewrite lookup_insert_eq
          | do 2 (rewrite lookup_insert_ne by done);
            by rewrite lookup_insert_eq ].
Qed.

Lemma statement_shaped inner a query c c' result h :
  nest a = false -> _connection W c = Some h ->
  statement inner a query c = (c', Resolved result) ->
  exists res,
    snd (drv_query h false query (world W c)) = inr res
    /\ shaped (res_rows res) result.
Proof.
  intros Hn Hc. unfold Client.statement. rewrite Hc, Hn.
  destruct (drv_query h false query (world W c)) as [w [err|res]];
    [discriminate|].
  destruct (callback inner a query _ res _) as [c1 [[[e|] r]|e|]] eqn:E;
    try discriminate.
  intros [= <- <-]. exists res. split; [reflexivity|].
  by apply callback_shaped in E.
Qed.

Lemma statements_shaped inner a h :
  nest a = false -> details a = false ->
  forall queries resultsArr c c' results,
    _connection W c = Some h ->
    Forall (fun q => Str.is_empty q = false) queries ->
    statements inner a queries resultsArr c = (c', Resolved results) ->
    exists new,
      results = resultsArr ++ new
      /\ forall i query result,
           queries !! i = Some query -> new !! i = Some result ->
           exists res,
             snd (drv_query h false query
                    (sent h (take i queries) (world W c))) = inr res
             /\ shaped (res_rows res) result.
Proof.
  intros Hn Hd. induction queries as [|q qs IH];
    intros rs c c' results Hc Hq; simpl.
  - intros [= _ <-]. exists []. split; [by rewrite app_nil_r|].
    intros i query result Hi. by rewrite lookup_nil in Hi.
  - inversion Hq as [|? ? Hne Hqs]; subst. rewrite Hne. intros H.
    apply bind_resolved in H as (c1 & r & Hr & H).
    pose proof (statement_plain_state inner a q c h Hn Hd Hc) as Hs.
    rewrite Hr in Hs. simpl in Hs. subst c1.
    destruct (IH _ (set_world W (send h (world W c) q) c) _ _ Hc Hqs H)
      as (new & -> & Hnew).
    exists (r :: new). split; [by rewrite <- app_assoc|].
    intros [|i] query result Hi Hres; simpl in Hi, Hres.
    + injection Hi as <-. injection Hres as <-.
      by apply (statement_shaped inner a q c _ r h Hn Hc Hr).
    + by apply (Hnew i query result Hi Hres).
Qed.

(** Every statement result [raw] produces holds either rows or a
    report, never both, whatever the options.  Without [nest] and
    [details] on a live handle, the result of each statement shows what
    the driver answered to that statement, handed over after the
    statements before it: a sequence of rows is shown as [rows] (the empty
    sequence in its place when one of its elements is itself a sequence)
    and [report] is [false]; anything else the driver gave for rows is
    shown as [report] and [rows] is [false]. *)
Theorem raw_rows_or_report a sql c c' v
  (Hraw : raw a sql c = (c', Resolved v)) :
  exists resultsArr,
    v = returned resultsArr
    /\ Forall rows_or_report resultsArr
    /\ (forall h,
          nest a = false -> details a = false -> _connection W c = Some h ->
          forall i query result,
            queries_of a sql !! i = Some query ->
            resultsArr !! i = Some result ->
            exists res,
              snd (drv_query h false query
                     (sent h (take i (queries_of a sql)) (world W c)))
              = inr res
              /\ shaped (res_rows res) result).
Proof.
  rewrite raw_unfold in Hraw. cbv zeta in Hraw.
  destruct (statements raw_plain a (queries_of a sql) [] _)
    as [c1 [rs|e|]] eqn:E; try discriminate.
  injection Hraw as _ <-. exists rs. split; [reflexivity|]. split.
  - apply (statements_results rows_or_report) in E; [exact E| |constructor].
    intros query c2 c3 result. apply statement_rows_or_report.
  - intros h Hn Hd Hc. rewrite Hn in E. cbn [andb] in E.
    destruct (statements_shaped raw_plain a h Hn Hd _ _ _ _ _ Hc
                (queries_of_nonempty a sql) E) as (new & Hnew & Hall).
    simpl in Hnew. subst rs. exact Hall.
Qed.

(** *** Clients that cannot be used *)

Local Abbreviation use := (Client.use _reducer types W now drv_query parse).
Local Abbreviation getTableByIDs :=
  (Client.getTableByIDs _reducer types W now drv_query parse).
Local Abbreviation getTableColumns :=
  (Client.getTableColumns _reducer types W now drv_query parse).
Local Abbreviation getKeyUsage :=
  (Client.getKeyUsage _reducer types W now drv_query parse).
Local Abbreviation alterTable :=
  (Client.alterTable _reducer types W now drv_query parse).
Local Abbreviation getUsers :=
  (Client.getUsers _reducer types W now drv_query parse).
Local Abbreviation getVariables :=
  (Client.getVariables _reducer types W now drv_query parse).

Lemma queries_of_has_char a sql ch :
  ch <> ";"%char -> has_char ch sql = true -> queries_of a sql <> [].
Proof.
  intros Hch. unfold queries_of. destruct (split a).
  - induction sql as [|x s IH]; [discriminate|]. cbn [has_char Str.split].
    destruct (Ascii.eqb x ";") eqn:Ex.
    + apply Ascii.eqb_eq in Ex as ->.
      destruct (Ascii.eqb ";" ch) eqn:E;
        [by apply Ascii.eqb_eq in E; subst|].
      cbn [orb]. intros H. rewrite filter_cons.
      case_decide as Hd; [done|]. by apply IH.
    + intros _. destruct (Str.split ";" s) as [|piece pieces];
        rewrite filter_cons; case_decide as Hd; done.
  - destruct sql as [|x s]; [discriminate|]. intros _.
    rewrite filter_cons. by case_decide.
Qed.

Lemma raw_no_statements a sql c :
  queries_of a sql = [] -> snd (raw a sql c) = Resolved (VArr []).
Proof. intros Hq. by rewrite raw_unfold, Hq. Qed.

Lemma statement_unusable inner a query c :
  unusable drv_query c ->
  exists c' e,
    statement inner a query c = (c', Rejected e)
    /\ _connection W c' = _connection W c /\ failure c e.
Proof.
  intros Hu. unfold Client.statement, failure.
  destruct (_connection W c) as [h|] eqn:Hc.
  - destruct (Hu h Hc (nest a) query (world W c)) as [err Herr].
    destruct (drv_query h (nest a) query (world W c)) as [w [e|res]];
      simpl in Herr; [|discriminate].
    exists (set_world W w c), (DriverError e).
    split; [reflexivity|]. split; [exact Hc|by exists e].
  - by exists c, TypeError.
Qed.

Lemma fails_same {A : Type} (c c' : client) (o : outcome A) :
  _connection W c' = _connection W c -> fails c' o -> fails c o.
Proof.
  intros Hc (e & -> & He). exists e. split; [reflexivity|].
  unfold failure in *. by rewrite <- Hc.
Qed.

Lemma unusable_same (c c' : client) :
  _connection W c' = _connection W c ->
  unusable drv_query c -> unusable drv_query c'.
Proof. intros Hc Hu h Hh. apply Hu. by rewrite <- Hc. Qed.

Lemma raw_unusable a sql c :
  unusable drv_query c -> queries_of a sql <> [] ->
  fails c (snd (raw a sql c)).
Proof.
  intros Hu Hq. rewrite raw_unfold. cbv zeta.
  set (c0 := if nest a && negb (strict_eq (_schema W c) (VStr "public"))
             then fst (use_with W raw_plain (_schema W c) c) else c).
  assert (Hc0 : _connection W c0 = _connection W c).
  { subst c0. destruct (_ && _); [|reflexivity].
    apply (keeps_use (_connection W)); try done.
    intros text c1. rewrite <- raw_default. apply raw_keeps_connection. }
  apply (fails_same c c0 _ Hc0).
  destruct (queries_of a sql) as [|query rest] eqn:Eq; [done|].
  assert (E : Str.is_empty query = false).
  { pose proof (queries_of_nonempty a sql) as H. rewrite Eq in H.
    by inversion H. }
  simpl. rewrite E. unfold bind.
  destruct (statement_unusable raw_plain a query c0
              (unusable_same c c0 Hc0 Hu)) as (c1 & e & -> & _ & He).
  by exists e.
Qed.

Lemma fails_bind {A B : Type} (m : M A) (k : A -> M B) c :
  fails c (snd (m c)) -> fails c (snd (bind W m k c)).
Proof.
  intros (e & He & Hf). unfold bind.
  destruct (m c) as [c1 [x|e'|]]; simpl in He; try discriminate.
  injection He as ->. by exists e.
Qed.

Lemma use_unusable schema c :
  unusable drv_query c -> fails c (snd (use schema c)).
Proof.
  intros Hu. unfold Client.use, use_with.
  apply (fails_same c (set_schema W schema c)); [reflexivity|].
  apply raw_unusable; [exact Hu|].
  by apply (queries_of_has_char _ _ "S").
Qed.

Lemma getTableByIDs_unusable ids c :
  truthy ids = true -> unusable drv_query c ->
  fails c (snd (getTableByIDs ids c)).
Proof.
  intros Hids Hu. unfold Client.getTableByIDs, getTableByIDs_with.
  rewrite Hids. cbn [negb]. apply fails_bind, raw_unusable; [exact Hu|].
  apply (queries_of_has_char _ _ "S"); [done|].
  unfold table_by_ids_sql. by rewrite has_char_app.
Qed.

Lemma getKeyUsage_unusable schema table c :
  unusable drv_query c -> fails c (snd (getKeyUsage schema table c)).
Proof.
  intros Hu. unfold Client.getKeyUsage, getKeyUsage_with.
  apply fails_bind, raw_unusable; [exact Hu|].
  apply (queries_of_has_char _ _ "S"); [done|].
  unfold key_usage_sql. by rewrite has_char_app.
Qed.

Lemma getTableIndexes_unusable schema table c :
  unusable drv_query c -> fails c (snd (getTableIndexes schema table c)).
Proof.
  intros Hu. unfold Client.getTableIndexes, getTableIndexes_with.
  unfold bind at 1.
  set (before := if negb (strict_eq schema (VStr "public"))
                 then detach W (use_with W (raw default_args) schema)
                 else ret W tt).
  assert (Hk : keeps (_connection W) before).
  { subst before. apply keeps_if; [|apply keeps_ret].
    apply keeps_detach, (keeps_use (_connection W)); try done.
    intros text. apply raw_keeps_connection. }
  assert (Hr : exists c1, before c = (c1, Resolved tt)).
  { subst before. destruct (negb _); by eexists. }
  destruct Hr as [c1 Hr]. specialize (Hk c). rewrite Hr in *. simpl in Hk.
  apply (fails_same c c1 _ Hk), fails_bind, raw_unusable;
    [by apply (unusable_same c)|].
  apply (queries_of_has_char _ _ "W"); [done|].
  unfold table_indexes_sql. by rewrite has_char_app.
Qed.

Lemma getSQL_has_space (q : Builder.query) :
  truthy (Builder.q_from q) = true ->
  has_char " " (Builder.getSQL _reducer q) = true.
Proof.
  intros Hfrom. unfold Builder.getSQL. rewrite !has_char_app.
  assert (H : has_char " " (Builder.fromRaw q) = true).
  { unfold Builder.fromRaw. rewrite Hfrom, has_char_app.
    apply orb_true_iff. right. reflexivity. }
  rewrite H. by rewrite !orb_true_r.
Qed.

Lemma getTableColumns_unusable schema table arrayRemap c :
  unusable drv_query c ->
  fails c (snd (getTableColumns schema table arrayRemap c)).
Proof.
  intros Hu. unfold Client.getTableColumns, getTableColumns_with.
  set (q := columns_query schema table (_query W c)).
  apply (fails_same c (set_query W q c)); [reflexivity|].
  apply fails_bind. unfold run_with.
  apply (fails_same (set_query W q c)
           (set_query W Builder.empty_query (set_query W q c)));
    [reflexivity|].
  apply raw_unusable; [exact Hu|].
  apply (queries_of_has_char _ _ " "); [done|].
  by apply getSQL_has_space.
Qed.

Lemma getUsers_unusable c :
  unusable drv_query c -> fails c (snd (getUsers c)).
Proof.
  intros Hu. unfold Client.getUsers.
  apply fails_bind, raw_unusable; [exact Hu|].
  by apply (queries_of_has_char _ _ "S").
Qed.

Lemma getVariables_unusable c :
  unusable drv_query c -> fails c (snd (getVariables c)).
Proof.
  intros Hu. unfold Client.getVariables.
  apply fails_bind, raw_unusable; [exact Hu|].
  by apply (queries_of_has_char _ _ "S").
Qed.

Lemma getVersion_unusable c :
  unusable drv_query c -> fails c (snd (getVersion c)).
Proof.
  intros Hu. unfold Client.getVersion.
  apply fails_bind, raw_unusable; [exact Hu|].
  by apply (queries_of_has_char _ _ "S").
Qed.

Lemma getViewInformations_unusable schema view c :
  unusable drv_query c -> fails c (snd (getViewInformations schema view c)).
Proof.
  intros Hu. unfold Client.getViewInformations.
  apply fails_bind, raw_unusable; [exact Hu|].
  apply (queries_of_has_char _ _ "S"); [done|].
  unfold view_informations_sql. by rewrite has_char_app.
Qed.

Lemma alterTable_outcome dataTypes p c :
  snd (alterTable dataTypes p c)
  = match Alter.alterTable_sql dataTypes (_schema W c) p with
    | inl e => Rejected e
    | inr text => snd (raw default_args text c)
    end.
Proof.
  unfold Client.alterTable, bind, this, lift.
  by destruct (Alter.alterTable_sql dataTypes (_schema W c) p).
Qed.

Lemma fails_unconnected {A : Type} (c : client) (o : outcome A) :
  _connection W c = None -> fails c o -> o = Rejected TypeError.
Proof.
  intros Hc (e & -> & He). unfold failure in He. rewrite Hc in He.
  by rewrite He.
Qed.

Lemma fails_ended {A : Type} (c : client) (o : outcome A) h :
  _connection W c = Some h -> fails c o -> driver_error o.
Proof.
  intros Hc (e & -> & He). unfold failure in He. rewrite Hc in He.
  destruct He as [err ->]. by exists err.
Qed.

(** C9, as the code has it.  [raw] never establishes or replaces the
    connection handle.  On a client without a handle, a call of [raw]
    that has a non-empty statement to run is rejected, whatever its
    options, with the type error of the missing handle, and a call that has
    none resolves to the empty sequence; [use], [getTableByIDs] (for ids
    given), [getTableColumns], [getTableIndexes], [getKeyUsage],
    [getUsers], [getVariables], [getVersion] and [getViewInformations] are
    rejected with that type error, and [alterTable] ends as [raw] does on
    the text it built.  [destroy] ends the handle and leaves it in place:
    on a driver that refuses every statement on an ended handle, the same
    calls on the destroyed client are rejected with the error of the
    driver, and a call of [raw] with no statement to run resolves to the
    empty sequence. *)
Theorem raw_without_connection a sql :
  keeps (_connection W) (raw a sql)
  /\ (forall c,
         _connection W c = None ->
         snd (raw a sql c)
         = match queries_of a sql with
           | [] => Resolved (VArr [])
           | _ => Rejected TypeError
           end
         /\ (forall schema, snd (use schema c) = Rejected TypeError)
         /\ (forall ids, truthy ids = true ->
                         snd (getTableByIDs ids c) = Rejected TypeError)
         /\ (forall schema table arrayRemap,
                snd (getTableColumns schema table arrayRemap c)
                = Rejected TypeError)
         /\ (forall schema table,
                snd (getTableIndexes schema table c) = Rejected TypeError)
         /\ (forall schema table,
                snd (getKeyUsage schema table c) = Rejected TypeError)
         /\ snd (getUsers c) = Rejected TypeError
         /\ snd (getVariables c) = Rejected TypeError
         /\ snd (getVersion c) = Rejected TypeError
         /\ (forall schema view,
                snd (getViewInformations schema view c) = Rejected TypeError)
         /\ (forall dataTypes p,
                snd (alterTable dataTypes p c)
                = match Alter.alterTable_sql dataTypes (_schema W c) p with
                  | inl e => Rejected e
                  | inr text =>
                      match queries_of default_args text with
                      | [] => Resolved (VArr [])
                      | _ => Rejected TypeError
                      end
                  end))
  /\ (forall c h,
         _connection W c = Some h ->
         _connection W (fst (destroy W drv_end c))
         = Some {| pooled := pooled h; ended := true |})
  /\ (refuses_ended drv_query ->
      forall c h,
        _connection W c = Some h ->
        let destroyed := fst (destroy W drv_end c) in
        (queries_of a sql <> [] -> driver_error (snd (raw a sql destroyed)))
        /\ (queries_of a sql = [] ->
            snd (raw a sql destroyed) = Resolved (VArr []))
        /\ (forall schema, driver_error (snd (use schema destroyed)))
        /\ (forall ids, truthy ids = true ->
                        driver_error (snd (getTableByIDs ids destroyed)))
        /\ (forall schema table arrayRemap,
               driver_error
                 (snd (getTableColumns schema table arrayRemap destroyed)))
        /\ (forall schema table,
               driver_error (snd (getTableIndexes schema table destroyed)))
        /\ (forall schema table,
               driver_error (snd (getKeyUsage schema table destroyed)))
        /\ driver_error (snd (getUsers destroyed))
        /\ driver_error (snd (getVariables destroyed))
        /\ driver_error (snd (getVersion destroyed))
        /\ (forall schema view,
               driver_error (snd (getViewInformations schema view destroyed)))
        /\ (forall dataTypes p text,
               Alter.alterTable_sql dataTypes (_schema W destroyed) p
               = inr text ->
               queries_of default_args text <> [] ->
               driver_error (snd (alterTable dataTypes p destroyed)))).
Proof.
  split; [apply raw_keeps_connection|]. split; [|split].
  - intros c Hc.
    assert (Hu : unusable drv_query c) by (intros h Hh; congruence).
    assert (Hraw : forall a' text,
               snd (raw a' text c)
               = match queries_of a' text with
                 | [] => Resolved (VArr [])
                 | _ => Rejected TypeError
                 end).
    { intros a' text. destruct (queries_of a' text) as [|q qs] eqn:Eq.
      - by apply raw_no_statements.
      - apply (fails_unconnected c _ Hc), raw_unusable; [exact Hu|].
        by rewrite Eq. }
    split; [apply Hraw|].
    split; [intros; by apply (fails_unconnected c _ Hc), use_unusable|].
    split; [intros; by apply (fails_unconnected c _ Hc),
                       getTableByIDs_unusable|].
    split; [intros; by apply (fails_unconnected c _ Hc),
                       getTableColumns_unusable|].
    split; [intros; by apply (fails_unconnected c _ Hc),
                       getTableIndexes_unusable|].
    split; [intros; by apply (fails_unconnected c _ Hc),
                       getKeyUsage_unusable|].
    split; [by apply (fails_unconnected c _ Hc), getUsers_unusable|].
    split; [by apply (fails_unconnected c _ Hc), getVariables_unusable|].
    split; [by apply (fails_unconnected c _ Hc), getVersion_unusable|].
    split; [intros; by apply (fails_unconnected c _ Hc),
                       getViewInformations_unusable|].
    intros dataTypes p. rewrite alterTable_outcome.
    destruct (Alter.alterTable_sql dataTypes (_schema W c) p); [reflexivity|].
    apply Hraw.
  - intros c h Hc. unfold destroy. by rewrite Hc.
  - intros Hrefuses c h Hc destroyed.
    assert (Hd : _connection W destroyed
                 = Some {| pooled := pooled h; ended := true |}).
    { subst destroyed. unfold destroy. by rewrite Hc. }
    assert (Hu : unusable drv_query destroyed).
    { intros h' Hh' arrayMode text w. apply Hrefuses.
      rewrite Hd in Hh'. by injection Hh' as <-. }
    split; [intros Hq; by apply (fails_ended destroyed _ _ Hd),
                          raw_unusable|].
    split; [apply raw_no_statements|].
    split; [intros; by apply (fails_ended destroyed _ _ Hd), use_unusable|].
    split; [intros; by apply (fails_ended destroyed _ _ Hd),
                       getTableByIDs_unusable|].
    split; [intros; by apply (fails_ended destroyed _ _ Hd),
                       getTableColumns_unusable|].
    split; [intros; by apply (fails_ended destroyed _ _ Hd),
                       getTableIndexes_unusable|].
    split; [intros; by apply (fails_ended destroyed _ _ Hd),
                       getKeyUsage_unusable|].
    split; [by apply (fails_ended destroyed _ _ Hd), getUsers_unusable|].
    split; [by apply (fails_ended destroyed _ _ Hd), getVariables_unusable|].
    split; [by apply (fails_ended destroyed _ _ Hd), getVersion_unusable|].
    split; [intros; by apply (fails_ended destroyed _ _ Hd),
                       getViewInformations_unusable|].
    intros dataTypes p text Htext Hq. rewrite alterTable_outcome, Htext.
    by apply (fails_ended destroyed _ _ Hd), raw_unusable.
Qed.

(** *** The tables of a result *)

Lemma table_by_id_rows rows :
  Forall (fun row => exists o, row = VObj o) rows ->
  forall acc : obj,
    exists o : obj,
      fold_left table_by_id_row rows (inr acc) = inr o
      /\ forall key, o !! key = match last_row key rows with
                                | Some row => Some (table_entry row)
                                | None => acc !! key
                                end.
Proof.
  induction 1 as [|row rows [ro ->] _ IH]; intros acc.
  - exists acc. by split.
  - cbn [fold_left table_by_id_row member].
    destruct (IH (<[to_str (prop "tableid" ro) :=
                      VObj (<["schema" := get "schemaname" (VObj ro)]>
                           (<["table" := get "relname" (VObj ro)]> ∅))]> acc))
      as (o & Ho & Hkeys).
    exists o. split; [exact Ho|]. intros key. rewrite Hkeys.
    unfold last_row. rewrite filter_cons. cbn [get].
    case_decide as Hd.
    + destruct (filter _ rows) as [|r rs] eqn:Hf.
      * cbn [last]. subst key. by rewrite lookup_insert_eq.
      * change (last (VObj ro :: r :: rs)) with (last (r :: rs)).
        rewrite !last_cons. by destruct (last rs).
    + destruct (last (filter _ rows)); [reflexivity|].
      by rewrite lookup_insert_ne.
Qed.

(** [getTableByIDs] resolves to an object with one entry per table
    identifier of the answer, keyed by the identifier's text: the entry
    holds the schema and the table name of the last row with that
    identifier, so where the two catalogues of the UNION both list a table
    the later row wins; identifiers the answer does not list have no
    entry. *)
Theorem getTableByIDs_last_row ids c c' result rows
  (Hids : truthy ids = true)
  (Hraw : raw default_args (table_by_ids_sql ids) c = (c', Resolved result))
  (Hrows : rows_of result = VArr rows)
  (Hobjects : Forall (fun row => exists o, row = VObj o) rows) :
  exists o : obj,
    getTableByIDs ids c = (c', Resolved (VObj o))
    /\ forall key, o !! key = table_entry <$> last_row key rows.
Proof.
  destruct (table_by_id_rows rows Hobjects ∅) as (o & Ho & Hkeys).
  exists o. split.
  - unfold Client.getTableByIDs, getTableByIDs_with. rewrite Hids.
    cbn [negb]. unfold bind. rewrite Hraw, Hrows. unfold bind, lift, ret.
    by rewrite Ho.
  - intros key. rewrite Hkeys. by destruct (last_row key rows).
Qed.

End ClientFacts.

(** ** What the driver is handed *)

Section StepFacts.

Import Client RawSpec Recording.

Variable _reducer : list value -> Builder.clause -> list value.
Variable types : obj.
Variable W : Type.
Variable now : W -> Z.
Variable drv_query : handle -> bool -> string -> W -> W * (value + pg_result).
Variable parse : string -> option (list ast).

Variable R : Client.client W -> Client.client W -> Prop.
Hypothesis R_refl : forall c, R c c.
Hypothesis R_trans : forall c1 c2 c3, R c1 c2 -> R c2 c3 -> R c1 c3.
Hypothesis R_query : forall q c, R c (set_query W q c).
Hypothesis R_schema : forall s c, R c (set_schema W s c).

Local Abbreviation M := (Client.M W).
Local Abbreviation client := (Client.client W).
Local Abbreviation steps := (Recording.steps W R).
Local Abbreviation sendable := (Recording.sendable W drv_query R).
Local Abbreviation callback := (Client.callback _reducer types W parse).
Local Abbreviation statement :=
  (Client.statement _reducer types W now drv_query parse).
Local Abbreviation statements :=
  (Client.statements _reducer types W now drv_query parse).
Local Abbreviation raw_with :=
  (Client.raw_with _reducer types W now drv_query parse).
Local Abbreviation raw_plain :=
  (Client.raw_plain _reducer types W now drv_query parse).
Local Abbreviation raw := (Client.raw _reducer types W now drv_query parse).

Hypothesis pieces_sendable :
  forall text query,
    query ∈ Str.split ";" text -> Str.is_empty query = false -> sendable query.

Lemma steps_ret {A : Type} (a : A) : steps (ret W a).
Proof. intros c. apply R_refl. Qed.

Lemma steps_lift {A : Type} (x : throws A) : steps (lift W x).
Proof. intros c. apply R_refl. Qed.

Lemma steps_this : steps (this W).
Proof. intros c. apply R_refl. Qed.

Lemma steps_bind {A B : Type} (m : M A) (k : A -> M B) :
  steps m -> (forall a, steps (k a)) -> steps (bind W m k).
Proof.
  intros Hm Hk c. unfold bind. specialize (Hm c).
  destruct (m c) as [c1 [a|e|]]; simpl in *; [|done..].
  eapply R_trans; [exact Hm|apply Hk].
Qed.

Lemma steps_try_catch {A : Type} (m : M A) : steps m -> steps (try_catch W m).
Proof.
  intros Hm c. unfold try_catch. specialize (Hm c).
  by destruct (m c) as [c1 [a|e|]].
Qed.

Lemma steps_await_or {A B : Type} (m : M A) (stuck : M B) (k : A -> M B) :
  steps m -> steps stuck -> (forall a, steps (k a)) ->
  steps (await_or W m stuck k).
Proof.
  intros Hm Hs Hk c. unfold await_or. specialize (Hm c).
  destruct (m c) as [c1 [a|e|]]; simpl in *; [|done|].
  - eapply R_trans; [exact Hm|apply Hk].
  - eapply R_trans; [exact Hm|apply Hs].
Qed.

Lemma steps_suspended rej fields keysArr :
  steps (suspended W rej fields keysArr).
Proof. intros c. destruct rej; apply R_refl. Qed.

Lemma steps_detach {A : Type} (m : M A) : steps m -> steps (detach W m).
Proof. intros Hm c. apply Hm. Qed.

Lemma steps_if {A : Type} (b : bool) (m1 m2 : M A) :
  steps m1 -> steps m2 -> steps (if b then m1 else m2).
Proof. by destruct b. Qed.

Section Inner.

Variable inner : string -> M value.
Hypothesis inner_steps : forall text, steps (inner text).

Lemma steps_use schema : steps (use_with W inner schema).
Proof.
  intros c. unfold use_with.
  eapply R_trans; [apply (R_schema schema)|apply inner_steps].
Qed.

Lemma steps_getTableByIDs ids : steps (getTableByIDs_with W inner ids).
Proof.
  unfold getTableByIDs_with. apply steps_if; [apply steps_ret|].
  apply steps_bind; [apply inner_steps|]. intros result.
  destruct (rows_of result); try apply steps_lift.
  apply steps_bind; [apply steps_lift|]. intros o. apply steps_ret.
Qed.

Lemma steps_run : steps (run_with _reducer W inner).
Proof.
  intros c. unfold run_with.
  eapply R_trans; [apply (R_query Builder.empty_query)|apply inner_steps].
Qed.

Lemma steps_getTableColumns schema table arrayRemap :
  steps (getTableColumns_with _reducer W inner schema table arrayRemap).
Proof.
  intros c. unfold getTableColumns_with.
  eapply R_trans; [apply (R_query (columns_query schema table (_query W c)))|].
  apply (steps_bind (run_with _reducer W inner)); [apply steps_run|].
  intros result. apply steps_lift.
Qed.

Lemma steps_getTableIndexes schema table :
  steps (getTableIndexes_with W inner schema table).
Proof.
  unfold getTableIndexes_with. apply steps_bind.
  - apply steps_if; [apply steps_detach, steps_use|apply steps_ret].
  - intros _. apply steps_bind; [apply inner_steps|].
    intros; apply steps_lift.
Qed.

Lemma steps_getKeyUsage schema table :
  steps (getKeyUsage_with W inner schema table).
Proof.
  unfold getKeyUsage_with.
  apply steps_bind; [apply inner_steps|intros; apply steps_lift].
Qed.

Lemma steps_enrich ps fields keysArr rej :
  steps (enrich _reducer W inner ps fields keysArr rej).
Proof.
  revert fields keysArr rej.
  induction ps as [|[table schema] ps IH]; intros fields keysArr rej; simpl.
  - apply steps_ret.
  - destruct (negb (truthy table) || negb (truthy schema)); [apply IH|].
    apply steps_await_or; [|apply steps_suspended|].
    { apply steps_try_catch, steps_bind; [apply steps_getTableColumns|].
      intros columns. apply steps_bind; [apply steps_getTableIndexes|].
      intros indexes. apply steps_ret. }
    intros r1. apply steps_await_or;
      [apply steps_try_catch, steps_getKeyUsage|apply steps_suspended|].
    intros r2. apply IH.
Qed.

Lemma steps_callback a query d res : steps (callback inner a query d res).
Proof.
  unfold Client.callback. apply steps_bind.
  { apply steps_if; [|apply steps_ret].
    apply steps_bind; [apply steps_lift|]. intros ids.
    apply steps_bind; [apply steps_getTableByIDs|]. intros tablesInfo.
    apply steps_bind; [apply steps_lift|]. intros rows. apply steps_ret. }
  intros shaped. apply steps_bind; [apply steps_this|]. intros c.
  apply steps_bind; [apply steps_lift|]. intros remapped.
  apply steps_bind; [|intros; apply steps_ret].
  apply steps_if; [apply steps_enrich|apply steps_ret].
Qed.

Lemma steps_statement a query :
  sendable query -> steps (statement inner a query).
Proof.
  intros Hq c. unfold Client.statement.
  destruct (_connection W c) as [h|] eqn:Hc; [|apply R_refl].
  specialize (Hq c h (nest a) Hc).
  destruct (drv_query h (nest a) query (world W c)) as [w [err|res]];
    simpl in Hq; [exact Hq|].
  pose proof (steps_callback a query (now w - now (world W c))%Z res
                (set_world W w c)) as Hcb.
  destruct (callback inner a query _ res _) as [c' [[[e|] r]|e|]];
    simpl in *; by eapply R_trans.
Qed.

Lemma steps_statements a queries resultsArr :
  (forall query, query ∈ queries -> Str.is_empty query = false ->
                 sendable query) ->
  steps (statements inner a queries resultsArr).
Proof.
  revert resultsArr.
  induction queries as [|query rest IH]; intros resultsArr Hq; simpl.
  - apply steps_ret.
  - assert (Hrest : forall q, q ∈ rest -> Str.is_empty q = false ->
                              sendable q).
    { intros q Hin. apply Hq. by right. }
    destruct (Str.is_empty query) eqn:Hne; [by apply IH|].
    apply steps_bind; [apply steps_statement, Hq; [left|exact Hne]|].
    intros result. by apply IH.
Qed.

Lemma steps_raw_with a sql :
  (forall query,
      query ∈ (if split a then Str.split ";" sql else [sql]) ->
      Str.is_empty query = false -> sendable query) ->
  steps (raw_with inner a sql).
Proof.
  intros Hq. unfold Client.raw_with.
  apply steps_bind; [apply steps_this|]. intros c.
  apply steps_bind.
  { apply steps_if; [apply steps_detach, steps_use|apply steps_ret]. }
  intros _. apply steps_bind; [|intros; apply steps_ret].
  by apply steps_statements.
Qed.

End Inner.

(** A call of [raw] from inside the client cuts its text at the
    semicolons. *)
Lemma steps_raw_plain text : steps (raw_plain text).
Proof.
  apply steps_raw_with; [intros t c; apply R_refl|].
  cbn [split default_args]. apply pieces_sendable.
Qed.

Lemma steps_raw a sql : split a = true -> steps (raw a sql).
Proof.
  intros Hs. apply steps_raw_with; [apply steps_raw_plain|].
  rewrite Hs. apply pieces_sendable.
Qed.

End StepFacts.

Section RecordingFacts.

Import Client RawSpec Recording.

Variable _reducer : list value -> Builder.clause -> list value.
Variable types : obj.
Variable W : Type.
Variable now : W -> Z.
Variable drv_query : handle -> bool -> string -> W -> W * (value + pg_result).
Variable parse : string -> option (list ast).

Lemma handed_refl P (c : Client.client (world_log W)) : handed W P c c.
Proof. exists []. by rewrite app_nil_r. Qed.

Lemma handed_trans P (c1 c2 c3 : Client.client (world_log W)) :
  handed W P c1 c2 -> handed W P c2 c3 -> handed W P c1 c3.
Proof.
  intros (n1 & H1 & P1) (n2 & H2 & P2). exists (n1 ++ n2). split.
  - by rewrite H2, H1, app_assoc.
  - by apply Forall_app.
Qed.

Lemma pieces_semicolon_free text query :
  query ∈ Str.split ";" text -> Str.is_empty query = false ->
  semicolon_free query.
Proof.
  intros Hin Hne. split.
  - by intros ->.
  - pose proof (split_pieces ";" text) as H.
    rewrite Forall_forall in H. by apply H.
Qed.

Lemma semicolon_free_sendable query :
  semicolon_free query ->
  sendable (world_log W) (recording W drv_query)
           (handed W semicolon_free) query.
Proof.
  intros HP c h arrayMode Hc. exists [query]. split; [|by constructor].
  unfold record, recording.
  by destruct (drv_query h arrayMode query (fst (world (world_log W) c))).
Qed.

(** With [split] on, whatever the other options and whatever the
    outcome, every text the driver is handed in the course of a call of
    [raw], by the call itself and by the lookups it makes, is not empty
    and holds no semicolon: the record of the driver grows by such texts
    only.  So a semicolon inside a quoted literal or a routine body cuts
    the statement too. *)
Theorem raw_statements_semicolon_free (a : args) (sql : string)
  (c : Client.client (world_log W)) (Hsplit : split a = true) :
  exists new,
    record W (fst (Client.raw _reducer types (world_log W) (now_log W now)
                     (recording W drv_query) parse a sql c))
    = record W c ++ new
    /\ Forall semicolon_free new.
Proof.
  apply (steps_raw _reducer types (world_log W) (now_log W now)
           (recording W drv_query) parse (handed W semicolon_free)).
  - apply handed_refl.
  - apply handed_trans.
  - intros q c0. exists []. by rewrite app_nil_r.
  - intros s c0. exists []. by rewrite app_nil_r.
  - intros text query Hin Hne.
    by apply semicolon_free_sendable, (pieces_semicolon_free text).
  - exact Hsplit.
Qed.

End RecordingFacts.

(** ** The properties on the concrete backend *)

Lemma raw_split_results_witness :
  (exists c2 r1 r2,
      Demo.raw Client.default_args "SELECT 1; SELECT 2" Demo.connected
      = (c2, Resolved (VArr [VObj r1; VObj r2]))
      /\ r1 !! "duration" = Some (VNum 5)
      /\ r2 !! "duration" = Some (VNum 5))
  /\ (exists c1 r,
         Demo.raw Client.default_args "SELECT 1" Demo.connected
         = (c1, Resolved (VObj r))
         /\ r !! "duration" = Some (VNum 5)).
Proof.
  split.
  - destruct (raw_split_results Builder.literal_reducer Demo.types Demo.W
                Demo.now Demo.drv_query Demo.parse
                "SELECT 1; SELECT 2" Demo.connected) as [H _].
    edestruct (H "SELECT 1" " SELECT 2") as (H1 & H2 & H3);
      [vm_compute; reflexivity..|].
    eexists _, _, _. split; [exact H1|]. split; [exact H2|exact H3].
  - destruct (raw_split_results Builder.literal_reducer Demo.types Demo.W
                Demo.now Demo.drv_query Demo.parse
                "SELECT 1" Demo.connected) as [_ H].
    edestruct (H "SELECT 1") as (H1 & H2); [vm_compute; reflexivity..|].
    eexists _, _. split; [exact H1|exact H2].
Defined.

Lemma raw_results_carry_keys_witness :
  exists resultsArr,
    snd (Demo.raw Client.default_args "SELECT 1; SELECT 2" Demo.connected)
    = Resolved (RawSpec.returned resultsArr)
    /\ Forall (fun result => result !! "keys" = Some (VArr [])) resultsArr.
Proof.
  destruct (Demo.raw Client.default_args "SELECT 1; SELECT 2" Demo.connected)
    as [c' [v|e|]] eqn:E; try (vm_compute in E; discriminate).
  destruct (raw_results_carry_keys Builder.literal_reducer Demo.types Demo.W
              Demo.now Demo.drv_query Demo.parse Client.default_args
              "SELECT 1; SELECT 2" Demo.connected c' v E) as (rs & -> & H).
  exists rs. split; [reflexivity|].
  eapply Forall_impl; [exact H|].
  intros r (keys & Hk & Hempty). by rewrite Hk, (Hempty eq_refl).
Defined.

(** C7 as stated fails: without [details] the result of a statement has
    a [keys] field all the same, holding the empty sequence. *)
Lemma raw_keys_counterexample :
  exists c' result,
    Demo.raw Client.default_args "SELECT 1" Demo.connected
    = (c', Resolved (VObj result))
    /\ Client.details Client.default_args = false
    /\ result !! "keys" = Some (VArr []).
Proof. eexists _, _. repeat split; vm_compute; reflexivity. Qed.

Lemma raw_details_unresolved_witness :
  exists c' result field,
    Demo.raw Demo.with_details "SELECT 1" Demo.connected
    = (c', Resolved (VObj result))
    /\ result !! "fields" = Some (VArr [VObj field])
    /\ field !! "table" = Some VNull
    /\ field !! "length" = None
    /\ field !! "key" = None.
Proof.
  destruct (raw_details_unresolved Builder.literal_reducer Demo.types Demo.W
              Demo.now Demo.drv_query Demo.parse
              (fun _ c => (c, Pending))) as (_ & _ & H).
  unfold Demo.raw, Demo.with_details. rewrite H.
  - eexists _, _, _. repeat split; vm_compute; reflexivity.
  - vm_compute. repeat constructor.
Defined.

Lemma raw_without_connection_witness :
  snd (Demo.raw Client.default_args "SELECT 1" Demo.unconnected)
  = Rejected TypeError
  /\ Client._connection Demo.W
       (fst (Demo.raw Client.default_args "SELECT 1" Demo.unconnected)) = None
  /\ snd (Client.getTableColumns Builder.literal_reducer Demo.types Demo.W
            Demo.now Demo.drv_query Demo.parse (VStr "public") (VStr "t") true
            Demo.unconnected)
     = Rejected TypeError
  /\ RawSpec.driver_error
       (snd (Client.raw Builder.literal_reducer Demo.types Demo.W Demo.now
               Cases.closing_query Demo.parse Client.default_args "SELECT 1"
               (fst (Client.destroy Demo.W Demo.drv_end Demo.connected)))).
Proof.
  destruct (raw_without_connection Builder.literal_reducer Demo.types Demo.W
              Demo.now Demo.drv_end Demo.drv_query Demo.parse
              Client.default_args "SELECT 1")
    as (Hk & H & _ & _).
  destruct (H Demo.unconnected eq_refl) as (Hraw & _ & _ & Hcolumns & _).
  destruct (raw_without_connection Builder.literal_reducer Demo.types Demo.W
              Demo.now Demo.drv_end Cases.closing_query Demo.parse
              Client.default_args "SELECT 1")
    as (_ & _ & _ & Hdestroyed).
  unfold Demo.raw. split; [exact Hraw|]. split; [apply Hk|].
  split; [apply Hcolumns|].
  destruct (Hdestroyed
              ltac:(intros h arrayMode text w Hended;
                    unfold Cases.closing_query; rewrite Hended;
                    eexists; reflexivity)
              Demo.connected {| Client.pooled := false; Client.ended := false |}
              eq_refl) as (Hfails & _).
  apply Hfails. discriminate.
Defined.

(** C9 as stated fails: on a client that was never connected, a call with
    no statement to run does not fail, and so neither does [alterTable]
    for a diff that asks for nothing; the same holds on a client that was
    destroyed; and a call that does fail fails with a type error. *)
Lemma raw_unconnected_counterexample :
  Client._connection Demo.W Demo.unconnected = None
  /\ snd (Demo.raw Client.default_args EmptyString Demo.unconnected)
     = Resolved (VArr [])
  /\ snd (Demo.alterTable Demo.empty_diff Demo.unconnected)
     = Resolved (VArr [])
  /\ snd (Client.raw Builder.literal_reducer Demo.types Demo.W Demo.now
            Cases.closing_query Demo.parse Client.default_args EmptyString
            (fst (Client.destroy Demo.W Demo.drv_end Demo.connected)))
     = Resolved (VArr [])
  /\ snd (Demo.raw Client.default_args "SELECT 1" Demo.unconnected)
     = Rejected TypeError.
Proof. repeat split; vm_compute; reflexivity. Qed.


(** ** The further properties on concrete cases *)

Lemma alterTable_statement_order_witness :
  exists l,
    Alter.collect Demo.dataTypes (VStr "public") Cases.rework = inr l
    /\ Alter.alterTable_sql Demo.dataTypes (VStr "public") Cases.rework
       = inr (ExtraSpec.stmts (Alter.manageIndexes l)
              +:+ ExtraSpec.stmts (Alter.createSequences l)
              +:+ ExtraSpec.alter_stmt (VStr "public") "t" (Alter.alterColumns l)
              +:+ ExtraSpec.stmts (Alter.renameColumns l)
              +:+ ExtraSpec.rename_stmt (VStr "public") Cases.rework).
Proof.
  destruct (Alter.collect Demo.dataTypes (VStr "public") Cases.rework)
    as [e|l] eqn:E; [vm_compute in E; discriminate|].
  exists l. split; [reflexivity|].
  exact (alterTable_statement_order Demo.dataTypes (VStr "public")
           Cases.rework l E).
Defined.

Lemma alterTable_sequences_and_renames_witness :
  exists l,
    Alter.collect Demo.dataTypes (VStr "public") Cases.rework = inr l
    /\ length (Alter.createSequences l) = 1%nat
    /\ length (Alter.renameColumns l) = 1%nat.
Proof.
  destruct (Alter.collect Demo.dataTypes (VStr "public") Cases.rework)
    as [e|l] eqn:E; [vm_compute in E; discriminate|].
  exists l. split; [reflexivity|].
  destruct (alterTable_sequences_and_renames Demo.dataTypes (VStr "public")
              Cases.rework l E) as [-> ->].
  split; vm_compute; reflexivity.
Defined.

Lemma alterTable_index_statements_witness :
  exists l,
    Alter.collect Demo.dataTypes (VStr "public") Cases.rework = inr l
    /\ Alter.manageIndexes l
       = [ "CREATE INDEX by_n ON t(n)";
           "CREATE INDEX by_key ON t(key)";
           "DROP INDEX old" ].
Proof.
  destruct (Alter.collect Demo.dataTypes (VStr "public") Cases.rework)
    as [e|l] eqn:E; [vm_compute in E; discriminate|].
  exists l. split; [reflexivity|].
  rewrite (alterTable_index_statements Demo.dataTypes (VStr "public")
             Cases.rework l E).
  vm_compute. reflexivity.
Defined.

Lemma alterTable_unknown_type_witness :
  Alter.alterTable_sql Demo.dataTypes (VStr "public") Cases.add_unknown
  = inl TypeError.
Proof.
  apply alterTable_unknown_type. apply Exists_cons_hd.
  vm_compute. reflexivity.
Defined.

Lemma getSQL_insert_witness :
  Builder.getSQL Builder.literal_reducer Cases.insert_rows
  = "INSERT INTO public.t (" +:+ Str.dquote +:+ "a" +:+ Str.dquote +:+ ", "
    +:+ Str.dquote +:+ "b" +:+ Str.dquote
    +:+ ") VALUES (1, 'x'), (2, 'y') ".
Proof.
  rewrite (getSQL_insert Builder.literal_reducer Cases.insert_rows
             [ ("a", VStr "1"); ("b", VStr "'x'") ]
             [ [ ("a", VStr "2"); ("b", VStr "'y'") ] ]
             eq_refl eq_refl eq_refl eq_refl eq_refl eq_refl eq_refl eq_refl).
  vm_compute. reflexivity.
Defined.

Lemma raw_statements_semicolon_free_witness :
  Recording.record Demo.W
    (fst (Client.raw Builder.literal_reducer Demo.types
            (Recording.world_log Demo.W) (Recording.now_log Demo.W Demo.now)
            (Recording.recording Demo.W Demo.drv_query) Demo.parse
            Client.default_args "SELECT ';'; SELECT 2;" Recording.observed))
  = ["SELECT '"; "'"; " SELECT 2"]
  /\ Forall Recording.semicolon_free ["SELECT '"; "'"; " SELECT 2"].
Proof.
  destruct (raw_statements_semicolon_free Builder.literal_reducer Demo.types
              Demo.W Demo.now Demo.drv_query Demo.parse Client.default_args
              "SELECT ';'; SELECT 2;" Recording.observed eq_refl)
    as (new & Hnew & HP).
  assert (E : Recording.record Demo.W
                (fst (Client.raw Builder.literal_reducer Demo.types
                        (Recording.world_log Demo.W)
                        (Recording.now_log Demo.W Demo.now)
                        (Recording.recording Demo.W Demo.drv_query) Demo.parse
                        Client.default_args "SELECT ';'; SELECT 2;"
                        Recording.observed))
              = ["SELECT '"; "'"; " SELECT 2"]) by (vm_compute; reflexivity).
  split; [exact E|]. rewrite E in Hnew. simpl in Hnew. by rewrite Hnew.
Defined.

Lemma raw_one_result_per_statement_witness :
  exists resultsArr,
    snd (Demo.raw Client.default_args "SELECT 1; SELECT 2;" Demo.connected)
    = Resolved (RawSpec.returned resultsArr)
    /\ length resultsArr = 2%nat.
Proof.
  destruct (Demo.raw Client.default_args "SELECT 1; SELECT 2;" Demo.connected)
    as [c' [v|e|]] eqn:E; try (vm_compute in E; discriminate).
  destruct (raw_one_result_per_statement Builder.literal_reducer Demo.types
              Demo.W Demo.now Demo.drv_query Demo.parse Client.default_args
              "SELECT 1; SELECT 2;" Demo.connected c' v E) as (rs & -> & H).
  exists rs. split; [reflexivity|exact H].
Defined.

Lemma raw_aborts_at_first_failure_witness :
  exists c2,
    Client.raw Builder.literal_reducer Trace.types Trace.W Trace.now
      Trace.no_drop Trace.parse Client.default_args
      "SELECT 1;DROP TABLE t;SELECT 2" (Trace.connected "public")
    = (c2, Rejected (DriverError (VStr "refused")))
    /\ Client.world Trace.W c2 = ["SELECT 1"; "DROP TABLE t"].
Proof.
  eexists. split.
  - eapply (raw_aborts_at_first_failure Builder.literal_reducer Trace.types
              Trace.W Trace.now Trace.no_drop Trace.parse Client.default_args
              "SELECT 1;DROP TABLE t;SELECT 2" (Trace.connected "public")
              ["SELECT 1"] "DROP TABLE t" ["SELECT 2"]);
      vm_compute; reflexivity.
  - vm_compute. reflexivity.
Defined.

Lemma raw_keeps_schema_witness :
  Client._schema Trace.W
    (fst (Client.raw Builder.literal_reducer Trace.types Trace.W Trace.now
            Trace.refusing Trace.parse
            {| Client.nest := true; Client.details := false;
               Client.split := true |}
            "SELECT 1; SELECT 2" (Trace.connected "app")))
  = VStr "app".
Proof.
  exact (raw_keeps_schema Builder.literal_reducer Trace.types Trace.W
           Trace.now Trace.refusing Trace.parse
           {| Client.nest := true; Client.details := false;
              Client.split := true |}
           "SELECT 1; SELECT 2" eq_refl (Trace.connected "app")).
Defined.

Lemma use_sets_schema_witness :
  Client._schema Demo.W
    (fst (Client.use Builder.literal_reducer Demo.types Demo.W Demo.now
            Demo.drv_query Demo.parse (VStr "app") Demo.unconnected))
  = VStr "app"
  /\ snd (Client.use Builder.literal_reducer Demo.types Demo.W Demo.now
            Demo.drv_query Demo.parse (VStr "app") Demo.unconnected)
     = Rejected TypeError.
Proof.
  destruct (use_sets_schema Builder.literal_reducer Demo.types Demo.W
              Demo.now Demo.drv_query Demo.parse (VStr "app")
              Demo.unconnected) as [H1 H2].
  split; [exact H1|exact (H2 eq_refl)].
Defined.

Lemma raw_sends_statements_in_order_witness :
  Client.world Trace.W
    (fst (Client.raw Builder.literal_reducer Trace.types Trace.W Trace.now
            Trace.drv_query Trace.parse Client.default_args
            "SELECT 1;;SELECT 2;" (Trace.connected "public")))
  = ["SELECT 1"; "SELECT 2"].
Proof.
  destruct (raw_sends_statements_in_order Builder.literal_reducer Trace.types
              Trace.W Trace.now Trace.drv_query Trace.parse
              Client.default_args "SELECT 1;;SELECT 2;"
              (Trace.connected "public")
              {| Client.pooled := false; Client.ended := false |}
              eq_refl eq_refl eq_refl)
    as [(rs & H)|(pre & q & rest & rs & Hq & _ & _ & Hstop)].
  - rewrite H. vm_compute. reflexivity.
  - exfalso.
    change (RawSpec.queries_of Client.default_args "SELECT 1;;SELECT 2;")
      with ["SELECT 1"; "SELECT 2"] in Hq.
    destruct pre as [|p1 [|p2 [|p3 pre]]]; try discriminate;
      injection Hq as <- Hq; try injection Hq as <- Hq; try discriminate;
      vm_compute in Hstop; exact Hstop.
Defined.

Lemma alterTrigger_sends_witness :
  exists c',
    Client.alterTrigger Builder.literal_reducer Trace.types Trace.W Trace.now
      Trace.drv_query Trace.parse Cases.a_trigger (Trace.connected "public")
    = (c', Resolved VUndef)
    /\ Client.world Trace.W c'
       = [ "CREATE TRIGGER `Antares_audit_tmp` AFTER INSERT ON `t` FOR EACH ROW BEGIN a; b; END";
           "DROP TRIGGER `Antares_audit_tmp`";
           "DROP TRIGGER `log`";
           "CREATE TRIGGER `audit` AFTER INSERT ON `t` FOR EACH ROW BEGIN a; b; END" ].
Proof.
  destruct (Client.alterTrigger Builder.literal_reducer Trace.types Trace.W
              Trace.now Trace.drv_query Trace.parse Cases.a_trigger
              (Trace.connected "public"))
    as [c' [v|e|]] eqn:E; try (vm_compute in E; discriminate).
  destruct (alterTrigger_sends Builder.literal_reducer Trace.types Trace.W
              Trace.now Trace.drv_query Trace.parse Cases.a_trigger
              (Trace.connected "public") c' v
              {| Client.pooled := false; Client.ended := false |}
              eq_refl E) as [-> ->].
  eexists. split; [reflexivity|]. vm_compute. reflexivity.
Defined.

Lemma alterTrigger_first_failure_witness :
  exists c',
    Client.alterTrigger Builder.literal_reducer Trace.types Trace.W Trace.now
      Trace.refusing Trace.parse Cases.a_trigger (Trace.connected "public")
    = (c', Rejected (DriverError (VStr "refused")))
    /\ Client.world Trace.W c'
       = [ "CREATE TRIGGER `Antares_audit_tmp` AFTER INSERT ON `t` FOR EACH ROW BEGIN a; b; END" ].
Proof.
  eexists. split.
  - exact (alterTrigger_first_failure Builder.literal_reducer Trace.types
             Trace.W Trace.now Trace.refusing Trace.parse Cases.a_trigger
             (Trace.connected "public")
             {| Client.pooled := false; Client.ended := false |}
             (VStr "refused") eq_refl eq_refl).
  - vm_compute. reflexivity.
Defined.

Lemma alterFunction_missing_parameters_witness :
  Client.alterFunction Builder.literal_reducer Trace.types Trace.W Trace.now
    Trace.drv_query Trace.parse (Cases.a_function None)
    (Trace.connected "public")
  = (Trace.connected "public", Rejected TypeError).
Proof.
  exact (proj2 (alterFunction_missing_parameters Builder.literal_reducer
                  Trace.types Trace.W Trace.now Trace.drv_query Trace.parse
                  (Cases.a_function None) (Trace.connected "public")
                  eq_refl)).
Defined.

Lemma alterFunction_sends_witness :
  exists c',
    Client.alterFunction Builder.literal_reducer Trace.types Trace.W Trace.now
      Trace.drv_query Trace.parse (Cases.a_function (Some []))
      (Trace.connected "public")
    = (c', Resolved VUndef)
    /\ Client.world Trace.W c'
       = [ Client.createFunction_sql
             (Client.tempFunction (Cases.a_function (Some []))) [];
           "DROP FUNCTION `Antares_twice_tmp`";
           "DROP FUNCTION `double`";
           Client.createFunction_sql (Cases.a_function (Some [])) [] ].
Proof.
  destruct (Client.alterFunction Builder.literal_reducer Trace.types Trace.W
              Trace.now Trace.drv_query Trace.parse
              (Cases.a_function (Some [])) (Trace.connected "public"))
    as [c' [v|e|]] eqn:E; try (vm_compute in E; discriminate).
  destruct (alterFunction_sends Builder.literal_reducer Trace.types Trace.W
              Trace.now Trace.drv_query Trace.parse
              (Cases.a_function (Some [])) [] (Trace.connected "public") c' v
              {| Client.pooled := false; Client.ended := false |}
              eq_refl eq_refl E) as [-> ->].
  eexists. split; [reflexivity|]. vm_compute. reflexivity.
Defined.

Lemma alterRoutine_sends_witness :
  exists c',
    Client.alterRoutine Builder.literal_reducer Trace.types Trace.W Trace.now
      Trace.drv_query Trace.parse Cases.a_routine (Trace.connected "app")
    = (c', Resolved VUndef)
    /\ Client.world Trace.W c'
       = [ "SET search_path TO app";
           Client.createRoutine_sql (VStr "app")
             (Client.tempProcedure Cases.a_routine);
           "DROP PROCEDURE app.Antares_tidy_tmp";
           "DROP PROCEDURE app.clean";
           "SET search_path TO app";
           Client.createRoutine_sql (VStr "app") Cases.a_routine ].
Proof.
  destruct (Client.alterRoutine Builder.literal_reducer Trace.types Trace.W
              Trace.now Trace.drv_query Trace.parse Cases.a_routine
              (Trace.connected "app"))
    as [c' [v|e|]] eqn:E; try (vm_compute in E; discriminate).
  destruct (alterRoutine_sends Builder.literal_reducer Trace.types Trace.W
              Trace.now Trace.drv_query Trace.parse Cases.a_routine
              (Trace.connected "app") c' v
              {| Client.pooled := false; Client.ended := false |}
              eq_refl eq_refl E) as [-> ->].
  eexists. split; [reflexivity|]. vm_compute. reflexivity.
Defined.

Lemma getVersion_parses_witness :
  exists c',
    Client.getVersion Builder.literal_reducer Trace.types Trace.W Trace.now
      Trace.version_answer Trace.parse (Trace.connected "public")
    = (c', Resolved (VObj (list_to_map
                             [ ("number", VStr "13.1");
                               ("name", VStr "PostgreSQL");
                               ("arch", VStr " compiled by gcc");
                               ("os", VStr " 64-bit") ]))).
Proof.
  eexists.
  eapply (getVersion_parses Builder.literal_reducer Trace.types Trace.W
            Trace.now Trace.version_answer Trace.parse
            (Trace.connected "public") _ _ _ _
            "PostgreSQL" "13.1" "on x86_64" " compiled by gcc" " 64-bit");
    first [vm_compute; reflexivity | split; vm_compute; reflexivity].
Defined.

Lemma getVersion_no_rows_witness :
  exists c',
    Client.getVersion Builder.literal_reducer Trace.types Trace.W Trace.now
      Trace.drv_query Trace.parse (Trace.connected "public")
    = (c', Rejected TypeError).
Proof.
  eexists.
  eapply (getVersion_no_rows Builder.literal_reducer Trace.types Trace.W
            Trace.now Trace.drv_query Trace.parse (Trace.connected "public"));
    vm_compute; reflexivity.
Defined.

Lemma getViewInformations_first_row_witness :
  (exists c',
      Client.getViewInformations Builder.literal_reducer Trace.types Trace.W
        Trace.now Trace.drv_query Trace.parse (VStr "public") (VStr "v")
        (Trace.connected "public")
      = (c', Resolved VUndef))
  /\ (exists c' record,
         Client.getViewInformations Builder.literal_reducer Trace.types Trace.W
           Trace.now Trace.view_answer Trace.parse (VStr "public") (VStr "v")
           (Trace.connected "public")
         = (c', Resolved (VObj record))
         /\ record !! "sql" = Some (VStr "SELECT 1")
         /\ record !! "name" = Some (VStr "v")).
Proof.
  split.
  - destruct (Client.raw Builder.literal_reducer Trace.types Trace.W Trace.now
                Trace.drv_query Trace.parse Client.default_args
                (Client.view_informations_sql (VStr "public") (VStr "v"))
                (Trace.connected "public"))
      as [c' [v|e|]] eqn:E; try (vm_compute in E; discriminate).
    destruct (getViewInformations_first_row Builder.literal_reducer
                Trace.types Trace.W Trace.now Trace.drv_query Trace.parse
                (VStr "public") (VStr "v") (Trace.connected "public") c' v E)
      as [H _].
    exists c'. apply H. vm_compute in E. injection E as _ <-.
    vm_compute. reflexivity.
  - destruct (Client.raw Builder.literal_reducer Trace.types Trace.W Trace.now
                Trace.view_answer Trace.parse Client.default_args
                (Client.view_informations_sql (VStr "public") (VStr "v"))
                (Trace.connected "public"))
      as [c' [v|e|]] eqn:E; try (vm_compute in E; discriminate).
    destruct (getViewInformations_first_row Builder.literal_reducer
                Trace.types Trace.W Trace.now Trace.view_answer Trace.parse
                (VStr "public") (VStr "v") (Trace.connected "public") c' v E)
      as [_ H].
    eexists c', _. split.
    + apply (H {[ "definition" := VStr "SELECT 1" ]}).
      vm_compute in E. injection E as _ <-. vm_compute. reflexivity.
    + split; vm_compute; reflexivity.
Defined.

Lemma createTable_two_results_witness :
  exists create drop,
    snd (Client.createTable Builder.literal_reducer Demo.types Demo.W Demo.now
           Demo.drv_query Demo.parse (VStr "t") Demo.connected)
    = Resolved (VArr [VObj create; VObj drop]).
Proof.
  destruct (Client.createTable Builder.literal_reducer Demo.types Demo.W
              Demo.now Demo.drv_query Demo.parse (VStr "t") Demo.connected)
    as [c' [v|e|]] eqn:E; try (vm_compute in E; discriminate).
  destruct (createTable_two_results Builder.literal_reducer Demo.types Demo.W
              Demo.now Demo.drv_query Demo.parse (VStr "t") Demo.connected
              c' v eq_refl eq_refl E) as (r1 & r2 & ->).
  by exists r1, r2.
Defined.

Lemma alterTable_empty_diff_witness :
  Demo.alterTable Demo.empty_diff Demo.unconnected
  = (Demo.unconnected, Resolved (VArr [])).
Proof.
  apply alterTable_empty_diff. repeat split; reflexivity.
Defined.

Lemma raw_fields_first_from_witness :
  exists result fields,
    snd (Client.raw Builder.literal_reducer Trace.types Trace.W Trace.now
           Trace.joined_answer Trace.joined_parse Client.default_args
           "SELECT a.id, b.label FROM a x JOIN b ON b.a = a.id"
           (Trace.connected "public"))
    = Resolved (VObj result)
    /\ result !! "fields" = Some (VArr (VObj <$> fields))
    /\ length fields = 2%nat
    /\ Forall (SendSpec.attributed Trace.first_table) fields
    /\ Forall (fun field => prop "table" field = VStr "a"
                            /\ prop "tableAlias" field = VUndef) fields.
Proof.
  destruct (Client.raw Builder.literal_reducer Trace.types Trace.W Trace.now
              Trace.joined_answer Trace.joined_parse Client.default_args
              "SELECT a.id, b.label FROM a x JOIN b ON b.a = a.id"
              (Trace.connected "public"))
    as [c' [v|e|]] eqn:E; try (vm_compute in E; discriminate).
  destruct (raw_fields_first_from Builder.literal_reducer Trace.types Trace.W
              Trace.now Trace.joined_answer Trace.joined_parse
              Client.default_args
              "SELECT a.id, b.label FROM a x JOIN b ON b.a = a.id"
              (Trace.connected "public") c' v eq_refl eq_refl E)
    as (rs & Hv & H).
  change (RawSpec.queries_of Client.default_args
            "SELECT a.id, b.label FROM a x JOIN b ON b.a = a.id")
    with ["SELECT a.id, b.label FROM a x JOIN b ON b.a = a.id"] in H.
  apply Forall2_cons_inv_l in H as (r & rs' & Hr & Hrest & ->).
  apply Forall2_nil_inv_l in Hrest as ->.
  destruct (Hr Trace.first_table) as (fields & Hf & Hall).
  { exists [{[ "name" := VStr "b" ]}], []. reflexivity. }
  exists r, fields. split; [by rewrite Hv|]. split; [exact Hf|].
  split; [|split; [exact Hall|]].
  2:{ eapply Forall_impl; [exact Hall|].
      intros f (Ht & _ & _ & Ha). split; [exact Ht|exact (Ha eq_refl)]. }
  vm_compute in E. injection E as _ Hv'. rewrite Hv in Hv'. simpl in Hv'.
  injection Hv' as <-.
  destruct fields as [|f1 [|f2 [|f3 fs]]];
    try (vm_compute in Hf; discriminate).
  reflexivity.
Defined.

Lemma raw_rows_or_report_witness :
  exists resultsArr result,
    snd (Demo.raw Client.default_args "SELECT 1; SELECT 2" Demo.connected)
    = Resolved (RawSpec.returned resultsArr)
    /\ Forall SendSpec.rows_or_report resultsArr
    /\ resultsArr !! 0%nat = Some result
    /\ result !! "rows" = Some (VArr [VObj {[ "?column?" := VNum 1 ]}])
    /\ result !! "report" = Some (VBool false).
Proof.
  destruct (Demo.raw Client.default_args "SELECT 1; SELECT 2" Demo.connected)
    as [c' [v|e|]] eqn:E; try (vm_compute in E; discriminate).
  destruct (raw_rows_or_report Builder.literal_reducer Demo.types Demo.W
              Demo.now Demo.drv_query Demo.parse Client.default_args
              "SELECT 1; SELECT 2" Demo.connected c' v E)
    as (rs & -> & H1 & H2).
  destruct rs as [|r rs]; [vm_compute in E; discriminate|].
  destruct (H2 {| Client.pooled := false; Client.ended := false |}
              eq_refl eq_refl eq_refl 0%nat "SELECT 1" r eq_refl eq_refl)
    as (res & Hres & Hshape).
  injection Hres as <-. destruct Hshape as [Hrows Hreport].
  exists (r :: rs), r. split; [reflexivity|]. split; [exact H1|].
  split; [reflexivity|]. split; [exact Hrows|exact Hreport].
Defined.

Lemma getTableByIDs_last_row_witness :
  exists c' (o : obj),
    Client.getTableByIDs Builder.literal_reducer Trace.types Trace.W Trace.now
      Trace.tables_answer Trace.parse (VStr "7") (Trace.connected "public")
    = (c', Resolved (VObj o))
    /\ o !! "7"
       = Some (VObj (list_to_map [ ("schema", VStr "second");
                                   ("table", VStr "t") ]))
    /\ o !! "8" = None.
Proof.
  destruct (Client.raw Builder.literal_reducer Trace.types Trace.W Trace.now
              Trace.tables_answer Trace.parse Client.default_args
              (Client.table_by_ids_sql (VStr "7")) (Trace.connected "public"))
    as [c' [v|e|]] eqn:E; try (vm_compute in E; discriminate).
  destruct (getTableByIDs_last_row Builder.literal_reducer Trace.types Trace.W
              Trace.now Trace.tables_answer Trace.parse (VStr "7")
              (Trace.connected "public") c' v Trace.table_rows eq_refl E)
    as (o & Ho & Hkeys).
  - vm_compute in E. injection E as _ <-. vm_compute. reflexivity.
  - repeat constructor; eexists; reflexivity.
  - exists c', o. split; [exact Ho|]. rewrite !Hkeys.
    split; vm_compute; reflexivity.
Defined.
